(** * Label alignment, selection and combination in [pandas/core/frame.py]

    A shallow embedding of the parts of [DataFrame] that resolve keys
    ([__getitem__], [_getitem_bool_array], [_getitem_frame]) and merge two
    frames ([combine], [combine_first], [update]), together with the
    collaborators these methods call into ([Index], [NDFrame.align],
    [find_common_type], ...), which live in other modules of the package.

    Standing restrictions of the model:
    - both axes are single-level: hierarchical ([MultiIndex]) axes are not
      represented, so the [nlevels > 1] branches of the source never fire;
    - a cell is [None] (NA, that is NaN) or a scalar; numbers are
      rationals: an integer column holds integers, a float column doubles,
      and the casts between the two round and truncate as numpy's do;
    - [copy()] is the identity: frames are values. *)

From Stdlib Require Import ZArith QArith String List Lia.
From stdpp Require Import base option list strings gmap.

Open Scope string_scope.
Open Scope list_scope.
Open Scope Z_scope.

(** ** Errors and the error monad *)

Inductive error :=
  | KeyNotFound            (* KeyError *)
  | LengthMismatch         (* ValueError: Item wrong length / length of values *)
  | AmbiguousAlignment     (* reindexing on an axis with duplicate labels *)
  | DataOverlap            (* ValueError: Data overlaps. *)
  | InvalidBooleanFrame    (* ValueError: Must pass DataFrame with boolean values only *)
  | UnalignableBooleanKey  (* IndexingError: Unalignable boolean Series *)
  | AttributeError         (* 'DataFrame' object has no attribute ... *)
  | NotImplementedError    (* Only left join is supported *)
  | BadErrorsParameter     (* ValueError: errors must be 'ignore' or 'raise' *)
  | BroadcastError         (* numpy: operands could not be broadcast together *)
  | CastError              (* ValueError/TypeError of astype *)
  | UserError              (* an exception raised by a caller-supplied function *)
  | RecursionLimit         (* the model's bound on nested calls was reached *)
  | Unmodelled.            (* behaviour that depends on code outside the model *)

#[global] Instance error_eq_dec : EqDecision error.
Proof. solve_decision. Defined.

Inductive result (A : Type) :=
  | Ok (a : A)
  | Err (e : error).
Arguments Ok {A} a.
Arguments Err {A} e.

#[global] Instance result_ret : MRet result := fun A a => Ok a.
#[global] Instance result_bind : MBind result := fun A B f m =>
  match m with
  | Ok a => f a
  | Err e => Err e
  end.

#[global] Instance result_fmap : FMap result := fun A B f m =>
  match m with
  | Ok a => Ok (f a)
  | Err e => Err e
  end.

Definition is_ok {A} (r : result A) : bool :=
  match r with Ok _ => true | Err _ => false end.

(** ** Labels *)

Inductive label :=
  | LInt (z : Z)
  | LStr (s : string).

#[global] Instance label_eq_dec : EqDecision label.
Proof. solve_decision. Defined.

#[global] Instance label_countable : Countable label.
Proof.
  refine (inj_countable'
            (fun l => match l with LInt z => inl z | LStr s => inr s end)
            (fun x => match x with inl z => LInt z | inr s => LStr s end) _).
  intros []; reflexivity.
Defined.

(** The order used when an index is sorted: integers before strings,
    integers numerically, strings lexicographically. *)
Definition label_leb (a b : label) : bool :=
  match a, b with
  | LInt x, LInt y => Z.leb x y
  | LInt _, LStr _ => true
  | LStr _, LInt _ => false
  | LStr x, LStr y => String.leb x y
  end.

(** ** LabelIndex

    Modelled from the spec: the [Index] class (pandas/core/indexes/base.py)
    is not part of frame.py.  The operations follow section 4.1: an index is
    an ordered, possibly non-unique sequence of labels. *)

Abbreviation index := (list label).

Definition mem (l : label) (ix : index) : bool := bool_decide (l ∈ ix).

(** [ix.equals(other)]: value-equal and in the same order. *)
Definition equals (ix other : index) : bool := bool_decide (ix = other).

Fixpoint is_unique (ix : index) : bool :=
  match ix with
  | [] => true
  | l :: rest => negb (mem l rest) && is_unique rest
  end.

(** Positions (0-based) at which [l] occurs, left to right. *)
Fixpoint positions_from (n : nat) (l : label) (ix : index) : list nat :=
  match ix with
  | [] => []
  | x :: rest =>
      if decide (x = l) then n :: positions_from (S n) l rest
      else positions_from (S n) l rest
  end.

Definition positions (l : label) (ix : index) : list nat :=
  positions_from 0 l ix.

(** What [get_loc] hands back: one position, or every matching position
    when the label repeats. *)
Inductive loc :=
  | LocInt (i : nat)
  | LocMany (ps : list nat).

Definition get_loc (ix : index) (l : label) : result loc :=
  match positions l ix with
  | [] => Err KeyNotFound
  | [i] => Ok (LocInt i)
  | ps => Ok (LocMany ps)
  end.

(** [get_indexer]: for each target label its position in [ix], or -1;
    section 4.1 names one position per label, and for a label that [ix]
    repeats the model takes the first. *)
Definition get_indexer (ix : index) (target : list label) : list Z :=
  map (fun l => match positions l ix with
                | [] => -1
                | i :: _ => Z.of_nat i
                end) target.

(** Intersection keeps the labels of [ix] that are found in [other], in the
    order of [ix]: the labels whose indexer entry against [other] is not -1. *)
Fixpoint keep_found (ls : list label) (ixr : list Z) : list label :=
  match ls, ixr with
  | l :: ls', p :: ixr' =>
      if p =? -1 then keep_found ls' ixr' else l :: keep_found ls' ixr'
  | _, _ => []
  end.

Definition intersection (ix other : index) : index :=
  keep_found ix (get_indexer other ix).

(** Sorted union without repetition, by insertion. *)
Fixpoint insert_sorted (l : label) (sorted : list label) : list label :=
  match sorted with
  | [] => [l]
  | x :: rest =>
      if decide (l = x) then sorted
      else if label_leb l x then l :: sorted
      else x :: insert_sorted l rest
  end.

Definition union_sorted (ix other : index) : index :=
  foldr insert_sorted [] (ix ++ other).

(** [Index.union]: the sorted union; as on the aligner's fast path, an
    equal (or empty) operand leaves the index as it is, which is what makes
    an operation of a frame with itself keep its axis order. *)
Definition union (ix other : index) : index :=
  if (length other =? 0)%nat || equals ix other then ix
  else if (length ix =? 0)%nat then other
  else union_sorted ix other.

(** ** Join policies (section 4.3) *)

Inductive policy := Outer | Inner | LeftJoin | RightJoin.

(** One axis of a join plan: the result index and the two indexers;
    [None] for an indexer marks the axis as a no-op for that side. *)
Record axis_plan := {
  plan_index : index;
  plan_lidx : option (list Z);
  plan_ridx : option (list Z);
}.

Definition join_index (how : policy) (left right : index) : index :=
  match how with
  | Outer => union_sorted left right
  | Inner => intersection left right
  | LeftJoin => left
  | RightJoin => right
  end.

(** The positions of the labels that [keep_found] keeps. *)
Fixpoint found_positions (n : nat) (ls : list label) (ixr : list Z) : list Z :=
  match ls, ixr with
  | l :: ls', p :: ixr' =>
      if p =? -1 then found_positions (S n) ls' ixr'
      else Z.of_nat n :: found_positions (S n) ls' ixr'
  | _, _ => []
  end.

(** The indexers of the two sides onto the joined index [ji]: a side whose
    index is the joined index is left alone; the intersection takes the
    left labels it keeps where they stand; otherwise [get_indexer]. *)
Definition join_indexers (how : policy) (left right ji : index)
  : option (list Z) * option (list Z) :=
  match how with
  | Outer => (Some (get_indexer left ji), Some (get_indexer right ji))
  | Inner => (Some (found_positions 0 left (get_indexer right left)),
              Some (get_indexer right ji))
  | LeftJoin => (None, Some (get_indexer right ji))
  | RightJoin => (Some (get_indexer left ji), None)
  end.

(** Modelled from the spec: [NDFrame.align] (pandas/core/generic.py) is not
    in frame.py, whose [DataFrame.align] only forwards to it.  One axis of
    section 4.3: the fast path when the two indexes are equal; otherwise
    the joined index with an indexer for each side.  [both] tells that the
    other axis has to be aligned as well: only then does a repeated label
    make the alignment ambiguous. *)
Definition align_axis (how : policy) (both : bool) (left right : index)
  : result axis_plan :=
  if equals left right then
    Ok {| plan_index := left; plan_lidx := None; plan_ridx := None |}
  else if both && (negb (is_unique left) || negb (is_unique right)) then
    Err AmbiguousAlignment
  else
    let ji := join_index how left right in
    let ixrs := join_indexers how left right ji in
    Ok {| plan_index := ji; plan_lidx := ixrs.1; plan_ridx := ixrs.2 |}.

(** ** Cells, dtypes and one-dimensional arrays *)

Inductive scalar :=
  | Num (q : Q)
  | Str (s : string)
  | Boolean (b : bool).

#[global] Instance Q_eq_dec : EqDecision Q.
Proof. solve_decision. Defined.
#[global] Instance scalar_eq_dec : EqDecision scalar.
Proof. solve_decision. Defined.

Definition cell := option scalar.

Inductive dtype := Bool | Int64 | Float64 | Object.

#[global] Instance dtype_eq_dec : EqDecision dtype.
Proof. solve_decision. Defined.

Definition is_dtype_equal (a b : dtype) : bool := bool_decide (a = b).
Definition is_bool_dtype (d : dtype) : bool := bool_decide (d = Bool).
Definition is_numeric (d : dtype) : bool :=
  match d with Int64 | Float64 => true | _ => false end.

(** Width order of the numeric types. *)
Definition width (d : dtype) : nat :=
  match d with Bool => 0 | Int64 => 1 | Float64 => 2 | Object => 3 end.

(** A numpy array of one dimension: element type and cells. *)
Record ndarray := {
  a_dtype : dtype;
  a_values : list cell;
}.

(** A Series: a named array that carries its own label index. *)
Record series := {
  s_name : label;
  s_index : index;
  s_data : ndarray;
}.

Definition s_dtype (s : series) : dtype := a_dtype (s_data s).
Definition s_values (s : series) : list cell := a_values (s_data s).

(** A DataFrame: the row index and the columns, each a label with its
    buffer; column labels may repeat. *)
Record table := {
  t_index : index;
  t_cols : list (label * ndarray);
}.

Definition columns (t : table) : index := (t_cols t).*1.

(** Invariant of section 3: every column is as long as the row index. *)
Definition wf (t : table) : Prop :=
  Forall (fun c => length (a_values c.2) = length (t_index t)) (t_cols t).

(** [NDFrame.empty]: some axis has length 0. *)
Definition empty (t : table) : bool :=
  (length (t_index t) =? 0)%nat || (length (t_cols t) =? 0)%nat.

Definition isna_cell (c : cell) : bool :=
  match c with None => true | Some _ => false end.
Definition isna (vs : list cell) : list bool := map isna_cell vs.
Definition notna (vs : list cell) : list bool := map (fun c => negb (isna_cell c)) vs.

Definition all_true (m : list bool) : bool := forallb id m.
Definition any_true (m : list bool) : bool := existsb id m.

(** Element-wise binary operations of numpy on one-dimensional operands:
    equal lengths, or one operand of length 1 that is stretched. *)
Definition broadcast2 {A B C} (f : A -> B -> C) (xs : list A) (ys : list B)
  : result (list C) :=
  if (length xs =? length ys)%nat then Ok (zip_with f xs ys)
  else match xs, ys with
       | [x], _ => Ok (map (f x) ys)
       | _, [y] => Ok (map (fun x => f x y) xs)
       | _, _ => Err BroadcastError
       end.

Definition np_and := broadcast2 andb.
Definition np_or := broadcast2 orb.
Definition np_not (m : list bool) : list bool := map negb m.

(** ** Casting *)

(** Truncation of a rational towards zero, as a float-to-int cast does. *)
Definition trunc (q : Q) : Z := Z.quot (Qnum q) (Z.pos (Qden q)).

Definition int64_min : Z := - 2 ^ 63.

(** The int64 of a float: the truncation when it fits; a value out of
    range gives the least integer, as the conversion does on x86-64
    (numpy leaves that case undefined). *)
Definition to_int64 (q : Q) : Z :=
  let z := trunc q in
  if (int64_min <=? z) && (z <? 2 ^ 63) then z else int64_min.

(** The double nearest to an integer: 53 significant bits, a tie going to
    the even neighbour.  Integers up to [2^53] in magnitude are exact. *)
Definition round_to_double (z : Z) : Z :=
  let m := Z.abs z in
  let e := Z.log2 m - 52 in
  if e <=? 0 then z
  else
    let q := Z.shiftr m e in
    let r := Z.land m (Z.ones e) in
    let half := Z.shiftl 1 (e - 1) in
    let q' := if (half <? r) || ((r =? half) && Z.odd q) then q + 1 else q in
    Z.sgn z * Z.shiftl q' e.

(** The float64 of a number: an integer is rounded to the nearest double;
    a number with a fractional part is a double already. *)
Definition to_double (q : Q) : Q :=
  if Z.rem (Qnum q) (Z.pos (Qden q)) =? 0 then
    let z := Z.quot (Qnum q) (Z.pos (Qden q)) in
    if round_to_double z =? z then q else inject_Z (round_to_double z)
  else q.

(** Cast of one scalar to a dtype; [None] when the scalar has no value of
    that type.  As a boolean a number is true unless it is zero, and a
    string unless it is empty; a string is taken not to spell a number. *)
Definition cast_scalar (d : dtype) (v : scalar) : option scalar :=
  match d, v with
  | Object, _ => Some v
  | Float64, Num q => Some (Num (to_double q))
  | Float64, Boolean b => Some (Num (if b then 1 else 0))
  | Int64, Num q => Some (Num (inject_Z (to_int64 q)))
  | Int64, Boolean b => Some (Num (if b then 1 else 0))
  | Bool, Boolean b => Some (Boolean b)
  | Bool, Num q => Some (Boolean (negb (Qeq_bool q 0)))
  | Bool, Str s => Some (Boolean (negb (String.eqb s "")))
  | _, Str _ => None
  end.

(** A dtype can hold NA only if it is float or object. *)
Definition holds_na (d : dtype) : bool :=
  match d with Float64 | Object => true | _ => false end.

(** Cast of one cell: NA stays NA in a type that holds it, is true as a
    boolean (NaN is not zero), and has no integer. *)
Definition cast_cell (d : dtype) (c : cell) : option cell :=
  match c with
  | None => if holds_na d then Some None
            else if is_bool_dtype d then Some (Some (Boolean true))
            else None
  | Some v => Some <$> cast_scalar d v
  end.

(** [arr.astype(d)]: fails (ValueError) when some cell cannot be cast. *)
Definition astype (d : dtype) (a : ndarray) : option ndarray :=
  vs ← mapM (cast_cell d) (a_values a);
  Some {| a_dtype := d; a_values := vs |}.

(** Two scalars denote the same value. *)
Definition same_scalar (x y : scalar) : bool :=
  match x, y with
  | Num p, Num q => Qeq_bool p q
  | Str s, Str t => bool_decide (s = t)
  | Boolean a, Boolean b => bool_decide (a = b)
  | Num p, Boolean b | Boolean b, Num p => Qeq_bool p (if b then 1 else 0)
  | _, _ => false
  end.

Definition same_cell (x y : cell) : bool :=
  match x, y with
  | None, None => true
  | Some a, Some b => same_scalar a b
  | _, _ => false
  end.

Definition same_values (xs ys : list cell) : bool :=
  bool_decide (length xs = length ys) && forallb id (zip_with same_cell xs ys).

(** Modelled from the spec: [find_common_type] (pandas/core/dtypes/cast.py)
    is not in frame.py.  Section 4.4: the wider numeric type wins, and the
    presence of a non-numeric type forces the object type. *)
Definition find_common_type (ts : list dtype) : dtype :=
  match ts with
  | [] => Object
  | t :: rest =>
      if forallb (is_dtype_equal t) rest then t
      else if forallb is_numeric ts then
        foldr (fun d acc => if (width acc <? width d)%nat then d else acc) t rest
      else Object
  end.

(** Modelled from the spec: [maybe_downcast_to_dtype]
    (pandas/core/dtypes/cast.py) is not in frame.py.  Section 4.4: the
    result is cast back to a narrower type when no precision is lost, and is
    left as it is otherwise. *)
Definition maybe_downcast_to_dtype (r : ndarray) (d : dtype) : ndarray :=
  if (width d <? width (a_dtype r))%nat then
    match astype d r with
    | Some r' => if same_values (a_values r') (a_values r) then r' else r
    | None => r
    end
  else r.

(** numpy's result type of two element types. *)
Definition np_result_type (a b : dtype) : dtype :=
  if (width a <? width b)%nat then b else a.

(** The cells of [a] seen at element type [d]; an array that already has
    that type is not touched. *)
Definition coerce (d : dtype) (a : ndarray) : list cell :=
  if is_dtype_equal (a_dtype a) d then a_values a
  else map (fun c => default c (cast_cell d c)) (a_values a).

Fixpoint select (mask : list bool) (xs ys : list cell) : list cell :=
  match mask, xs, ys with
  | m :: mask', x :: xs', y :: ys' =>
      (if m then x else y) :: select mask' xs' ys'
  | _, _, _ => []
  end.

(** [expressions.where(mask, x, y)], that is [np.where]: [x] where the mask
    holds, [y] elsewhere.  Operands of unequal length are rejected. *)
Definition np_where (mask : list bool) (x y : ndarray) : result ndarray :=
  if bool_decide (length mask = length (a_values x))
     && bool_decide (length mask = length (a_values y)) then
    let d := np_result_type (a_dtype x) (a_dtype y) in
    Ok {| a_dtype := d; a_values := select mask (coerce d x) (coerce d y) |}
  else Err BroadcastError.

(** ** ColumnStore: positional gather *)

(** A column that receives NA must be able to hold it. *)
Definition maybe_promote (d : dtype) : dtype :=
  match d with Bool => Object | Int64 => Float64 | _ => d end.

(** [take(indexer)] with -1 meaning "fill with NA": when there is
    something to fill, the cells are taken at the promoted type. *)
Definition take_fill (a : ndarray) (ixr : list Z) : ndarray :=
  let d := if existsb (fun p => p <? 0) ixr
           then maybe_promote (a_dtype a) else a_dtype a in
  {| a_dtype := d;
     a_values := map (fun p => if p <? 0 then None
                               else default None (coerce d a !! Z.to_nat p)) ixr |}.

Definition all_na (n : nat) : ndarray :=
  {| a_dtype := Float64; a_values := replicate n None |}.

(** Positional gather without fill, used by [_take]. *)
Definition take_list {A} (xs : list A) (ps : list nat) : list A :=
  omap (fun p => xs !! p) ps.

Definition take_rows (t : table) (ps : list nat) : table :=
  {| t_index := take_list (t_index t) ps;
     t_cols := map (fun c => (c.1, {| a_dtype := a_dtype c.2;
                                       a_values := take_list (a_values c.2) ps |}))
                   (t_cols t) |}.

Definition take_cols (t : table) (ps : list nat) : table :=
  {| t_index := t_index t; t_cols := take_list (t_cols t) ps |}.

(** [_reindex_with_indexers]: apply the indexers of a join plan; an axis
    without indexer is left alone. *)
Definition reindex_rows (t : table) (new_index : index) (ixr : option (list Z))
  : table :=
  match ixr with
  | None => t
  | Some ps =>
      {| t_index := new_index;
         t_cols := map (fun c => (c.1, take_fill c.2 ps)) (t_cols t) |}
  end.

Definition reindex_cols (t : table) (new_columns : index) (ixr : option (list Z))
  : table :=
  match ixr with
  | None => t
  | Some ps =>
      {| t_index := t_index t;
         t_cols := zip_with (fun l p =>
                     (l, if p <? 0 then all_na (length (t_index t))
                         else default (all_na (length (t_index t)))
                                (snd <$> t_cols t !! Z.to_nat p)))
                   new_columns ps |}
  end.

(** [self.align(other, join=how)] on both axes: the two frames reindexed
    onto the joined row and column indexes. *)
Definition align (self other : table) (how : policy) : result (table * table) :=
  rp ← align_axis how (negb (equals (columns self) (columns other)))
         (t_index self) (t_index other);
  cp ← align_axis how (negb (equals (t_index self) (t_index other)))
         (columns self) (columns other);
  Ok (reindex_cols (reindex_rows self (plan_index rp) (plan_lidx rp))
        (plan_index cp) (plan_lidx cp),
      reindex_cols (reindex_rows other (plan_index rp) (plan_ridx rp))
        (plan_index cp) (plan_ridx cp)).

(** [other.reindex_like(self)]: the left path of the aligner with [self]'s
    axes as targets, one axis after the other (section 4.5, reindex; the
    two calls of [_reindex_axes]). *)
Definition reindex_like (other self : table) : result table :=
  rp ← align_axis LeftJoin false (t_index self) (t_index other);
  cp ← align_axis LeftJoin false (columns self) (columns other);
  Ok (reindex_cols (reindex_rows other (plan_index rp) (plan_ridx rp))
        (plan_index cp) (plan_ridx cp)).

(** ** Selection: [DataFrame.__getitem__] *)

(** The closed set of keys (section 9): a hashable label, a positional row
    slice, a boolean vector without or with a label index of its own, a
    list of labels, a frame. *)
Inductive bool_key :=
  | BoolArray (mask : list bool)
  | BoolSeries (ix : index) (mask : list bool).

Inductive key :=
  | KScalar (l : label)
  | KSlice (start stop : nat)
  | KBool (b : bool_key)
  | KList (ls : list label)
  | KFrame (k : table).

(** A selection is a single column or a narrower frame. *)
Inductive selection :=
  | SelSeries (s : series)
  | SelFrame (t : table).

(** [_get_item_cache(key)] followed by [_box_col_values]: the column stored
    under [key], boxed as a Series over the frame's row index. *)
Definition get_item_cache (self : table) (l : label) : result series :=
  match list_find (fun c => c.1 = l) (t_cols self) with
  | Some (_, c) => Ok {| s_name := l; s_index := t_index self; s_data := c.2 |}
  | None => Err KeyNotFound
  end.

(** [_take(indexer, axis)]. *)
Definition _take (self : table) (indexer : list nat) (axis : nat) : table :=
  if (axis =? 0)%nat then take_rows self indexer else take_cols self indexer.

(** [_slice(slobj, axis=0)] for the positional slice [start:stop]. *)
Definition _slice (self : table) (start stop : nat) : table :=
  take_rows self (seq start (stop - start)).

(** The path of a hashable label through [__getitem__]: the shortcut for
    unique columns, then (no slicer, no frame, no boolean indexer) the
    single-key branch with its squeeze.  [data[key]] is the nested call. *)
Fixpoint getitem_label (fuel : nat) (self : table) (l : label)
  : result selection :=
  match fuel with
  | O => Err RecursionLimit
  | S fuel' =>
      if is_unique (columns self) && mem l (columns self) then
        SelSeries <$> get_item_cache self l
      else
        loc ← get_loc (columns self) l;
        let indexer := match loc with
                       | LocInt i => [i]
                       | LocMany ps => ps
                       end in
        let data := _take self indexer 1 in
        if (length (t_cols data) =? 1)%nat then getitem_label fuel' data l
        else Ok (SelFrame data)
  end.

(** Modelled from the spec: [check_bool_indexer] (pandas/core/indexing.py)
    is not in frame.py.  Section 4.2, case 1: a key with its own index that
    differs from the axis is reindexed to the axis; a label of the axis
    that the key does not carry cannot be aligned. *)
Definition check_bool_indexer (ax : index) (k : bool_key) : result (list bool) :=
  match k with
  | BoolArray mask => Ok mask
  | BoolSeries ix mask =>
      if equals ix ax then Ok mask
      else
        let ixr := get_indexer ix ax in
        if existsb (fun i => i <? 0) ixr then Err UnalignableBooleanKey
        else Ok (map (fun i => default false (mask !! Z.to_nat i)) ixr)
  end.

(** [key.nonzero()[0]]: the positions that hold [true]. *)
Fixpoint nonzero_from (n : nat) (mask : list bool) : list nat :=
  match mask with
  | [] => []
  | b :: rest => if b then n :: nonzero_from (S n) rest
                 else nonzero_from (S n) rest
  end.

Definition nonzero (mask : list bool) : list nat := nonzero_from 0 mask.

Definition key_len (k : bool_key) : nat :=
  match k with BoolArray m | BoolSeries _ m => length m end.

Definition _getitem_bool_array (self : table) (k : bool_key) : result table :=
  let reindexed := match k with
                   | BoolSeries ix _ => negb (equals ix (t_index self))
                   | BoolArray _ => false
                   end in
  if negb reindexed && negb (key_len k =? length (t_index self))%nat then
    Err LengthMismatch
  else
    mask ← check_bool_indexer (t_index self) k;
    Ok (_take self (nonzero mask) 0).

(** [key.values]: the frame as one two-dimensional array; it is boolean
    only if every column is (and there is one). *)
Definition values_size (k : table) : nat :=
  (length (t_index k) * length (t_cols k))%nat.

Definition values_dtype (k : table) : dtype :=
  match t_cols k with
  | [] => Float64
  | c :: rest => find_common_type (a_dtype c.2 :: map (fun c => a_dtype c.2) rest)
  end.

(** Modelled from the spec: [_convert_to_indexer] with [raise_missing=True]
    (pandas/core/indexing.py) is not in frame.py.  Section 4.2, case 5: a
    label that is absent fails with KeyError; a repeated label yields every
    position it occupies. *)
Definition convert_to_indexer (ax : index) (ls : list label) : result (list nat) :=
  foldr (fun l acc =>
           rest ← acc;
           match positions l ax with
           | [] => Err KeyNotFound
           | ps => Ok (ps ++ rest)
           end) (Ok []) ls.

Section Selection.

(** [NDFrame.where] (pandas/core/generic.py) is outside frame.py and is
    taken as given. *)
Variable where_ : table -> table -> result table.

Definition _getitem_frame (self k : table) : result table :=
  if negb (values_size k =? 0)%nat && negb (is_bool_dtype (values_dtype k)) then
    Err InvalidBooleanFrame
  else where_ self k.

Definition getitem (self : table) (k : key) : result selection :=
  match k with
  | KScalar l => getitem_label 2 self l
  | KSlice start stop => Ok (SelFrame (_slice self start stop))
  | KFrame f => SelFrame <$> _getitem_frame self f
  | KBool b => SelFrame <$> _getitem_bool_array self b
  | KList ls =>
      indexer ← convert_to_indexer (columns self) ls;
      Ok (SelFrame (_take self indexer 1))
  end.

End Selection.

(** ** Combination: [DataFrame.combine] and [DataFrame.combine_first] *)

(** A merge function takes the two aligned columns and returns an array;
    being caller-supplied code, it may raise. *)
Definition merge_function := series -> series -> result ndarray.

Definition with_data (s : series) (a : ndarray) : series :=
  {| s_name := s_name s; s_index := s_index s; s_data := a |}.

(** [series.dtype] on the value of [this[col]]: a frame, which is what a
    repeated column label selects, has no such attribute (unless the
    repeated label itself is "dtype", a case left out of the model). *)
Definition as_series (col : label) (sel : selection) : result series :=
  match sel with
  | SelSeries s => Ok s
  | SelFrame _ =>
      if decide (col = LStr "dtype") then Err Unmodelled else Err AttributeError
  end.

(** [series[mask] = fill_value] on a copy: the masked cells receive the
    fill value; the column turns to object if its type cannot hold it. *)
Definition fill_masked (s : series) (mask : list bool) (v : scalar) : series :=
  let d := s_dtype s in
  let d' := if any_true mask then
              match cast_scalar d v with
              | Some v' => if same_scalar v' v then d else Object
              | None => Object
              end
            else d in
  with_data s {| a_dtype := d';
                 a_values := zip_with (fun (m : bool) c => if m then Some v else c)
                                      mask (s_values s) |}.

(** The body of the loop of [combine] for one result column [col]; the
    result is what is stored under [result[col]]. *)
Definition combine_column (self this other : table) (func : merge_function)
    (fill_value : option scalar) (overwrite : bool) (col : label)
  : result ndarray :=
  sel ← getitem_label 2 this col;
  osel ← getitem_label 2 other col;
  series ← as_series col sel;
  otherSeries ← as_series col osel;
  let this_dtype := s_dtype series in
  let other_dtype := s_dtype otherSeries in
  let this_mask := isna (s_values series) in
  let other_mask := isna (s_values otherSeries) in
  if negb overwrite && all_true other_mask then
    Ok (s_data series)
  else
    let '(series, otherSeries) :=
      match fill_value with
      | Some v => (fill_masked series this_mask v,
                   fill_masked otherSeries other_mask v)
      | None => (series, otherSeries)
      end in
    promoted ←
      (if negb (mem col (columns self)) then
         let new_dtype := other_dtype in
         match astype new_dtype (s_data series) with
         | Some a => Ok (with_data series a, otherSeries)
         | None => Ok (series, otherSeries)
         end
       else
         let new_dtype := find_common_type [this_dtype; other_dtype] in
         series' ←
           (if negb (is_dtype_equal this_dtype new_dtype) then
              match astype new_dtype (s_data series) with
              | Some a => Ok (with_data series a)
              | None => Err CastError
              end
            else Ok series);
         otherSeries' ←
           (if negb (is_dtype_equal other_dtype new_dtype) then
              match astype new_dtype (s_data otherSeries) with
              | Some a => Ok (with_data otherSeries a)
              | None => Err CastError
              end
            else Ok otherSeries);
         Ok (series', otherSeries'));
    arr ← func promoted.1 promoted.2;
    Ok (maybe_downcast_to_dtype arr this_dtype).

(** [for col in new_columns: ... result[col] = ...]. *)
Fixpoint combine_loop (self this other : table) (func : merge_function)
    (fill_value : option scalar) (overwrite : bool)
    (cols : list label) (result_ : gmap label ndarray)
  : result (gmap label ndarray) :=
  match cols with
  | [] => Ok result_
  | col :: rest =>
      arr ← combine_column self this other func fill_value overwrite col;
      combine_loop self this other func fill_value overwrite rest
        (<[col := arr]> result_)
  end.

(** [DataFrame(result, index=new_index, columns=new_columns)] for a dict of
    arrays: every array must be as long as the index; a column without an
    entry is all NA. *)
Definition from_dict (d : gmap label ndarray) (new_index new_columns : index)
  : result table :=
  if forallb (fun col => match d !! col with
                         | Some a => (length (a_values a) =? length new_index)%nat
                         | None => true
                         end) new_columns then
    Ok {| t_index := new_index;
          t_cols := map (fun col => (col, default (all_na (length new_index))
                                            (d !! col))) new_columns |}
  else Err LengthMismatch.

Definition combine (self other : table) (func : merge_function)
    (fill_value : option scalar) (overwrite : bool) : result table :=
  let other_idxlen := length (t_index other) in
  aligned ← align self other Outer;
  let this := aligned.1 in
  let other := aligned.2 in
  let new_index := t_index this in
  if empty other && (length new_index =? length (t_index self))%nat then
    Ok self
  else if empty self && (length (t_index other) =? other_idxlen)%nat then
    Ok other
  else
    let new_columns := union (columns this) (columns other) in
    result_ ← combine_loop self this other func fill_value overwrite
                new_columns ∅;
    from_dict result_ new_index new_columns.

(** The merge function of [combine_first]: [x] where it is not NA, else
    [y]; a column that [self] does not have is [y] as it is. *)
Definition combiner (self : table) : merge_function := fun x y =>
  let mask := isna (s_values x) in
  let x_values := s_data x in
  let y_values := s_data y in
  if negb (mem (s_name y) (columns self)) then Ok y_values
  else np_where mask y_values x_values.

Definition combine_first (self other : table) : result table :=
  combine self other (combiner self) None false.

(** ** In-place update: [DataFrame.update] *)

(** [update] mutates the calling frame column by column and may raise in
    the middle: a computation takes the frame and returns the frame as it
    then is, with the outcome. *)
Definition inplace (A : Type) : Type := table -> table * result A.

#[global] Instance inplace_ret : MRet inplace := fun A a s => (s, Ok a).
#[global] Instance inplace_bind : MBind inplace := fun A B f m s =>
  match m s with
  | (s', Ok a) => f a s'
  | (s', Err e) => (s', Err e)
  end.

Definition raise {A} (e : error) : inplace A := fun s => (s, Err e).
Definition get_self : inplace table := fun s => (s, Ok s).
Definition put_self (t : table) : inplace unit := fun _ => (t, Ok tt).
Definition lift {A} (r : result A) : inplace A := fun s => (s, r).

Fixpoint for_each {A} (xs : list A) (body : A -> inplace unit) : inplace unit :=
  match xs with
  | [] => mret tt
  | x :: rest => body x ≫= fun _ => for_each rest body
  end.

(** [_ensure_valid_index(value)]: a frame without rows takes the positions
    of the assigned value as its row index. *)
Definition _ensure_valid_index (self : table) (value : ndarray) : table :=
  if (length (t_index self) =? 0)%nat then
    let n := length (a_values value) in
    {| t_index := map (fun i => LInt (Z.of_nat i)) (seq 0 n);
       t_cols := map (fun c => (c.1, take_fill c.2 (replicate n (-1))))
                     (t_cols self) |}
  else self.

(** [self[key] = value] for a label and an array ([_set_item]): the array
    must be as long as the row index; it replaces the column stored under
    the label, or is added as the last column. *)
Definition set_item (self : table) (l : label) (value : ndarray) : result table :=
  let self := _ensure_valid_index self value in
  if negb (length (a_values value) =? length (t_index self))%nat then
    Err LengthMismatch
  else if mem l (columns self) then
    Ok {| t_index := t_index self;
          t_cols := map (fun c => if decide (c.1 = l) then (l, value) else c)
                        (t_cols self) |}
  else
    Ok {| t_index := t_index self; t_cols := t_cols self ++ [(l, value)] |}.

Definition setitem (l : label) (value : ndarray) : inplace unit :=
  self ← get_self;
  t ← lift (set_item self l value);
  put_self t.

(** [frame[col].values] for the frames of [update]: the array of the one
    column.  A repeated label selects a frame, whose values are
    two-dimensional; the model stops there. *)
Definition column_values (t : table) (col : label) : result ndarray :=
  sel ← getitem_label 2 t col;
  match sel with
  | SelSeries s => Ok (s_data s)
  | SelFrame _ => Err Unmodelled
  end.

(** A filter function is caller-supplied: it returns a boolean array or
    raises ([None]). *)
Definition filter_function := ndarray -> option (list bool).

Definition from_user {A} (o : option A) : result A :=
  match o with Some a => Ok a | None => Err UserError end.

(** The body of the loop of [update] for the column [col]. *)
Definition update_column (other : table) (overwrite : bool)
    (filter_func : option filter_function) (errors : string) (col : label)
  : inplace unit :=
  self ← get_self;
  this ← lift (column_values self col);
  that ← lift (column_values other col);
  mask ←
    match filter_func with
    | Some f =>
        keep ← lift (from_user (f this));
        lift (np_or (np_not keep) (isna (a_values that)))
    | None =>
        (if String.eqb errors "raise" then
           let mask_this := notna (a_values that) in
           let mask_that := notna (a_values this) in
           both ← lift (np_and mask_this mask_that);
           if any_true both then raise DataOverlap else mret tt
         else mret tt) ≫= fun _ =>
        if overwrite then mret (isna (a_values that))
        else mret (notna (a_values this))
    end;
  if all_true mask then mret tt
  else
    arr ← lift (np_where mask this that);
    setitem col arr.

Definition update (other : table) (join : string) (overwrite : bool)
    (filter_func : option filter_function) (errors : string) : inplace unit :=
  if negb (String.eqb join "left") then raise NotImplementedError
  else if negb (bool_decide (errors ∈ ["ignore"; "raise"])) then
    raise BadErrorsParameter
  else
    self ← get_self;
    other ← lift (reindex_like other self);
    for_each (columns self) (update_column other overwrite filter_func errors).

(** ** The specification's readings, for comparison with the code *)

(** Rows at the true positions of the key, as it stands. *)
Definition key_mask (k : bool_key) : list bool :=
  match k with BoolArray m | BoolSeries _ m => m end.

Definition direct_mask (self : table) (k : bool_key) : table :=
  take_rows self (nonzero (key_mask k)).

(** The narrower of two column types. *)
Definition narrower (a b : dtype) : dtype :=
  if (width b <? width a)%nat then b else a.


(** Two non-null cells at the same position. *)
Definition overlapping (xs ys : list cell) : bool :=
  existsb id (zip_with (fun x y => negb (isna_cell x) && negb (isna_cell y)) xs ys).

(** The buffer stored under a column label (the first, if it repeats). *)
Definition column_of (t : table) (col : label) : option ndarray :=
  snd <$> (snd <$> list_find (fun c => c.1 = col) (t_cols t)).

(** ** Frames used as examples, and derived notions *)

Definition frame_other : table :=
  {| t_index := [LInt 2; LInt 3; LInt 4];
     t_cols := [(LStr "x", {| a_dtype := Int64;
                              a_values := [Some (Num 2); Some (Num 3); Some (Num 4)] |})] |}.

(** A frame whose row index repeats a label and is not sorted, and a frame
    on other columns. *)
Definition frame_repeated_rows : table :=
  {| t_index := [LInt 3; LInt 1; LInt 2; LInt 3];
     t_cols := [(LStr "x", {| a_dtype := Int64;
                              a_values := [Some (Num 30); Some (Num 10);
                                           Some (Num 20); Some (Num 31)] |})] |}.

Definition frame_other_y : table :=
  {| t_index := [LInt 2; LInt 3; LInt 4];
     t_cols := [(LStr "y", {| a_dtype := Int64;
                              a_values := [Some (Num 2); Some (Num 3); Some (Num 4)] |})] |}.

(** Section 4.3: a pair of frames cannot be aligned when both axes need
    aligning and one of the four indexes repeats a label. *)
Definition ambiguous (self other : table) : bool :=
  negb (equals (t_index self) (t_index other))
  && negb (equals (columns self) (columns other))
  && negb (is_unique (t_index self) && is_unique (t_index other)
           && is_unique (columns self) && is_unique (columns other)).

(** The frame made of the columns labelled [l], in their order. *)
Definition columns_labelled (t : table) (l : label) : table :=
  {| t_index := t_index t; t_cols := filter (fun c => c.1 = l) (t_cols t) |}.

Definition frame_xyx : table :=
  {| t_index := [LInt 0; LInt 1];
     t_cols := [(LStr "x", {| a_dtype := Int64; a_values := [Some (Num 1); Some (Num 2)] |});
                (LStr "y", {| a_dtype := Int64; a_values := [Some (Num 3); Some (Num 4)] |});
                (LStr "x", {| a_dtype := Int64; a_values := [Some (Num 5); Some (Num 6)] |})] |}.

(** A boolean Series read at the labels of an axis: for each label of the
    axis, the value the Series holds under that label. *)
Definition reindex_mask (ix : index) (mask : list bool) (ax : index) : list bool :=
  map (fun l => default false (i ← head (positions l ix); mask !! i)) ax.

Definition frame_empty_floats : table :=
  {| t_index := [];
     t_cols := [(LStr "a", {| a_dtype := Float64; a_values := [] |})] |}.

Definition frame_two_rows : table :=
  {| t_index := [LInt 0; LInt 1];
     t_cols := [(LStr "v", {| a_dtype := Int64;
                              a_values := [Some (Num 10); Some (Num 11)] |})] |}.

(** A frame whose row index repeats a label. *)
Definition frame_rows_001 : table :=
  {| t_index := [LInt 0; LInt 0; LInt 1];
     t_cols := [(LStr "v", {| a_dtype := Int64;
                              a_values := [Some (Num 10); Some (Num 11);
                                           Some (Num 12)] |})] |}.

Definition key_swapped : bool_key :=
  BoolSeries [LInt 1; LInt 0] [true; false].

(** The frames of the spec's example for [update]:
    [A = {col: [1, null]}] and [B = {col: [9, 9]}] on the same rows. *)
Definition column_frame (d : dtype) (vs : list cell) : table :=
  {| t_index := map (fun i => LInt (Z.of_nat i)) (seq 0 (length vs));
     t_cols := [(LStr "col", {| a_dtype := d; a_values := vs |})] |}.

Definition update_A : table := column_frame Float64 [Some (Num 1); None].
Definition update_B : table := column_frame Int64 [Some (Num 9); Some (Num 9)].


(** A filter function that asks for every cell to be replaced. *)
Definition replace_all : filter_function :=
  fun this => Some (map (fun _ => true) (a_values this)).

(** Does some column of [cols] hold non-null cells on both sides at one
    position? *)
Definition any_overlap (self other : table) (cols : list label) : bool :=
  existsb (fun col =>
             match column_of self col, column_of other col with
             | Some a, Some b => overlapping (a_values a) (a_values b)
             | _, _ => false
             end) cols.


(** [series.astype(new_dtype)] as [combine] applies it: only when the
    column is not of that type already. *)
Definition promote (d : dtype) (a : ndarray) : option ndarray :=
  if is_dtype_equal (a_dtype a) d then Some a else astype d a.

(** A merge function that answers with its second (promoted) argument. *)
Definition take_right : merge_function := fun _ y => Ok (s_data y).

(** A merge function that answers with its first (promoted) argument. *)
Definition take_left : merge_function := fun x _ => Ok (s_data x).

(** A merge function that always raises. *)
Definition always_raises : merge_function := fun _ _ => Err UserError.

Definition frame_dup_columns : table :=
  {| t_index := [LInt 0];
     t_cols := [(LStr "a", {| a_dtype := Int64; a_values := [Some (Num 1)] |});
                (LStr "a", {| a_dtype := Int64; a_values := [Some (Num 1)] |})] |}.

(** A frame with a null, an unsorted row index and unsorted columns. *)
Definition frame_ba : table :=
  {| t_index := [LInt 2; LInt 1];
     t_cols := [(LStr "b", {| a_dtype := Float64; a_values := [None; Some (Num 4)] |});
                (LStr "a", {| a_dtype := Object; a_values := [Some (Str "u"); None] |})] |}.

(** A float column that holds a fraction, and an integer column. *)
Definition frame_float : table := column_frame Float64 [Some (Num (3 # 2))].
Definition frame_int : table := column_frame Int64 [Some (Num 2)].

(** Two frames on the same rows with different columns, and what the
    outer alignment makes of them. *)
Definition frame_x : table :=
  {| t_index := [LInt 0; LInt 1];
     t_cols := [(LStr "x", {| a_dtype := Int64;
                              a_values := [Some (Num 1); Some (Num 2)] |})] |}.

Definition frame_y : table :=
  {| t_index := [LInt 0; LInt 1];
     t_cols := [(LStr "y", {| a_dtype := Int64;
                              a_values := [Some (Num 7); Some (Num 8)] |})] |}.

Definition this_xy : table :=
  {| t_index := [LInt 0; LInt 1];
     t_cols := [(LStr "x", {| a_dtype := Int64;
                              a_values := [Some (Num 1); Some (Num 2)] |});
                (LStr "y", all_na 2)] |}.

Definition other_xy : table :=
  {| t_index := [LInt 0; LInt 1];
     t_cols := [(LStr "x", all_na 2);
                (LStr "y", {| a_dtype := Int64;
                              a_values := [Some (Num 7); Some (Num 8)] |})] |}.

(** The row index a frame without rows takes from an assigned value of
    [n] elements: the positions [0 .. n-1]. *)
Definition range_index (n : nat) : index :=
  map (fun i => LInt (Z.of_nat i)) (seq 0 n).

Definition frame_no_rows : table :=
  {| t_index := [];
     t_cols := [(LStr "a", {| a_dtype := Int64; a_values := [] |})] |}.

(** A frame with two rows whose only column holds no value. *)
Definition frame_object_na : table :=
  {| t_index := [LInt 0; LInt 1];
     t_cols := [(LStr "a", {| a_dtype := Object; a_values := [None; None] |})] |}.

(** What [update] leaves in a column whose cells are [a], the cells of the
    reindexed other frame being [b]: nothing changes when the mask holds
    everywhere; otherwise the cells where the mask holds are kept and the
    others are taken from [b], both seen at the common element type. *)
Definition merged_column (overwrite : bool) (a b : ndarray) : ndarray :=
  let mask := if overwrite then isna (a_values b) else notna (a_values a) in
  if all_true mask then a
  else
    let d := np_result_type (a_dtype a) (a_dtype b) in
    {| a_dtype := d; a_values := select mask (coerce d a) (coerce d b) |}.

(** The masked merge of two columns, [np.where(mask, a, b)] unless the
    mask holds everywhere: the cells of [a] where the mask holds, those of
    [b] elsewhere, both seen at the common element type. *)
Definition masked_column (mask : list bool) (a b : ndarray) : ndarray :=
  if all_true mask then a
  else
    let d := np_result_type (a_dtype a) (a_dtype b) in
    {| a_dtype := d; a_values := select mask (coerce d a) (coerce d b) |}.

(** The end of the loop body of [update], once the mask is known. *)
Definition masked_store (mask : list bool) (col : label) (a b : ndarray)
  : inplace unit :=
  if all_true mask then mret tt
  else arr ← lift (np_where mask a b); setitem col arr.


(** * Further methods of [DataFrame] *)

(** ** Counting and dropping missing values: [count], [dropna] *)

(** The two axes of a frame: 0 or 'index', and 1 or 'columns'
    ([_get_axis_number] admits nothing else). *)
Inductive axis := Rows | Columns.

Definition axis_number (a : axis) : nat :=
  match a with Rows => 0 | Columns => 1 end.

(** [1 - axis]. *)
Definition other_axis (a : axis) : axis :=
  match a with Rows => Columns | Columns => Rows end.

Definition _get_axis (self : table) (a : axis) : index :=
  match a with Rows => t_index self | Columns => columns self end.

(** [_get_agg_axis(axis_num)]: the labels of the result of a reduction
    along the axis. *)
Definition _get_agg_axis (self : table) (a : axis) : index :=
  match a with Rows => columns self | Columns => t_index self end.

(** [_is_mixed_type]: the columns are not all of one element type. *)
Definition _is_mixed_type (self : table) : bool :=
  match t_cols self with
  | [] => false
  | c :: rest => negb (forallb (fun c' => is_dtype_equal (a_dtype c'.2) (a_dtype c.2)) rest)
  end.

Definition count_true (m : list bool) : nat :=
  length (filter (fun b => b = true) m).

(** The cells of row [i], one per column. *)
Definition row_cells (t : table) (i : nat) : list cell :=
  map (fun c => default None (a_values c.2 !! i)) (t_cols t).

(** [notna(frame).sum(axis)]: the number of non-NA cells of each column
    (along the rows) or of each row (along the columns). *)
Definition notna_sum (frame : table) (a : axis) : list nat :=
  match a with
  | Rows => map (fun c => count_true (notna (a_values c.2))) (t_cols frame)
  | Columns => map (fun i => count_true (notna (row_cells frame i)))
                   (seq 0 (length (t_index frame)))
  end.

(** The Series of counts: its index and its int64 values. *)
Record counts := {
  c_index : index;
  c_values : list nat;
}.

(** What [dropna] raises: the labels of [subset] that the axis does not
    have (KeyError), an unknown [how] (ValueError), neither [how] nor
    [thresh] (TypeError). *)
Inductive dropna_error :=
  | SubsetNotFound (missing : list label)
  | InvalidHow (how : string)
  | HowOrThreshRequired.

(** Modelled from the spec: [Index.get_indexer_for]
    (pandas/core/indexes/base.py) is not in frame.py.  As [get_indexer]
    (section 4.1), with every position of a label that repeats. *)
Definition get_indexer_for (ax : index) (target : list label) : list Z :=
  target ≫= fun l => match positions l ax with
                     | [] => [-1]
                     | ps => Z.of_nat <$> ps
                     end.

(** [np.compress(condition, a)]. *)
Definition compress {A} (condition : list bool) (a : list A) : list A :=
  (filter (fun p => p.1 = true) (zip condition a)).*2.

Section Counting.

(** [_get_numeric_data] (pandas/core/generic.py) is outside frame.py and
    is taken as given. *)
Variable _get_numeric_data : table -> table.

(** [count(axis, level=None, numeric_only)]. *)
Definition count (self : table) (a : axis) (numeric_only : bool) : counts :=
  let frame := if numeric_only then _get_numeric_data self else self in
  if (length (_get_axis frame a) =? 0)%nat then
    {| c_index := _get_agg_axis frame a;
       c_values := replicate (length (_get_agg_axis frame a)) 0%nat |}
  else if _is_mixed_type frame then
    {| c_index := _get_agg_axis frame a; c_values := notna_sum frame a |}
  else
    let series_counts := notna_sum frame a in
    {| c_index := _get_agg_axis frame a; c_values := series_counts |}.

(** [dropna(axis, how, thresh, subset)] for one axis; the result is
    returned ([inplace=False]). *)
Definition dropna (self : table) (a : axis) (how : option string)
    (thresh : option Z) (subset : option (list label))
  : dropna_error + table :=
  let agg_axis := other_axis a in
  let agg_obj :=
    match subset with
    | None => inr self
    | Some ls =>
        let ax := _get_axis self agg_axis in
        let indices := get_indexer_for ax ls in
        let check := map (fun i => i =? -1) indices in
        if any_true check then inl (SubsetNotFound (compress check ls))
        else inr (_take self (Z.to_nat <$> indices) (axis_number agg_axis))
    end in
  match agg_obj with
  | inl e => inl e
  | inr agg_obj =>
      let cnt := c_values (count agg_obj agg_axis false) in
      let mask :=
        match thresh with
        | Some th => inr (map (fun c => th <=? Z.of_nat c) cnt)
        | None =>
            match how with
            | Some h =>
                if String.eqb h "any" then
                  inr (map (fun c => (c =? length (_get_axis agg_obj agg_axis))%nat) cnt)
                else if String.eqb h "all" then
                  inr (map (fun c => (0 <? c)%nat) cnt)
                else inl (InvalidHow h)
            | None => inl HowOrThreshRequired
            end
        end in
      match mask with
      | inl e => inl e
      | inr mask => inr (_take self (nonzero mask) (axis_number a))
      end
  end.

End Counting.

(** Does a list of cells hold no NA? *)
Definition complete (vs : list cell) : bool := forallb (fun c => negb (isna_cell c)) vs.

Definition frame_gaps : table :=
  {| t_index := [LInt 0; LInt 1; LInt 2];
     t_cols := [(LStr "a", {| a_dtype := Float64;
                              a_values := [Some (Num 1); None; Some (Num 3)] |});
                (LStr "b", {| a_dtype := Object;
                              a_values := [Some (Str "x"); Some (Str "y"); None] |})] |}.

(** ** Label-based fancy indexing: [lookup] and [_get_value] *)

(** What these raise: ValueError for label lists of different sizes,
    KeyError for a row or a column label that is not found, IndexError
    for a position outside the values; [NotScalar] stands for the array
    that a repeated row label selects instead of one value. *)
Inductive lookup_error :=
  | SizeMismatch
  | RowNotFound
  | ColumnNotFound
  | OutOfBounds
  | NotScalar.

(** [self.values]: the cells as one two-dimensional array of the common
    element type, a list of rows. *)
Definition values (self : table) : list (list cell) :=
  map (fun i => map (fun c => default None (coerce (values_dtype self) c.2 !! i))
                    (t_cols self))
      (seq 0 (length (t_index self))).

(** [values.flat[flat_index]]: the array read in row-major order. *)
Definition flat_take (vs : list (list cell)) (flat_index : list Z)
  : lookup_error + list cell :=
  match mapM (fun z => concat vs !! Z.to_nat z) flat_index with
  | Some cells => inr cells
  | None => inl OutOfBounds
  end.

(** [_get_value(index, col)] for labels ([takeable=False]): the cell of
    the column stored under [col] at the position of the row label. *)
Definition _get_value (self : table) (row col : label) : lookup_error + cell :=
  match get_item_cache self col with
  | Err _ => inl ColumnNotFound
  | Ok series =>
      match get_loc (t_index self) row with
      | Err _ => inl RowNotFound
      | Ok (LocInt i) =>
          match s_values series !! i with
          | Some x => inr x
          | None => inl OutOfBounds
          end
      | Ok (LocMany _) => inl NotScalar
      end
  end.

Fixpoint get_values (self : table) (pairs : list (label * label))
  : lookup_error + list cell :=
  match pairs with
  | [] => inr []
  | (r, c) :: rest =>
      match _get_value self r c with
      | inl e => inl e
      | inr x => match get_values self rest with
                 | inl e => inl e
                 | inr xs => inr (x :: xs)
                 end
      end
  end.

(** [lookup(row_labels, col_labels)]; the cells of the result (its
    element type, inferred afterwards for object arrays, is left out). *)
Definition lookup (self : table) (row_labels col_labels : list label)
  : lookup_error + list cell :=
  let n := length row_labels in
  if negb (n =? length col_labels)%nat then inl SizeMismatch
  else
    let thresh := 1000%nat in
    if negb (_is_mixed_type self) || (thresh <? n)%nat then
      let ridx := get_indexer (t_index self) row_labels in
      let cidx := get_indexer (columns self) col_labels in
      if existsb (fun i => i =? -1) ridx then inl RowNotFound
      else if existsb (fun i => i =? -1) cidx then inl ColumnNotFound
      else
        let flat_index :=
          zip_with (fun r c => r * Z.of_nat (length (columns self)) + c) ridx cidx in
        flat_take (values self) flat_index
    else get_values self (zip row_labels col_labels).

(** ** Iterating over the columns: [iteritems] and [_ixs] *)

(** [_ixs(i, axis=1)] for an integer: the column at position [i] as a
    Series over the row index; an empty buffer under a non-empty row
    index is replaced by NA of object type. *)
Definition _ixs_column (self : table) (i : nat) : option series :=
  c ← t_cols self !! i;
  let label := c.1 in
  let index_len := length (t_index self) in
  let vs := c.2 in
  let vs := if negb (index_len =? 0)%nat && (length (a_values vs) =? 0)%nat
            then {| a_dtype := Object; a_values := replicate index_len None |}
            else vs in
  Some {| s_name := label; s_index := t_index self; s_data := vs |}.

(** [iteritems()]: the pairs it yields, in order. *)
Definition iteritems (self : table) : result (list (label * series)) :=
  if is_unique (columns self) then
    mapM (M := result) (fun k => s ← get_item_cache self k; Ok (k, s)) (columns self)
  else
    mapM (M := result)
         (fun ik => match _ixs_column self ik.1 with
                    | Some s => Ok (ik.2, s)
                    | None => Err Unmodelled
                    end)
         (zip (seq 0 (length (columns self))) (columns self)).

Definition frame_mixed : table :=
  {| t_index := [LInt 10; LInt 20];
     t_cols := [(LStr "p", {| a_dtype := Int64; a_values := [Some (Num 1); Some (Num 2)] |});
                (LStr "q", {| a_dtype := Int64; a_values := [Some (Num 3); Some (Num 4)] |});
                (LStr "r", {| a_dtype := Int64; a_values := [Some (Num 5); Some (Num 6)] |})] |}.

(** One row of an integer ([2^53 + 1]) and a float. *)
Definition frame_int_float : table :=
  {| t_index := [LInt 0];
     t_cols := [(LStr "p", {| a_dtype := Int64;
                              a_values := [Some (Num 9007199254740993)] |});
                (LStr "q", {| a_dtype := Float64;
                              a_values := [Some (Num (1 # 2))] |})] |}.

(** The cell that [lookup] reads for a row label and a column label: the
    cell of the column at the position of the row label, seen at the
    element type of [values]. *)
Definition cell_at (t : table) (row col : label) : cell :=
  default None (a ← column_of t col;
                i ← head (positions row (t_index t));
                coerce (values_dtype t) a !! i).

(** * Properties *)

(** ** Facts about label indexes *)

Lemma positions_from_nil n l ix : positions_from n l ix = [] <-> l ∉ ix.
Proof.
  revert n. induction ix as [|x ix IH]; intros n; simpl.
  - split; [intros _; apply not_elem_of_nil | done].
  - destruct (decide (x = l)) as [->|Hne].
    + split; [done | intros H; exfalso; apply H; left].
    + rewrite IH, not_elem_of_cons.
      split; [intros H; split; [congruence | done] | by intros [_ ?]].
Qed.

Lemma positions_from_lookup n l ix i :
  i ∈ positions_from n l ix <-> (n <= i)%nat /\ ix !! (i - n)%nat = Some l.
Proof.
  revert n. induction ix as [|x ix IH]; intros n; simpl.
  - rewrite elem_of_nil. split; [done | by intros [_ ?]].
  - destruct (decide (x = l)) as [->|Hne].
    + rewrite elem_of_cons, IH. split.
      * intros [->|[Hle Hl]].
        -- split; [lia|]. by replace (n - n)%nat with 0%nat by lia.
        -- split; [lia|]. replace (i - n)%nat with (S (i - S n)) by lia. done.
      * intros [Hle Hl]. destruct (decide (i = n)) as [->|Hin]; [by left|right].
        split; [lia|]. replace (i - n)%nat with (S (i - S n)) in Hl by lia. done.
    + rewrite IH. split.
      * intros [Hle Hl]. split; [lia|].
        replace (i - n)%nat with (S (i - S n)) by lia. done.
      * intros [Hle Hl]. destruct (decide (i = n)) as [->|Hin].
        -- replace (n - n)%nat with 0%nat in Hl by lia. simpl in Hl. congruence.
        -- split; [lia|]. replace (i - n)%nat with (S (i - S n)) in Hl by lia. done.
Qed.

Lemma positions_lookup l ix i : i ∈ positions l ix <-> ix !! i = Some l.
Proof.
  unfold positions. rewrite positions_from_lookup.
  replace (i - 0)%nat with i by lia.
  split; [by intros [_ ?] | intros; split; [lia | done]].
Qed.

Lemma mem_true l ix : mem l ix = true <-> l ∈ ix.
Proof. unfold mem. apply bool_decide_eq_true. Qed.

Lemma is_unique_NoDup ix : is_unique ix = true <-> NoDup ix.
Proof.
  induction ix as [|x ix IH]; simpl.
  - split; [constructor | done].
  - rewrite andb_true_iff, negb_true_iff, NoDup_cons, IH.
    unfold mem. rewrite bool_decide_eq_false. done.
Qed.

Lemma equals_true ix other : equals ix other = true <-> ix = other.
Proof. unfold equals. apply bool_decide_eq_true. Qed.

Lemma intersection_filter ix other :
  intersection ix other = filter (fun l => l ∈ other) ix.
Proof.
  unfold intersection, get_indexer.
  induction ix as [|l ix IH]; [done|].
  rewrite filter_cons. cbn [map keep_found]. rewrite IH.
  destruct (positions l other) as [|i ps] eqn:Hp.
  - apply (proj1 (positions_from_nil 0 l other)) in Hp. by rewrite decide_False.
  - assert (l ∈ other) as Hin.
    { destruct (decide (l ∈ other)) as [|Hn]; [done|].
      apply (proj2 (positions_from_nil 0 l other)) in Hn. unfold positions in Hp. congruence. }
    rewrite decide_True by done.
    destruct (Z.of_nat i =? -1) eqn:E; [apply Z.eqb_eq in E; lia | done].
Qed.

Lemma filter_Forall_id {A} (P : A -> Prop) `{forall x, Decision (P x)} (l : list A) :
  Forall P l -> filter P l = l.
Proof.
  induction 1 as [|x l Hx _ IH]; [done|].
  rewrite filter_cons, decide_True by done. by rewrite IH.
Qed.

Lemma filter_self (ix : index) : filter (fun l => l ∈ ix) ix = ix.
Proof. apply filter_Forall_id, Forall_forall. done. Qed.

Lemma align_axis_inner_index both left right p :
  align_axis Inner both left right = Ok p ->
  plan_index p = filter (fun l => l ∈ right) left.
Proof.
  unfold align_axis. destruct (equals left right) eqn:E.
  - apply equals_true in E as ->. intros [= <-]. simpl. by rewrite filter_self.
  - destruct (both && _); [done|].
    intros [= <-]. simpl. apply intersection_filter.
Qed.

Lemma align_axis_noop how both left right p :
  align_axis how both left right = Ok p ->
  (plan_lidx p = None -> plan_index p = left) /\
  (plan_ridx p = None -> plan_index p = right).
Proof.
  unfold align_axis. destruct (equals left right) eqn:E.
  - apply equals_true in E as ->. by intros [= <-].
  - destruct (both && _); [done|].
    intros [= <-]. by destruct how.
Qed.

(** An axis is refused only when the other one needs aligning too and a
    label repeats. *)
Lemma align_axis_ok how both left right :
  both && negb (equals left right)
       && (negb (is_unique left) || negb (is_unique right)) = false ->
  is_ok (align_axis how both left right) = true.
Proof.
  unfold align_axis. destruct (equals left right); [done|].
  rewrite andb_true_r. by intros ->.
Qed.

Lemma align_axis_error how both left right e :
  align_axis how both left right = Err e ->
  e = AmbiguousAlignment /\ both = true /\ equals left right = false /\
  negb (is_unique left) || negb (is_unique right) = true.
Proof.
  unfold align_axis. destruct (equals left right); [done|].
  destruct both; [|done]. cbn [andb].
  destruct (_ || _); [|done]. by intros [= <-].
Qed.

Lemma reindex_cols_index t cs ixr : t_index (reindex_cols t cs ixr) = t_index t.
Proof. by destruct ixr. Qed.

Lemma reindex_rows_index t ix p (side : axis_plan -> option (list Z)) :
  (side p = None -> plan_index p = t_index t) ->
  ix = plan_index p ->
  t_index (reindex_rows t ix (side p)) = plan_index p.
Proof. intros H ->. destruct (side p); simpl; [done | symmetry; auto]. Qed.

(** [align] is refused exactly on the ambiguous pairs of section 4.3. *)
Lemma align_error_ambiguous how (A B : table) :
  is_ok (align A B how) = negb (ambiguous A B).
Proof.
  unfold align, ambiguous, align_axis.
  destruct (equals (t_index A) (t_index B)), (equals (columns A) (columns B));
    cbn [negb andb mbind result_bind is_ok]; try done.
  destruct (is_unique (t_index A)), (is_unique (t_index B));
    destruct (is_unique (columns A)), (is_unique (columns B)); done.
Qed.

(** C2 (as section 4.3 has it). Unless the alignment is refused as
    ambiguous (both axes differ and an index repeats a label), the row
    index of both frames aligned under the inner policy is the list of the
    labels of the left row index that occur in the right one, in the order
    of the left index, repeated labels included; on an ambiguous pair the
    alignment fails and there is no result index. *)
Theorem align_inner_left_order (A B : table) :
  (ambiguous A B = true -> align A B Inner = Err AmbiguousAlignment) /\
  (ambiguous A B = false ->
   exists A' B', align A B Inner = Ok (A', B') /\
     t_index A' = filter (fun l => l ∈ t_index B) (t_index A) /\
     t_index B' = filter (fun l => l ∈ t_index B) (t_index A)).
Proof.
  pose proof (align_error_ambiguous Inner A B) as Hok.
  split; intros Hamb; rewrite Hamb in Hok; cbn [negb] in Hok.
  - unfold align in *.
    destruct (align_axis Inner _ (t_index A) (t_index B)) as [rp|e] eqn:Hr.
    + cbn [mbind result_bind] in *.
      destruct (align_axis Inner _ (columns A) (columns B)) as [cp|e] eqn:Hc;
        [done|]. by apply align_axis_error in Hc as [-> _].
    + by apply align_axis_error in Hr as [-> _].
  - unfold align in *.
    destruct (align_axis Inner _ (t_index A) (t_index B)) as [rp|] eqn:Hr; [|done].
    cbn [mbind result_bind] in *.
    destruct (align_axis Inner _ (columns A) (columns B)) as [cp|] eqn:Hc; [|done].
    eexists _, _. split; [done|]. rewrite !reindex_cols_index.
    destruct (align_axis_noop _ _ _ _ _ Hr) as [Hl Hrr].
    rewrite <- (align_axis_inner_index _ _ _ _ Hr).
    split.
    + by apply (reindex_rows_index A _ rp plan_lidx).
    + by apply (reindex_rows_index B _ rp plan_ridx).
Qed.

Lemma align_inner_left_order_witness :
  exists A' B', align frame_repeated_rows frame_other Inner = Ok (A', B') /\
    t_index A' = [LInt 3; LInt 2; LInt 3] /\ t_index B' = [LInt 3; LInt 2; LInt 3].
Proof.
  apply (proj2 (align_inner_left_order frame_repeated_rows frame_other)).
  reflexivity.
Defined.

(** The aligned frames of the witness: a repeated row label keeps its own
    cells on the left. *)
Example align_inner_repeated_rows :
  align frame_repeated_rows frame_other Inner =
    Ok ({| t_index := [LInt 3; LInt 2; LInt 3];
           t_cols := [(LStr "x", {| a_dtype := Int64;
                                    a_values := [Some (Num 30); Some (Num 20);
                                                 Some (Num 31)] |})] |},
        {| t_index := [LInt 3; LInt 2; LInt 3];
           t_cols := [(LStr "x", {| a_dtype := Int64;
                                    a_values := [Some (Num 3); Some (Num 2);
                                                 Some (Num 3)] |})] |}).
Proof. vm_compute. reflexivity. Qed.

(** C2, against the claim's wording: when both axes differ and a row label
    repeats, the aligner of section 4.3 refuses the pair, so that the inner
    alignment has no result index at all. *)
Lemma align_inner_refused :
  wf frame_repeated_rows /\ wf frame_other_y /\
  align frame_repeated_rows frame_other_y Inner = Err AmbiguousAlignment /\
  forall A' B', align frame_repeated_rows frame_other_y Inner <> Ok (A', B').
Proof.
  split; [repeat constructor|]. split; [repeat constructor|].
  split; [vm_compute; reflexivity|]. intros A' B'. vm_compute. intros H. discriminate H.
Qed.

(** ** Selection by a single label *)

Lemma take_list_positions_from {A} (f : A -> label) (pre cols : list A) l :
  take_list (pre ++ cols) (positions_from (length pre) l (f <$> cols)) =
  filter (fun c => f c = l) cols.
Proof.
  revert pre. induction cols as [|c cols IH]; intros pre; [done|].
  rewrite fmap_cons. cbn [positions_from]. rewrite filter_cons.
  specialize (IH (pre ++ [c])).
  rewrite length_app, <- app_assoc in IH. simpl in IH.
  replace (length pre + 1)%nat with (S (length pre)) in IH by lia.
  destruct (decide (f c = l)) as [Heq|Hne].
  - unfold take_list in *. cbn [omap list_omap].
    rewrite list_lookup_middle by done. simpl. by rewrite IH.
  - apply IH.
Qed.

Lemma take_list_positions (cols : list (label * ndarray)) l :
  take_list cols (positions l cols.*1) = filter (fun c => c.1 = l) cols.
Proof. apply (take_list_positions_from fst [] cols l). Qed.

Lemma positions_unique l ix : NoDup ix -> (length (positions l ix) <= 1)%nat.
Proof.
  unfold positions. intros Hnd.
  enough (forall n, length (positions_from n l ix) <= 1)%nat as Hn by apply Hn.
  induction ix as [|x ix IH]; intros n; simpl; [lia|].
  apply NoDup_cons in Hnd as [Hx Hnd].
  destruct (decide (x = l)) as [->|Hne]; [|by apply IH].
  apply (proj2 (positions_from_nil (S n) l ix)) in Hx. rewrite Hx. simpl. lia.
Qed.

Lemma list_find_filter {A} (P : A -> Prop) `{forall x, Decision (P x)} (l : list A) :
  snd <$> list_find P l = head (filter P l).
Proof.
  induction l as [|x l IH]; [done|].
  rewrite filter_cons. simpl. destruct (decide (P x)); [done|].
  rewrite <- IH. by destruct (list_find P l) as [[]|].
Qed.

Lemma get_item_cache_filter (t : table) l c rest :
  filter (fun c => c.1 = l) (t_cols t) = c :: rest ->
  get_item_cache t l =
    Ok {| s_name := l; s_index := t_index t; s_data := c.2 |}.
Proof.
  intros Hf. unfold get_item_cache.
  pose proof (list_find_filter (fun c : label * ndarray => c.1 = l) (t_cols t)) as Hh.
  rewrite Hf in Hh. simpl in Hh.
  destruct (list_find _ (t_cols t)) as [[j c']|]; [|done].
  simpl in Hh. by injection Hh as ->.
Qed.

Lemma length_positions_from {A} (f : A -> label) n (cols : list A) l :
  length (positions_from n l (f <$> cols)) = length (filter (fun c => f c = l) cols).
Proof.
  revert n. induction cols as [|c cols IH]; intros n; [done|].
  rewrite fmap_cons, filter_cons. cbn [positions_from].
  destruct (decide (f c = l)); simpl; by rewrite IH.
Qed.

Lemma filter_label_fst (cols : list (label * ndarray)) l :
  (filter (fun c => c.1 = l) cols).*1 =
  replicate (length (filter (fun c => c.1 = l) cols)) l.
Proof.
  induction cols as [|c cols IH]; [done|].
  rewrite filter_cons. destruct (decide (c.1 = l)) as [Heq|]; [|done].
  rewrite fmap_cons, IH, Heq. done.
Qed.

Lemma take_axis_1 t ps : _take t ps 1 = take_cols t ps.
Proof. reflexivity. Qed.

Lemma take_axis_0 t ps : _take t ps 0 = take_rows t ps.
Proof. reflexivity. Qed.

Lemma getitem_label_one (t : table) l c :
  filter (fun c => c.1 = l) (t_cols t) = [c] ->
  getitem_label 2 t l =
    Ok (SelSeries {| s_name := l; s_index := t_index t; s_data := c.2 |}).
Proof.
  intros Hf. cbn [getitem_label].
  destruct (is_unique (columns t) && mem l (columns t)) eqn:Hu.
  - by rewrite (get_item_cache_filter t l c []).
  - unfold get_loc.
    pose proof (length_positions_from fst 0 (t_cols t) l) as Hlen.
    fold (positions l (t_cols t).*1) in Hlen. rewrite Hf in Hlen.
    pose proof (take_list_positions (t_cols t) l) as Htk. rewrite Hf in Htk.
    unfold columns.
    destruct (positions l (t_cols t).*1) as [|i [|j ps]] eqn:Hp; [done| |done].
    cbn [mbind result_bind]. rewrite take_axis_1.
    unfold take_cols. cbn [t_cols t_index]. rewrite Htk.
    cbn [length Nat.eqb getitem_label].
    assert (c.1 = l) as Hc.
    { assert (c ∈ filter (fun c => c.1 = l) (t_cols t)) as Hin by (rewrite Hf; left).
      by apply list_elem_of_filter in Hin as [? _]. }
    unfold columns. simpl. rewrite Hc.
    unfold mem. rewrite bool_decide_eq_true_2 by left. simpl.
    unfold get_item_cache. simpl. rewrite decide_True by done. done.
Qed.

Lemma getitem_label_many (t : table) l :
  (2 <= length (filter (fun c => c.1 = l) (t_cols t)))%nat ->
  getitem_label 2 t l = Ok (SelFrame (columns_labelled t l)).
Proof.
  intros Hlen. cbn [getitem_label].
  pose proof (length_positions_from fst 0 (t_cols t) l) as Hpl.
  fold (positions l (t_cols t).*1) in Hpl.
  destruct (is_unique (columns t) && mem l (columns t)) eqn:Hu.
  - apply andb_true_iff in Hu as [Hu _]. apply is_unique_NoDup in Hu.
    pose proof (positions_unique l _ Hu) as Hle. unfold columns in Hle. lia.
  - unfold get_loc, columns.
    pose proof (take_list_positions (t_cols t) l) as Htk.
    destruct (positions l (t_cols t).*1) as [|i [|j ps]] eqn:Hp;
      [simpl in Hpl; lia | simpl in Hpl; lia |].
    cbn [mbind result_bind]. rewrite take_axis_1.
    unfold take_cols. cbn [t_cols t_index]. rewrite Htk.
    destruct (filter _ (t_cols t)) as [|c1 [|c2 cs]] eqn:Hf;
      [simpl in Hlen; lia | simpl in Hlen; lia |].
    simpl. unfold columns_labelled. by rewrite Hf.
Qed.

(** C7. A single label that names exactly one column selects that column
    itself, as a Series over the frame's row index; a label that names
    several columns selects the narrower frame of exactly those columns. *)
Theorem getitem_single_key_squeeze
    (where_ : table -> table -> result table) (t : table) (l : label) :
  (forall c, filter (fun c => c.1 = l) (t_cols t) = [c] ->
     getitem where_ t (KScalar l) =
       Ok (SelSeries {| s_name := l; s_index := t_index t; s_data := c.2 |})) /\
  ((2 <= length (filter (fun c => c.1 = l) (t_cols t)))%nat ->
     getitem where_ t (KScalar l) = Ok (SelFrame (columns_labelled t l)) /\
     columns (columns_labelled t l) =
       replicate (length (positions l (columns t))) l).
Proof.
  split.
  - intros c Hf. by apply getitem_label_one.
  - intros Hlen. split; [by apply getitem_label_many|].
    unfold columns_labelled, columns, positions. simpl.
    rewrite (length_positions_from fst). apply filter_label_fst.
Qed.

(** The bound on nested calls is never reached. *)
Lemma getitem_label_total (t : table) l :
  getitem_label 2 t l <> Err RecursionLimit.
Proof.
  destruct (filter (fun c => c.1 = l) (t_cols t)) as [|c [|c' cs]] eqn:Hf.
  - cbn [getitem_label].
    pose proof (length_positions_from fst 0 (t_cols t) l) as Hpl.
    fold (positions l (t_cols t).*1) in Hpl. rewrite Hf in Hpl.
    destruct (positions l (t_cols t).*1) eqn:Hp; [|done].
    assert (l ∉ columns t) as Hn by (by apply (positions_from_nil 0)).
    apply (bool_decide_eq_false_2 (l ∈ columns t)) in Hn. unfold mem.
    rewrite Hn, andb_false_r. unfold get_loc, columns. by rewrite Hp.
  - by rewrite (getitem_label_one t l c).
  - rewrite getitem_label_many; [done|]. rewrite Hf. simpl. lia.
Qed.

Lemma getitem_single_key_squeeze_witness :
  getitem (fun s _ => Ok s) frame_xyx (KScalar (LStr "y")) =
    Ok (SelSeries {| s_name := LStr "y"; s_index := [LInt 0; LInt 1];
                     s_data := {| a_dtype := Int64;
                                  a_values := [Some (Num 3); Some (Num 4)] |} |}) /\
  getitem (fun s _ => Ok s) frame_xyx (KScalar (LStr "x")) =
    Ok (SelFrame (columns_labelled frame_xyx (LStr "x"))).
Proof.
  split.
  - apply (proj1 (getitem_single_key_squeeze (fun s _ => Ok s) frame_xyx (LStr "y"))
             (LStr "y", {| a_dtype := Int64; a_values := [Some (Num 3); Some (Num 4)] |})).
    vm_compute. reflexivity.
  - apply (proj2 (getitem_single_key_squeeze (fun s _ => Ok s) frame_xyx (LStr "x"))).
    vm_compute. lia.
Defined.

(** ** Selection by a frame *)

Lemma getitem_frame_rejects_non_boolean
    (where_ : table -> table -> result table) (self k : table) :
  values_size k <> 0%nat -> values_dtype k <> Bool ->
  _getitem_frame where_ self k = Err InvalidBooleanFrame.
Proof.
  intros Hs Hd. unfold _getitem_frame, is_bool_dtype.
  apply Nat.eqb_neq in Hs. rewrite Hs.
  by rewrite bool_decide_eq_false_2.
Qed.

(** C10. A frame without elements is never rejected as non-boolean,
    whatever its column types: the selection is the result of [where]. *)
Theorem getitem_frame_empty_selector
    (where_ : table -> table -> result table) (self k : table) :
  values_size k = 0%nat ->
  _getitem_frame where_ self k = where_ self k /\
  getitem where_ self (KFrame k) = SelFrame <$> where_ self k.
Proof.
  intros Hs.
  assert (_getitem_frame where_ self k = where_ self k) as H.
  { unfold _getitem_frame. by rewrite Hs. }
  split; [done|]. unfold getitem. by rewrite H.
Qed.

Lemma getitem_frame_empty_selector_witness :
  values_dtype frame_empty_floats = Float64 /\
  _getitem_frame (fun s _ => Ok s) frame_two_rows frame_empty_floats =
    Ok frame_two_rows /\
  getitem (fun s _ => Ok s) frame_two_rows (KFrame frame_empty_floats) =
    Ok (SelFrame frame_two_rows).
Proof.
  split; [reflexivity|].
  apply (getitem_frame_empty_selector (fun s _ => Ok s) frame_two_rows
           frame_empty_floats).
  reflexivity.
Defined.

(** ** Selection by a boolean vector *)

Lemma nonzero_from_lookup n (mask : list bool) i :
  i ∈ nonzero_from n mask <-> (n <= i)%nat /\ mask !! (i - n)%nat = Some true.
Proof.
  revert n. induction mask as [|b mask IH]; intros n; simpl.
  - rewrite elem_of_nil. split; [done | by intros [_ ?]].
  - assert (forall j, (S n <= j)%nat -> (j - n)%nat = S (j - S n)) as Hs by lia.
    destruct b.
    + rewrite elem_of_cons, IH. split.
      * intros [->|[Hle Hl]]; (split; [lia|]).
        -- by replace (n - n)%nat with 0%nat by lia.
        -- by rewrite Hs.
      * intros [Hle Hl]. destruct (decide (i = n)) as [->|Hin]; [by left|right].
        split; [lia|]. by rewrite Hs in Hl by lia.
    + rewrite IH. split.
      * intros [Hle Hl]. split; [lia|]. by rewrite Hs.
      * intros [Hle Hl]. destruct (decide (i = n)) as [->|Hin].
        -- by replace (n - n)%nat with 0%nat in Hl by lia.
        -- split; [lia|]. by rewrite Hs in Hl by lia.
Qed.

(** [nonzero] lists exactly the positions that hold [true]. *)
Lemma nonzero_lookup (mask : list bool) i :
  i ∈ nonzero mask <-> mask !! i = Some true.
Proof.
  unfold nonzero. rewrite nonzero_from_lookup.
  replace (i - 0)%nat with i by lia.
  split; [by intros [_ ?] | intros; split; [lia | done]].
Qed.

Lemma get_indexer_found (ix ax : index) :
  (forall l, l ∈ ax -> l ∈ ix) ->
  existsb (fun i => i <? 0) (get_indexer ix ax) = false.
Proof.
  intros Hall. unfold get_indexer.
  induction ax as [|l ax IH]; [done|]. simpl.
  rewrite IH by (intros; apply Hall; by right).
  destruct (positions l ix) as [|i ps] eqn:Hp.
  - apply (proj1 (positions_from_nil 0 l ix)) in Hp.
    exfalso. apply Hp, Hall. left.
  - rewrite orb_false_r. apply Z.ltb_ge. lia.
Qed.

Lemma get_indexer_missing (ix ax : index) l :
  l ∈ ax -> l ∉ ix ->
  existsb (fun i => i <? 0) (get_indexer ix ax) = true.
Proof.
  intros Hin Hnot. unfold get_indexer.
  apply existsb_exists. exists (-1). split; [|done].
  apply in_map_iff. exists l. split.
  - apply (proj2 (positions_from_nil 0 l ix)) in Hnot.
    unfold positions. by rewrite Hnot.
  - by apply list_elem_of_In.
Qed.

Lemma reindex_mask_indexer (ix ax : index) (mask : list bool) :
  map (fun i => default false (mask !! Z.to_nat i)) (get_indexer ix ax) =
  reindex_mask ix mask ax \/ existsb (fun i => i <? 0) (get_indexer ix ax) = true.
Proof.
  unfold get_indexer, reindex_mask.
  induction ax as [|l ax IH]; [by left|]. simpl.
  destruct (positions l ix) as [|i ps] eqn:Hp; [by right|].
  destruct IH as [IH|IH]; [left | right; by rewrite IH, orb_true_r].
  rewrite IH. simpl. by rewrite Nat2Z.id.
Qed.

Lemma check_bool_indexer_reindexed (ax ix : index) (mask : list bool) :
  ix <> ax -> (forall l, l ∈ ax -> l ∈ ix) ->
  check_bool_indexer ax (BoolSeries ix mask) = Ok (reindex_mask ix mask ax).
Proof.
  intros Hne Hall. unfold check_bool_indexer.
  unfold equals. rewrite !bool_decide_eq_false_2 by congruence.
  rewrite get_indexer_found by done.
  destruct (reindex_mask_indexer ix ax mask) as [->|H]; [done|].
  by rewrite get_indexer_found in H.
Qed.

Lemma check_bool_indexer_unalignable (ax ix : index) (mask : list bool) l :
  ix <> ax -> l ∈ ax -> l ∉ ix ->
  check_bool_indexer ax (BoolSeries ix mask) = Err UnalignableBooleanKey.
Proof.
  intros Hne Hin Hnot. unfold check_bool_indexer.
  unfold equals. rewrite !bool_decide_eq_false_2 by congruence.
  by rewrite (get_indexer_missing ix ax l).
Qed.

(** C8 (as the code has it). A boolean key without a label index of its
    own, or whose index equals the row index, is a direct mask when it is as
    long as the row index, and is refused with a length mismatch when it
    has no index and another length.  A key whose own index differs from
    the row index is read at the row labels first, whatever its length and
    whether or not labels repeat; a row label it does not carry makes the
    selection fail as unalignable. *)
Theorem getitem_bool_array_cases (self : table) (k : bool_key) :
  ((match k with
    | BoolArray _ => True
    | BoolSeries ix _ => ix = t_index self
    end) ->
   key_len k = length (t_index self) ->
   _getitem_bool_array self k = Ok (direct_mask self k)) /\
  (forall mask, k = BoolArray mask ->
     length mask <> length (t_index self) ->
     _getitem_bool_array self k = Err LengthMismatch) /\
  (forall ix mask, k = BoolSeries ix mask -> ix <> t_index self ->
     ((exists l, l ∈ t_index self /\ l ∉ ix) ->
        _getitem_bool_array self k = Err UnalignableBooleanKey) /\
     ((forall l, l ∈ t_index self -> l ∈ ix) ->
        _getitem_bool_array self k =
          Ok (take_rows self (nonzero (reindex_mask ix mask (t_index self)))))).
Proof.
  split; [|split].
  - intros Hown Hlen. unfold _getitem_bool_array, direct_mask.
    rewrite Hlen, Nat.eqb_refl.
    destruct k as [mask|ix mask]; simpl in *.
    + done.
    + subst ix. unfold equals. rewrite bool_decide_eq_true_2 by done. done.
  - intros mask -> Hlen. unfold _getitem_bool_array. simpl.
    apply Nat.eqb_neq in Hlen. by rewrite Hlen.
  - intros ix mask -> Hne.
    assert (_getitem_bool_array self (BoolSeries ix mask) =
              (m ← check_bool_indexer (t_index self) (BoolSeries ix mask);
               Ok (_take self (nonzero m) 0))) as Hrun.
    { unfold _getitem_bool_array. unfold equals at 1.
      by rewrite bool_decide_eq_false_2 by done. }
    split.
    + intros (l & Hin & Hnot). rewrite Hrun.
      by rewrite (check_bool_indexer_unalignable (t_index self) ix mask l Hne Hin Hnot).
    + intros Hall. rewrite Hrun.
      by rewrite check_bool_indexer_reindexed.
Qed.

Lemma getitem_bool_array_cases_witness :
  _getitem_bool_array frame_two_rows (BoolArray [false; true]) =
    Ok (direct_mask frame_two_rows (BoolArray [false; true])) /\
  _getitem_bool_array frame_two_rows (BoolArray [true]) = Err LengthMismatch /\
  _getitem_bool_array frame_two_rows (BoolSeries [LInt 1] [true]) =
    Err UnalignableBooleanKey /\
  _getitem_bool_array frame_rows_001 (BoolSeries [LInt 0; LInt 1] [true; false]) =
    Ok (take_rows frame_rows_001
          (nonzero (reindex_mask [LInt 0; LInt 1] [true; false]
                      [LInt 0; LInt 0; LInt 1]))).
Proof.
  split; [|split; [|split]].
  - apply (proj1 (getitem_bool_array_cases frame_two_rows (BoolArray [false; true])));
      [exact I | reflexivity].
  - apply (proj1 (proj2 (getitem_bool_array_cases frame_two_rows (BoolArray [true])))
             [true]); [reflexivity | vm_compute; lia].
  - apply (proj1 (proj2 (proj2 (getitem_bool_array_cases frame_two_rows
                                  (BoolSeries [LInt 1] [true])))
                    [LInt 1] [true] eq_refl ltac:(vm_compute; congruence))).
    exists (LInt 0). split.
    + vm_compute. left.
    + intros H. by apply list_elem_of_singleton in H.
  - apply (proj2 (proj2 (proj2 (getitem_bool_array_cases frame_rows_001
                                  (BoolSeries [LInt 0; LInt 1] [true; false])))
                    [LInt 0; LInt 1] [true; false] eq_refl
                    ltac:(vm_compute; congruence))).
    intros l Hl. vm_compute in Hl.
    apply elem_of_cons in Hl as [->|Hl]; [left|].
    apply elem_of_cons in Hl as [->|Hl]; [left|].
    apply list_elem_of_singleton in Hl as ->. right; left.
Defined.

(** C8, against the specification's wording: a key as long as the row
    index that carries its own, permuted index does not act as a direct
    mask. *)
Lemma getitem_bool_same_length_not_direct :
  key_len key_swapped = length (t_index frame_two_rows) /\
  _getitem_bool_array frame_two_rows key_swapped =
    Ok (take_rows frame_two_rows [1%nat]) /\
  direct_mask frame_two_rows key_swapped = take_rows frame_two_rows [0%nat] /\
  _getitem_bool_array frame_two_rows key_swapped <>
    Ok (direct_mask frame_two_rows key_swapped).
Proof.
  split; [reflexivity|]. split; [reflexivity|]. split; [reflexivity|].
  vm_compute. intros H. discriminate H.
Qed.

(** ** In-place update *)

(** C6. With [A = {col: [1, null]}] and [B = {col: [9, 9]}] on the same
    rows, [A.update(B, overwrite=False)] takes only the null position from
    [B], and [A.update(B, overwrite=True)] takes every value of [B]. *)
Theorem update_overwrite_flag_example :
  update update_B "left" false None "ignore" update_A =
    (column_frame Float64 [Some (Num 1); Some (Num 9)], Ok tt) /\
  update update_B "left" true None "ignore" update_A =
    (column_frame Float64 [Some (Num 9); Some (Num 9)], Ok tt).
Proof. split; vm_compute; reflexivity. Qed.

(** ** In-place update *)

Lemma column_values_no_overlap_error t col :
  column_values t col <> Err DataOverlap.
Proof.
  unfold column_values.
  destruct (filter (fun c => c.1 = col) (t_cols t)) as [|c [|c' cs]] eqn:Hf.
  - pose proof (getitem_label_total t col) as Htot.
    cbn [getitem_label] in *.
    destruct (is_unique (columns t) && mem col (columns t)).
    + unfold get_item_cache.
      pose proof (list_find_filter (fun c : label * ndarray => c.1 = col) (t_cols t)) as Hh.
      rewrite Hf in Hh.
      by destruct (list_find _ (t_cols t)) as [[]|].
    + pose proof (length_positions_from fst 0 (t_cols t) col) as Hpl.
      fold (positions col (t_cols t).*1) in Hpl. rewrite Hf in Hpl.
      unfold get_loc, columns.
      by destruct (positions col (t_cols t).*1).
  - by rewrite (getitem_label_one t col c).
  - rewrite getitem_label_many; [done|]. rewrite Hf. simpl. lia.
Qed.

Lemma broadcast2_no_overlap_error {A B C} (f : A -> B -> C) xs ys :
  broadcast2 f xs ys <> Err DataOverlap.
Proof.
  unfold broadcast2. destruct (length xs =? length ys)%nat; [done|].
  by destruct xs as [|? [|]], ys as [|? [|]].
Qed.

Lemma np_where_no_overlap_error mask x y : np_where mask x y <> Err DataOverlap.
Proof. unfold np_where. by destruct (_ && _). Qed.

Lemma set_item_no_overlap_error t l v : set_item t l v <> Err DataOverlap.
Proof.
  unfold set_item. destruct (negb _); [done|]. by destruct (mem _ _).
Qed.

(** Reindexing one axis after the other is never refused. *)
Lemma reindex_like_ok other self : is_ok (reindex_like other self) = true.
Proof.
  unfold reindex_like.
  pose proof (align_axis_ok LeftJoin false (t_index self) (t_index other) eq_refl) as Hr.
  pose proof (align_axis_ok LeftJoin false (columns self) (columns other) eq_refl) as Hc.
  destruct (align_axis LeftJoin false (t_index self) _); [|done].
  by destruct (align_axis LeftJoin false (columns self) _).
Qed.

Lemma reindex_like_error other self e :
  reindex_like other self = Err e -> e = AmbiguousAlignment.
Proof.
  intros H. pose proof (reindex_like_ok other self) as Hok. by rewrite H in Hok.
Qed.

Lemma update_column_filtered_no_overlap_error other ow f errors col s :
  (update_column other ow (Some f) errors col s).2 <> Err DataOverlap.
Proof.
  unfold update_column, mbind, inplace_bind, get_self, lift, setitem, put_self,
    mret, inplace_ret, from_user.
  pose proof (column_values_no_overlap_error s col).
  destruct (column_values s col) as [this|]; [|simpl; congruence].
  pose proof (column_values_no_overlap_error other col).
  destruct (column_values other col) as [that|]; [|simpl; congruence].
  destruct (f this) as [keep|]; [|simpl; congruence].
  pose proof (broadcast2_no_overlap_error orb (np_not keep) (isna (a_values that))).
  unfold np_or. destruct (broadcast2 _ _ _) as [mask|]; [|simpl; congruence].
  destruct (all_true mask); [simpl; congruence|].
  pose proof (np_where_no_overlap_error mask this that).
  destruct (np_where mask this that) as [arr|]; [|simpl; congruence].
  unfold mbind, inplace_bind, get_self, lift, put_self. cbn beta iota.
  pose proof (set_item_no_overlap_error s col arr).
  destruct (set_item s col arr); simpl; congruence.
Qed.

Lemma for_each_no_overlap_error {A} (xs : list A) (body : A -> inplace unit) s :
  (forall x s, (body x s).2 <> Err DataOverlap) ->
  (for_each xs body s).2 <> Err DataOverlap.
Proof.
  intros Hbody. revert s. induction xs as [|x xs IH]; intros s; [done|].
  cbn [for_each]. unfold mbind, inplace_bind.
  pose proof (Hbody x s) as Hx.
  destruct (body x s) as [s' [[]|e]]; [apply IH | simpl in *; congruence].
Qed.


Lemma unique_column (t : table) col :
  NoDup (columns t) -> col ∈ columns t ->
  exists a, filter (fun c => c.1 = col) (t_cols t) = [(col, a)].
Proof.
  intros Hnd Hin.
  pose proof (positions_unique col _ Hnd) as Hle.
  pose proof (length_positions_from fst 0 (t_cols t) col) as Hlen.
  fold (positions col (t_cols t).*1) in Hlen. unfold columns in Hle.
  destruct (filter (fun c => c.1 = col) (t_cols t)) as [|[l a] [|c' cs]] eqn:Hf.
  - apply list_elem_of_fmap in Hin as [c [-> Hc]].
    assert (c ∈ filter (fun c' : label * ndarray => c'.1 = c.1) (t_cols t)) as Hc'
      by (by apply list_elem_of_filter).
    rewrite Hf in Hc'. by apply elem_of_nil in Hc'.
  - assert ((l, a) ∈ filter (fun c => c.1 = col) (t_cols t)) as Hc
      by (rewrite Hf; left).
    apply list_elem_of_filter in Hc as [Hl _]. simpl in Hl. subst l. by exists a.
  - rewrite Hlen in Hle. simpl in Hle. lia.
Qed.

Lemma column_of_filter (t : table) col :
  column_of t col = snd <$> head (filter (fun c => c.1 = col) (t_cols t)).
Proof.
  unfold column_of.
  by rewrite (list_find_filter (fun c : label * ndarray => c.1 = col)).
Qed.

Lemma column_values_unique (t : table) col a :
  filter (fun c => c.1 = col) (t_cols t) = [(col, a)] ->
  column_values t col = Ok a.
Proof.
  intros Hf. unfold column_values. by rewrite (getitem_label_one t col (col, a)).
Qed.

Lemma wf_filter (t : table) col a :
  wf t -> filter (fun c => c.1 = col) (t_cols t) = [(col, a)] ->
  length (a_values a) = length (t_index t).
Proof.
  intros Hwf Hf. unfold wf in Hwf. rewrite Forall_forall in Hwf.
  apply (Hwf (col, a)).
  assert ((col, a) ∈ filter (fun c => c.1 = col) (t_cols t)) as Hc
    by (rewrite Hf; left).
  by apply list_elem_of_filter in Hc as [_ ?].
Qed.

Lemma broadcast2_same_length {A B C} (f : A -> B -> C) xs ys :
  length xs = length ys -> broadcast2 f xs ys = Ok (zip_with f xs ys).
Proof. intros H. unfold broadcast2. by rewrite H, Nat.eqb_refl. Qed.

Lemma any_true_overlapping (this that : list cell) :
  any_true (zip_with andb (notna that) (notna this)) = overlapping this that.
Proof.
  unfold any_true, overlapping, notna.
  revert that. induction this as [|x xs IH]; intros [|y ys]; try done.
  simpl. rewrite IH. by rewrite (andb_comm (negb (isna_cell y))).
Qed.


Lemma length_select mask xs ys :
  length mask = length xs -> length mask = length ys ->
  length (select mask xs ys) = length mask.
Proof.
  revert xs ys. induction mask as [|m mask IH]; intros [|x xs] [|y ys]; try done.
  simpl. intros [= Hx] [= Hy]. by rewrite IH.
Qed.

Lemma length_coerce d a : length (coerce d a) = length (a_values a).
Proof. unfold coerce. destruct (is_dtype_equal _ _); [done|]. apply length_map. Qed.

Lemma all_true_nil_length (mask : list bool) :
  length mask = 0%nat -> all_true mask = true.
Proof. by destruct mask. Qed.

Lemma filter_replace (cols : list (label * ndarray)) col col' v :
  col' <> col ->
  filter (fun c => c.1 = col')
    (map (fun c => if decide (c.1 = col) then (col, v) else c) cols) =
  filter (fun c => c.1 = col') cols.
Proof.
  intros Hne. induction cols as [|c cols IH]; [done|].
  rewrite map_cons, !filter_cons, IH.
  destruct (decide (c.1 = col)) as [Hc|Hc]; [|done].
  simpl. rewrite !decide_False; [done | congruence | congruence].
Qed.

Lemma fst_replace (cols : list (label * ndarray)) col v :
  (map (fun c => if decide (c.1 = col) then (col, v) else c) cols).*1 = cols.*1.
Proof.
  induction cols as [|c cols IH]; [done|].
  rewrite map_cons, !fmap_cons, IH. by destruct (decide (c.1 = col)) as [<-|].
Qed.

Lemma filter_replace_same (cols : list (label * ndarray)) l v :
  filter (fun c => c.1 = l)
    (map (fun c => if decide (c.1 = l) then (l, v) else c) cols) =
  (fun _ => (l, v)) <$> filter (fun c => c.1 = l) cols.
Proof.
  induction cols as [|c cols IH]; [done|].
  rewrite map_cons, !filter_cons.
  destruct (decide (c.1 = l)) as [Hc|Hc].
  - rewrite decide_True by done. by rewrite fmap_cons, IH.
  - by rewrite decide_False.
Qed.

Lemma np_where_value mask x y :
  length mask = length (a_values x) -> length mask = length (a_values y) ->
  np_where mask x y =
    Ok {| a_dtype := np_result_type (a_dtype x) (a_dtype y);
          a_values := select mask (coerce (np_result_type (a_dtype x) (a_dtype y)) x)
                                  (coerce (np_result_type (a_dtype x) (a_dtype y)) y) |}.
Proof.
  intros Hx Hy. unfold np_where. by rewrite !bool_decide_eq_true_2 by done.
Qed.

(** The end of the loop body of [update]: the column is left alone when
    the mask holds everywhere, and is replaced by the masked merge
    otherwise; no other column is touched. *)
Lemma masked_store_spec (s : table) col (a b : ndarray) (mask : list bool) :
  wf s -> col ∈ columns s ->
  filter (fun c => c.1 = col) (t_cols s) = [(col, a)] ->
  length (a_values b) = length (t_index s) ->
  length mask = length (t_index s) ->
  exists s', masked_store mask col a b s = (s', Ok tt) /\
    t_index s' = t_index s /\ columns s' = columns s /\ wf s' /\
    filter (fun c => c.1 = col) (t_cols s') = [(col, masked_column mask a b)] /\
    forall col', col' <> col ->
      filter (fun c => c.1 = col') (t_cols s') =
      filter (fun c => c.1 = col') (t_cols s).
Proof.
  intros Hwf Hin Hfa Hlb Hlm.
  pose proof (wf_filter s col a Hwf Hfa) as Hla.
  unfold masked_store, masked_column.
  destruct (all_true mask) eqn:Hall.
  - exists s. done.
  - unfold setitem, mbind, inplace_bind, get_self, lift, put_self. cbn beta iota.
    rewrite np_where_value by congruence. cbn beta iota.
    set (arr := {| a_dtype := _; a_values := _ |}).
    assert (length (a_values arr) = length (t_index s)) as Hlarr.
    { unfold arr. cbn [a_values]. rewrite length_select; [done|..];
        rewrite length_coerce; congruence. }
    assert (length (t_index s) <> 0%nat) as Hnz.
    { intros Hz. rewrite all_true_nil_length in Hall by congruence. done. }
    unfold set_item, _ensure_valid_index.
    apply Nat.eqb_neq in Hnz. rewrite Hnz, Hlarr, Nat.eqb_refl. cbn [negb].
    unfold mem. rewrite bool_decide_eq_true_2 by done.
    eexists. split; [done|]. cbn [t_index t_cols].
    split; [done|]. split; [|split; [|split]].
    + unfold columns. cbn [t_cols]. apply fst_replace.
    + unfold wf in *. cbn [t_index t_cols]. rewrite Forall_map.
      eapply Forall_impl; [exact Hwf|]. intros c Hc. cbn beta.
      by destruct (decide (c.1 = col)).
    + by rewrite filter_replace_same, Hfa.
    + intros col' Hne. by apply filter_replace.
Qed.

(** Without a filter function the loop body is the masked store, unless
    the overlap check stops it. *)
Lemma update_column_unfiltered (o s : table) (ow : bool) (errors : string) col a b :
  filter (fun c => c.1 = col) (t_cols s) = [(col, a)] ->
  filter (fun c => c.1 = col) (t_cols o) = [(col, b)] ->
  length (a_values a) = length (a_values b) ->
  update_column o ow None errors col s =
    if String.eqb errors "raise" && overlapping (a_values a) (a_values b)
    then (s, Err DataOverlap)
    else masked_store (if ow then isna (a_values b) else notna (a_values a))
           col a b s.
Proof.
  intros Hfa Hfb Hlen.
  unfold update_column, mbind, inplace_bind, get_self, lift, mret, inplace_ret.
  cbn beta iota.
  rewrite (column_values_unique s col a Hfa), (column_values_unique o col b Hfb).
  cbn beta iota. unfold masked_store, mret, inplace_ret.
  destruct (String.eqb errors "raise"); cbn [andb].
  - unfold np_and. rewrite broadcast2_same_length
      by (unfold notna; rewrite !length_map; congruence).
    cbn beta iota. rewrite any_true_overlapping.
    destruct (overlapping (a_values a) (a_values b)); [done|].
    cbn beta iota. by destruct ow.
  - by destruct ow.
Qed.


(** The loop of [update] when every step is a masked store: every column
    of the calling frame is replaced by its masked merge with the column
    of the other frame. *)
Lemma for_each_masked (o : table) (body : label -> inplace unit)
    (mask_of : ndarray -> ndarray -> list bool)
    (good : ndarray -> ndarray -> Prop) (cols : list label) :
  (forall s col a b,
     filter (fun c => c.1 = col) (t_cols s) = [(col, a)] ->
     filter (fun c => c.1 = col) (t_cols o) = [(col, b)] ->
     length (a_values a) = length (a_values b) -> good a b ->
     length (mask_of a b) = length (a_values a) /\
     body col s = masked_store (mask_of a b) col a b s) ->
  forall s, NoDup cols -> NoDup (columns s) -> wf s -> wf o ->
    t_index o = t_index s -> columns o = columns s ->
    (forall col, col ∈ cols -> col ∈ columns s) ->
    (forall col a b, col ∈ cols ->
       column_of s col = Some a -> column_of o col = Some b -> good a b) ->
    exists s', for_each cols body s = (s', Ok tt) /\
      t_index s' = t_index s /\ columns s' = columns s /\ wf s' /\
      (forall col a b, col ∈ cols ->
         column_of s col = Some a -> column_of o col = Some b ->
         column_of s' col = Some (masked_column (mask_of a b) a b)) /\
      (forall col, col ∉ cols ->
         filter (fun c => c.1 = col) (t_cols s') =
         filter (fun c => c.1 = col) (t_cols s)).
Proof.
  intros Hbody.
  induction cols as [|col cols IH]; intros s Hnd Hs Hwf Hwfo Hix Hcols Hsub Hgood.
  - exists s. repeat split; try done. intros col a b H. by apply elem_of_nil in H.
  - apply NoDup_cons in Hnd as [Hcol Hnd].
    assert (col ∈ columns s) as Hin by (apply Hsub; left).
    destruct (unique_column s col Hs Hin) as [a Hfa].
    destruct (unique_column o col) as [b Hfb]; [by rewrite Hcols..|].
    pose proof (wf_filter s col a Hwf Hfa) as Hla.
    pose proof (wf_filter o col b Hwfo Hfb) as Hlb. rewrite Hix in Hlb.
    assert (good a b) as Hg.
    { apply (Hgood col); [left | by rewrite column_of_filter, Hfa
                               | by rewrite column_of_filter, Hfb]. }
    destruct (Hbody s col a b Hfa Hfb ltac:(congruence) Hg) as [Hlm Hrun].
    destruct (masked_store_spec s col a b (mask_of a b) Hwf Hin Hfa Hlb
                ltac:(congruence))
      as (s1 & Hstep & Hi1 & Hc1 & Hwf1 & Hnew & Hsame).
    destruct (IH s1) as (s' & Hrest & Hi' & Hc' & Hwf' & Hdone & Hkeep);
      try done; try congruence.
    { intros c Hc. rewrite Hc1. apply Hsub. by right. }
    { intros c a' b' Hc Ha' Hb'. apply (Hgood c); [by right| |done].
      rewrite column_of_filter in *. rewrite <- (Hsame c); [done|].
      intros ->. done. }
    exists s'. cbn [for_each]. unfold mbind at 1, inplace_bind at 1.
    rewrite Hrun, Hstep, Hrest. split; [done|]. split; [congruence|].
    split; [congruence|]. split; [done|]. split.
    + intros c a' b' Hc Ha Hb. destruct (decide (c = col)) as [->|Hne].
      * rewrite column_of_filter, (Hkeep col Hcol), Hnew. cbn.
        rewrite column_of_filter, Hfa in Ha. rewrite column_of_filter, Hfb in Hb.
        cbn in Ha, Hb. by injection Ha as <-; injection Hb as <-.
      * apply elem_of_cons in Hc as [->|Hc]; [done|].
        apply Hdone; [done| |done].
        by rewrite column_of_filter, (Hsame c Hne), <- column_of_filter.
    + intros c Hc. apply not_elem_of_cons in Hc as [Hne Hc].
      rewrite (Hkeep c Hc). by apply Hsame.
Qed.




Lemma align_axis_left both (left right : index) p :
  align_axis LeftJoin both left right = Ok p ->
  plan_index p = left /\
  (plan_ridx p = None -> right = left) /\
  (forall ps, plan_ridx p = Some ps -> length ps = length left).
Proof.
  unfold align_axis. destruct (equals left right) eqn:E.
  - apply equals_true in E as ->. by intros [= <-].
  - destruct (both && _); [done|]. intros [= <-]. simpl.
    split; [done|]. split; [done|]. intros ps [= <-].
    unfold get_indexer. apply length_map.
Qed.

Lemma reindex_rows_wf (t : table) (new_index : index) ixr :
  wf t ->
  (ixr = None -> t_index t = new_index) ->
  (forall ps, ixr = Some ps -> length ps = length new_index) ->
  wf (reindex_rows t new_index ixr) /\
  t_index (reindex_rows t new_index ixr) = new_index /\
  columns (reindex_rows t new_index ixr) = columns t.
Proof.
  intros Hwf Hnone Hsome. destruct ixr as [ps|]; simpl.
  - split; [|split; [done|]].
    + unfold wf. simpl. rewrite Forall_map. apply Forall_forall.
      intros c _. simpl. rewrite length_map. by apply Hsome.
    + unfold columns. simpl. rewrite <- list_fmap_compose.
      by apply list_fmap_ext.
  - by rewrite Hnone.
Qed.

Lemma fst_zip_with_label {B C} (f : label -> B -> C) (g : C -> label)
    (ls : list label) (ps : list B) :
  (forall l p, g (f l p) = l) -> length ps = length ls ->
  g <$> zip_with f ls ps = ls.
Proof.
  intros Hg. revert ps. induction ls as [|l ls IH]; intros [|p ps] Hlen; try done.
  simpl. rewrite Hg. f_equal. apply IH. by injection Hlen.
Qed.

Lemma reindex_cols_wf (t : table) (new_columns : index) ixr :
  wf t ->
  (ixr = None -> columns t = new_columns) ->
  (forall ps, ixr = Some ps -> length ps = length new_columns) ->
  wf (reindex_cols t new_columns ixr) /\
  t_index (reindex_cols t new_columns ixr) = t_index t /\
  columns (reindex_cols t new_columns ixr) = new_columns.
Proof.
  intros Hwf Hnone Hsome. destruct ixr as [ps|]; simpl.
  - split; [|split; [done|]].
    + unfold wf. simpl. apply Forall_forall. intros c Hc.
      apply list_elem_of_lookup in Hc as [i Hc].
      apply lookup_zip_with_Some in Hc as (l & p & -> & _ & _). simpl.
      destruct (p <? 0); [apply length_replicate|].
      destruct (t_cols t !! Z.to_nat p) as [c|] eqn:Hl; simpl;
        [|apply length_replicate].
      unfold wf in Hwf. rewrite Forall_forall in Hwf. apply (Hwf c).
      apply list_elem_of_lookup. eauto.
    + unfold columns. simpl. apply fst_zip_with_label; [done|by apply Hsome].
  - by rewrite Hnone.
Qed.

(** After [reindex_like], the other frame has the axes of the calling one. *)
Lemma reindex_like_axes (other self other' : table) :
  wf other -> reindex_like other self = Ok other' ->
  wf other' /\ t_index other' = t_index self /\ columns other' = columns self.
Proof.
  intros Hwf. unfold reindex_like.
  destruct (align_axis LeftJoin false (t_index self) (t_index other)) as [rp|] eqn:Hr;
    [|done].
  destruct (align_axis LeftJoin false (columns self) (columns other)) as [cp|] eqn:Hc;
    [|done].
  intros [= <-].
  destruct (align_axis_left _ _ _ _ Hr) as (Hri & Hrn & Hrs).
  destruct (align_axis_left _ _ _ _ Hc) as (Hci & Hcn & Hcs).
  destruct (reindex_rows_wf other (plan_index rp) (plan_ridx rp) Hwf)
    as (Hwf1 & Hi1 & Hc1).
  { intros H. rewrite Hri. by apply Hrn. }
  { intros ps H. rewrite Hri. by apply Hrs. }
  destruct (reindex_cols_wf (reindex_rows other (plan_index rp) (plan_ridx rp))
              (plan_index cp) (plan_ridx cp) Hwf1) as (Hwf2 & Hi2 & Hc2).
  { intros H. rewrite Hc1, Hci. by apply Hcn. }
  { intros ps H. rewrite Hci. by apply Hcs. }
  split; [done|]. split; congruence.
Qed.


Lemma any_overlap_false (s o : table) (cols : list label) col a b :
  any_overlap s o cols = false -> col ∈ cols ->
  column_of s col = Some a -> column_of o col = Some b ->
  overlapping (a_values a) (a_values b) = false.
Proof.
  intros Hno Hin Ha Hb. unfold any_overlap in Hno.
  destruct (overlapping (a_values a) (a_values b)) eqn:Hov; [|done].
  exfalso. apply not_true_iff_false in Hno. apply Hno, existsb_exists.
  exists col. split; [by apply list_elem_of_In|]. by rewrite Ha, Hb.
Qed.

Lemma update_run (A B B' : table) (ow : bool) (ff : option filter_function)
    (errors : string) :
  errors = "ignore" \/ errors = "raise" -> reindex_like B A = Ok B' ->
  update B "left" ow ff errors A =
    for_each (columns A) (update_column B' ow ff errors) A.
Proof.
  intros Herr Hre. unfold update. cbn [String.eqb Ascii.eqb Bool.eqb negb].
  rewrite bool_decide_eq_true_2
    by (destruct Herr as [-> | ->]; [left | right; left]).
  cbn [negb]. unfold mbind, inplace_bind, get_self, lift. by rewrite Hre.
Qed.

(** The outcome of [update] without filter function on well-formed frames,
    when the overlap check is not requested or finds nothing. *)
Lemma update_unfiltered_columns (A B B' : table) (ow : bool) (errors : string) :
  wf A -> wf B -> NoDup (columns A) -> reindex_like B A = Ok B' ->
  errors = "ignore" \/
    (errors = "raise" /\ any_overlap A B' (columns A) = false) ->
  exists A', update B "left" ow None errors A = (A', Ok tt) /\
    t_index A' = t_index A /\ columns A' = columns A /\ wf A' /\
    forall col a b, col ∈ columns A ->
      column_of A col = Some a -> column_of B' col = Some b ->
      column_of A' col = Some (merged_column ow a b).
Proof.
  intros HwfA HwfB Hnd Hre Herr.
  destruct (reindex_like_axes B A B' HwfB Hre) as (HwfB' & Hix & Hcols).
  destruct (for_each_masked B' (update_column B' ow None errors)
              (fun a b => if ow then isna (a_values b) else notna (a_values a))
              (fun a b => String.eqb errors "raise"
                          && overlapping (a_values a) (a_values b) = false)
              (columns A)) with (s := A)
    as (A' & Hrun & Hi & Hc & Hwf & Hdone & _); try done.
  - intros s col a b Hfa Hfb Hlen Hgood. split.
    + unfold isna, notna. destruct ow; rewrite length_map; congruence.
    + by rewrite (update_column_unfiltered B' s ow errors col a b Hfa Hfb Hlen), Hgood.
  - intros col a b Hin Ha Hb. destruct Herr as [-> | [-> Hno]]; [done|].
    cbn [String.eqb Ascii.eqb Bool.eqb andb].
    by apply (any_overlap_false A B' (columns A) col).
  - exists A'. split; [|done]. rewrite (update_run A B B'); [done| |done].
    destruct Herr as [-> | [-> _]]; [by left | by right].
Qed.


(** *** Without a filter function: the overlap check *)




(** *** With a filter function *)



Example update_filter_conflict_is_accepted :
  update (column_frame Int64 [Some (Num 2)]) "left" true (Some replace_all) "raise"
         (column_frame Int64 [Some (Num 1)]) =
    (column_frame Int64 [Some (Num 2)], Ok tt) /\
  update (column_frame Int64 [Some (Num 2)]) "left" true None "raise"
         (column_frame Int64 [Some (Num 1)]) =
    (column_frame Int64 [Some (Num 1)], Err DataOverlap).
Proof. split; vm_compute; reflexivity. Qed.

(** ** Combination *)

Lemma combine_loop_lookup self this other func fv ow cols :
  forall d d', combine_loop self this other func fv ow cols d = Ok d' ->
    (forall col, col ∈ cols ->
       exists arr, combine_column self this other func fv ow col = Ok arr /\
                   d' !! col = Some arr) /\
    (forall col, col ∉ cols -> d' !! col = d !! col).
Proof.
  induction cols as [|c cols IH]; intros d d'; cbn [combine_loop].
  - intros [= <-]. split; [intros col H; by apply elem_of_nil in H | done].
  - unfold mbind, result_bind.
    destruct (combine_column self this other func fv ow c) as [arr|] eqn:Hc; [|done].
    intros Hloop. destruct (IH _ _ Hloop) as [Hin Hout]. split.
    + intros col Hcol. destruct (decide (col ∈ cols)) as [Hr|Hr]; [by apply Hin|].
      apply elem_of_cons in Hcol as [->|Hcol]; [|done].
      exists arr. split; [done|]. rewrite (Hout c Hr). apply lookup_insert_eq.
    + intros col Hcol. apply not_elem_of_cons in Hcol as [Hne Hcol].
      rewrite (Hout col Hcol). by apply lookup_insert_ne.
Qed.

Lemma combine_loop_ok self this other func fv ow cols :
  (forall col, col ∈ cols ->
     is_ok (combine_column self this other func fv ow col) = true) ->
  forall d, is_ok (combine_loop self this other func fv ow cols d) = true.
Proof.
  induction cols as [|c cols IH]; intros Hall d; [done|].
  cbn [combine_loop]. unfold mbind, result_bind.
  pose proof (Hall c ltac:(left)) as Hc.
  destruct (combine_column self this other func fv ow c); [|done].
  apply IH. intros col Hcol. apply Hall. by right.
Qed.

Lemma column_of_map (ix : index) (cols : list label) (g : label -> ndarray) col :
  col ∈ cols ->
  column_of {| t_index := ix; t_cols := map (fun c => (c, g c)) cols |} col =
    Some (g col).
Proof.
  intros Hin. unfold column_of. simpl.
  induction cols as [|c cols IH]; [by apply elem_of_nil in Hin|].
  simpl. destruct (decide (c = col)) as [->|Hne]; [done|].
  apply elem_of_cons in Hin as [->|Hin]; [done|].
  specialize (IH Hin).
  destruct (list_find _ (map _ cols)) as [[i x]|]; simpl in *; done.
Qed.

Lemma from_dict_ok d (new_index new_columns : index) R :
  from_dict d new_index new_columns = Ok R ->
  R = {| t_index := new_index;
         t_cols := map (fun col => (col, default (all_na (length new_index))
                                           (d !! col))) new_columns |}.
Proof. unfold from_dict. destruct (forallb _ _); [by intros [= <-] | done]. Qed.

(** What [combine] returns once it enters its loop: the joined axes, and
    under every column label the array the loop body computed for it. *)
Lemma combine_result_columns self other0 func fv ow this other R :
  align self other0 Outer = Ok (this, other) ->
  empty other && (length (t_index this) =? length (t_index self))%nat = false ->
  empty self && (length (t_index other) =? length (t_index other0))%nat = false ->
  combine self other0 func fv ow = Ok R ->
  t_index R = t_index this /\
  columns R = union (columns this) (columns other) /\
  forall col, col ∈ columns R ->
    exists arr, combine_column self this other func fv ow col = Ok arr /\
                column_of R col = Some arr.
Proof.
  intros Hal He1 He2. unfold combine. rewrite Hal.
  cbn [mbind result_bind fst snd]. rewrite He1, He2.
  destruct (combine_loop _ _ _ _ _ _ _ _) as [d|] eqn:Hloop; [|done].
  intros HR%from_dict_ok. subst R. simpl. split; [done|].
  assert (columns {| t_index := t_index this;
                     t_cols := map (fun col => (col, default (all_na (length (t_index this)))
                                                       (d !! col)))
                                   (union (columns this) (columns other)) |}
          = union (columns this) (columns other)) as Hcols.
  { unfold columns at 1. simpl. rewrite <- list_fmap_compose.
    rewrite (list_fmap_ext _ id); [apply list_fmap_id | done]. }
  split; [done|]. rewrite Hcols. intros col Hcol.
  destruct (combine_loop_lookup _ _ _ _ _ _ _ _ _ Hloop) as [Hin _].
  destruct (Hin col Hcol) as (arr & Harr & Hd).
  exists arr. split; [done|].
  rewrite (column_of_map _ _ (fun col => default (all_na (length (t_index this)))
                                          (d !! col))) by done.
  by rewrite Hd.
Qed.

Lemma align_self (A : table) (how : policy) : align A A how = Ok (A, A).
Proof.
  unfold align, align_axis, equals.
  rewrite !bool_decide_eq_true_2 by done. reflexivity.
Qed.

Lemma union_self (ix : index) : union ix ix = ix.
Proof.
  unfold union, equals. rewrite bool_decide_eq_true_2 by done.
  by rewrite orb_true_r.
Qed.

Lemma select_same mask (xs : list cell) :
  length mask = length xs -> select mask xs xs = xs.
Proof.
  revert xs. induction mask as [|m mask IH]; intros [|x xs]; try done.
  simpl. intros [= H]. rewrite IH by done. by destruct m.
Qed.

Lemma maybe_downcast_same_dtype (a : ndarray) :
  maybe_downcast_to_dtype a (a_dtype a) = a.
Proof. unfold maybe_downcast_to_dtype. by rewrite Nat.ltb_irrefl. Qed.

Lemma np_where_self (a : ndarray) : np_where (isna (a_values a)) a a = Ok a.
Proof.
  unfold np_where, isna. rewrite length_map.
  rewrite !bool_decide_eq_true_2 by done. simpl.
  unfold np_result_type. rewrite Nat.ltb_irrefl.
  unfold coerce, is_dtype_equal. rewrite bool_decide_eq_true_2 by done.
  rewrite select_same by apply length_map. by destruct a.
Qed.

Lemma find_common_type_same d : find_common_type [d; d] = d.
Proof.
  unfold find_common_type. simpl. unfold is_dtype_equal.
  by rewrite bool_decide_eq_true_2.
Qed.

(** The loop body of [combine_first] of a frame with itself gives every
    column back. *)
Lemma combine_column_self (A : table) col a :
  filter (fun c => c.1 = col) (t_cols A) = [(col, a)] ->
  combine_column A A A (combiner A) None false col = Ok a.
Proof.
  intros Hf. unfold combine_column.
  rewrite (getitem_label_one A col (col, a) Hf).
  cbn [mbind result_bind as_series]. unfold s_dtype, s_values. cbn [s_data snd].
  destruct (negb false && all_true (isna (a_values a))); [reflexivity|].
  assert (col ∈ columns A) as Hin.
  { assert ((col, a) ∈ filter (fun c => c.1 = col) (t_cols A)) as Hc
      by (rewrite Hf; left).
    apply list_elem_of_filter in Hc as [_ Hc].
    apply list_elem_of_fmap. by exists (col, a). }
  unfold mem. rewrite (bool_decide_eq_true_2 _ Hin). cbn [negb].
  rewrite find_common_type_same. unfold is_dtype_equal.
  rewrite bool_decide_eq_true_2 by done.
  cbn [negb mbind result_bind fst snd]. unfold combiner, s_values.
  cbn [s_data s_name]. unfold mem. rewrite (bool_decide_eq_true_2 _ Hin). cbn [negb].
  rewrite np_where_self. cbn [mbind result_bind].
  by rewrite maybe_downcast_same_dtype.
Qed.

Lemma rebuild_columns (A : table) (d : gmap label ndarray) :
  (forall c, c ∈ t_cols A -> d !! c.1 = Some c.2) ->
  map (fun col => (col, default (all_na (length (t_index A))) (d !! col)))
      (columns A) = t_cols A.
Proof.
  intros Hd. unfold columns.
  change (map ?f ?l) with (f <$> l). rewrite <- list_fmap_compose.
  rewrite <- (list_fmap_id (t_cols A)) at 2.
  apply Forall_fmap_ext_1, Forall_forall. intros [l a] Hc. simpl.
  pose proof (Hd (l, a) Hc) as H. simpl in H. by rewrite H.
Qed.

(** C3 (as the code has it). For a frame whose column labels are distinct,
    [A.combine_first(A)] is [A]: same row index, same columns in the same
    order, same cells and column types. *)
Theorem combine_first_self (A : table) :
  wf A -> NoDup (columns A) -> combine_first A A = Ok A.
Proof.
  intros Hwf Hnd. unfold combine_first, combine.
  rewrite align_self. cbn [mbind result_bind fst snd].
  rewrite Nat.eqb_refl, andb_true_r.
  destruct (empty A) eqn:Hempty; [done|]. cbn [andb].
  rewrite union_self.
  assert (forall c, c ∈ t_cols A ->
            combine_column A A A (combiner A) None false c.1 = Ok c.2) as Hcol.
  { intros [l a] Hc. simpl.
    destruct (unique_column A l Hnd) as [a' Hf].
    { apply list_elem_of_fmap. by exists (l, a). }
    assert ((l, a) ∈ filter (fun c => c.1 = l) (t_cols A)) as Hin
      by (by apply list_elem_of_filter).
    rewrite Hf in Hin. apply list_elem_of_singleton in Hin as [= <-].
    by apply combine_column_self. }
  pose proof (combine_loop_ok A A A (combiner A) None false (columns A)) as Hok.
  destruct (combine_loop A A A (combiner A) None false (columns A) ∅)
    as [d|] eqn:Hloop.
  2:{ exfalso. specialize (Hok ltac:(intros col [c [-> Hc]]%list_elem_of_fmap;
                                      by rewrite (Hcol c Hc)) ∅).
      by rewrite Hloop in Hok. }
  clear Hok. destruct (combine_loop_lookup _ _ _ _ _ _ _ _ _ Hloop) as [Hin _].
  assert (forall c, c ∈ t_cols A -> d !! c.1 = Some c.2) as Hd.
  { intros c Hc. destruct (Hin c.1) as (arr & Harr & Hl).
    - apply list_elem_of_fmap. by exists c.
    - rewrite (Hcol c Hc) in Harr. by injection Harr as <-. }
  cbn [mbind result_bind]. cbv beta iota. unfold from_dict.
  destruct (forallb _ (columns A)) eqn:Hfa.
  - rewrite (rebuild_columns A d Hd). by destruct A.
  - exfalso. apply not_true_iff_false in Hfa. apply Hfa, forallb_forall.
    intros col Hc. apply list_elem_of_In in Hc.
    apply list_elem_of_fmap in Hc as [c [-> Hc]]. rewrite (Hd c Hc).
    apply Nat.eqb_eq. unfold wf in Hwf. rewrite Forall_forall in Hwf.
    by apply Hwf.
Qed.

Lemma combine_first_self_witness : combine_first frame_ba frame_ba = Ok frame_ba.
Proof.
  apply (combine_first_self frame_ba).
  - repeat constructor.
  - apply NoDup_cons. split; [|apply NoDup_singleton].
    intros H. apply list_elem_of_singleton in H. discriminate H.
Defined.

(** C3, against the specification's wording: on a well-formed frame with a
    repeated column label [combine_first] raises instead of returning the
    frame. *)
Lemma combine_first_self_duplicate_columns :
  wf frame_dup_columns /\
  combine_first frame_dup_columns frame_dup_columns = Err AttributeError /\
  combine_first frame_dup_columns frame_dup_columns <> Ok frame_dup_columns.
Proof.
  split; [repeat constructor|]. split; [vm_compute; reflexivity|].
  vm_compute. intros H. discriminate H.
Qed.

(** *** Promotion and downcast in the loop of [combine] *)

Lemma find_common_type_pair (a b : dtype) :
  find_common_type [a; b] =
    if decide (a = b) then a
    else if is_numeric a && is_numeric b
         then (if (width a <? width b)%nat then b else a)
         else Object.
Proof. by destruct a, b. Qed.

Lemma find_common_type_wider (a b : dtype) :
  (width a <= width (find_common_type [a; b]))%nat /\
  (width b <= width (find_common_type [a; b]))%nat.
Proof. destruct a, b; vm_compute; lia. Qed.

Lemma astype_dtype d a a' : astype d a = Some a' -> a_dtype a' = d.
Proof.
  unfold astype. destruct (mapM _ _); simpl; [|done]. by intros [= <-].
Qed.

Lemma promote_dtype d a a' : promote d a = Some a' -> a_dtype a' = d.
Proof.
  unfold promote, is_dtype_equal. case_bool_decide as Hd.
  - by intros [= <-].
  - apply astype_dtype.
Qed.

Lemma with_data_id (s : series) : with_data s (s_data s) = s.
Proof. by destruct s. Qed.

Lemma elem_of_insert_sorted (l x : label) (sorted : list label) :
  l ∈ insert_sorted x sorted <-> l = x \/ l ∈ sorted.
Proof.
  induction sorted as [|y sorted IH]; cbn [insert_sorted].
  - rewrite list_elem_of_singleton, elem_of_nil. tauto.
  - destruct (decide (x = y)) as [->|Hne].
    + rewrite elem_of_cons. tauto.
    + destruct (label_leb x y).
      * by rewrite elem_of_cons.
      * rewrite !elem_of_cons, IH. tauto.
Qed.

Lemma elem_of_union_sorted (l : label) (ix other : index) :
  l ∈ union_sorted ix other <-> l ∈ ix \/ l ∈ other.
Proof.
  unfold union_sorted. rewrite <- elem_of_app.
  induction (ix ++ other) as [|x xs IH]; cbn [foldr]; [done|].
  rewrite elem_of_insert_sorted, IH, elem_of_cons. tauto.
Qed.

Lemma reindex_rows_columns (t : table) (new_index : index) ixr :
  columns (reindex_rows t new_index ixr) = columns t.
Proof.
  destruct ixr as [ps|]; [|done]. unfold columns. cbn [reindex_rows t_cols].
  change (map ?f ?l) with (f <$> l). rewrite <- list_fmap_compose.
  by apply list_fmap_ext.
Qed.

Lemma reindex_cols_columns (t : table) (new_columns : index) ixr :
  (ixr = None -> columns t = new_columns) ->
  (forall ps, ixr = Some ps -> length ps = length new_columns) ->
  columns (reindex_cols t new_columns ixr) = new_columns.
Proof.
  intros Hnone Hsome. destruct ixr as [ps|]; [|by apply Hnone].
  unfold columns. cbn [reindex_cols t_cols].
  apply fst_zip_with_label; [done | by apply Hsome].
Qed.

Lemma length_found_positions n (ls : list label) (ixr : list Z) :
  length (found_positions n ls ixr) = length (keep_found ls ixr).
Proof.
  revert n ixr. induction ls as [|l ls IH]; intros n [|p ixr]; try done.
  cbn [found_positions keep_found]. destruct (p =? -1); cbn; by rewrite IH.
Qed.

Lemma align_axis_plan how both (left right : index) p :
  align_axis how both left right = Ok p ->
  (plan_lidx p = None -> left = plan_index p) /\
  (plan_ridx p = None -> right = plan_index p) /\
  (forall ps, plan_lidx p = Some ps -> length ps = length (plan_index p)) /\
  (forall ps, plan_ridx p = Some ps -> length ps = length (plan_index p)) /\
  (how = Outer -> forall l, l ∈ left \/ l ∈ right -> l ∈ plan_index p).
Proof.
  unfold align_axis. destruct (equals left right) eqn:E.
  - apply equals_true in E as ->. intros [= <-]. cbn.
    repeat split; try done. intros _ l [H|H]; done.
  - destruct (both && _); [done|]. intros [= <-]. cbn [plan_index plan_lidx plan_ridx].
    split; [by destruct how|]. split; [by destruct how|].
    split; [|split].
    + intros ps Hps. destruct how; cbn in Hps; try done; injection Hps as <-.
      * unfold get_indexer. apply length_map.
      * cbn [join_index]. unfold intersection. apply length_found_positions.
      * unfold get_indexer. apply length_map.
    + intros ps Hps. destruct how; cbn in Hps; try done; injection Hps as <-;
        unfold get_indexer; apply length_map.
    + intros -> l Hl. by apply elem_of_union_sorted.
Qed.

(** After the outer alignment the two frames have the same columns, among
    them every column of either input. *)
Lemma align_outer_columns (self other0 this other : table) :
  align self other0 Outer = Ok (this, other) ->
  columns other = columns this /\
  forall col, col ∈ columns self \/ col ∈ columns other0 -> col ∈ columns this.
Proof.
  unfold align.
  destruct (align_axis Outer _ (t_index self) (t_index other0)) as [rp|]; [|done].
  destruct (align_axis Outer _ (columns self) (columns other0)) as [cp|] eqn:Hc;
    [|done].
  cbn [mbind result_bind]. intros [= <- <-].
  destruct (align_axis_plan _ _ _ _ _ Hc) as (Hl & Hr & Hll & Hlr & Hin).
  rewrite (reindex_cols_columns (reindex_rows self _ _));
    [|intros H; rewrite reindex_rows_columns; by apply Hl | done].
  rewrite (reindex_cols_columns (reindex_rows other0 _ _));
    [|intros H; rewrite reindex_rows_columns; by apply Hr | done].
  split; [done|]. by apply Hin.
Qed.

Lemma same_scalar_refl (x : scalar) : same_scalar x x = true.
Proof.
  destruct x as [q|s|b]; cbn.
  - apply Qeq_bool_iff. reflexivity.
  - by apply bool_decide_eq_true_2.
  - by apply bool_decide_eq_true_2.
Qed.

Lemma same_values_refl (xs : list cell) : same_values xs xs = true.
Proof.
  unfold same_values. rewrite bool_decide_eq_true_2 by done. cbn [andb].
  induction xs as [|x xs IH]; [done|]. cbn [zip_with forallb id].
  rewrite IH, andb_true_r. destruct x as [v|]; [apply same_scalar_refl | done].
Qed.

(** What [maybe_downcast_to_dtype] yields: the cast to the narrower type
    when every cell survives it unchanged, the array as it is otherwise. *)
Lemma maybe_downcast_cases (arr : ndarray) (d : dtype) :
  ((width d < width (a_dtype arr))%nat /\
   astype d arr = Some (maybe_downcast_to_dtype arr d) /\
   same_values (a_values (maybe_downcast_to_dtype arr d)) (a_values arr) = true) \/
  (maybe_downcast_to_dtype arr d = arr /\
   ((width (a_dtype arr) <= width d)%nat \/ astype d arr = None \/
    exists r', astype d arr = Some r' /\
               same_values (a_values r') (a_values arr) = false)).
Proof.
  unfold maybe_downcast_to_dtype.
  destruct (width d <? width (a_dtype arr))%nat eqn:Hw.
  - apply Nat.ltb_lt in Hw. destruct (astype d arr) as [r'|] eqn:Hr.
    + destruct (same_values (a_values r') (a_values arr)) eqn:Hs.
      * left. done.
      * right. split; [done|]. right; right. by exists r'.
    + right. split; [done|]. by right; left.
  - apply Nat.ltb_ge in Hw. right. split; [done|]. by left.
Qed.

(** The loop body of [combine] for a column of [self], without fill value
    and past the short-circuit, in terms of [promote]. *)
Lemma combine_column_promoted
    (self this other : table) (func : merge_function) (ow : bool)
    (col : label) (s o : series) :
  col ∈ columns self ->
  getitem_label 2 this col = Ok (SelSeries s) ->
  getitem_label 2 other col = Ok (SelSeries o) ->
  negb ow && all_true (isna (s_values o)) = false ->
  combine_column self this other func None ow col =
    match promote (find_common_type [s_dtype s; s_dtype o]) (s_data s),
          promote (find_common_type [s_dtype s; s_dtype o]) (s_data o) with
    | Some sa, Some oa =>
        arr ← func (with_data s sa) (with_data o oa);
        Ok (maybe_downcast_to_dtype arr (s_dtype s))
    | _, _ => Err CastError
    end.
Proof.
  intros Hin Hs Ho Hrun. unfold combine_column. rewrite Hs, Ho.
  cbn [mbind result_bind as_series]. rewrite Hrun.
  unfold mem. rewrite (bool_decide_eq_true_2 _ Hin). cbn [negb].
  unfold promote, s_dtype.
  destruct (is_dtype_equal (a_dtype (s_data s)) _) eqn:Es;
    destruct (is_dtype_equal (a_dtype (s_data o)) _) eqn:Eo;
    cbn [negb mbind result_bind].
  - cbn [fst snd]. by rewrite !with_data_id.
  - destruct (astype _ (s_data o)); cbn [mbind result_bind fst snd];
      [by rewrite !with_data_id | done].
  - destruct (astype _ (s_data s)); cbn [mbind result_bind fst snd];
      [by rewrite !with_data_id | done].
  - destruct (astype _ (s_data s)); cbn [mbind result_bind]; [|done].
    by destruct (astype _ (s_data o)).
Qed.

(** C4 (as the code has it). For a column of the calling frame that is
    not short-circuited, [combine] brings the two aligned columns to their
    common type (the wider numeric type; object as soon as a non-numeric
    type differs), applies [func] to the promoted columns, and stores the
    answer cast down to the type of the left column when that type is
    narrower and every cell survives the cast unchanged; otherwise it
    stores the answer as it is. *)
Theorem combine_column_promotes_then_downcasts
    (self other0 this other R : table) (func : merge_function) (ow : bool)
    (col : label) :
  align self other0 Outer = Ok (this, other) ->
  empty other && (length (t_index this) =? length (t_index self))%nat = false ->
  empty self && (length (t_index other) =? length (t_index other0))%nat = false ->
  combine self other0 func None ow = Ok R ->
  col ∈ columns self ->
  exists s o : series,
    getitem_label 2 this col = Ok (SelSeries s) /\
    getitem_label 2 other col = Ok (SelSeries o) /\
    (s_dtype s = s_dtype o ->
       find_common_type [s_dtype s; s_dtype o] = s_dtype s) /\
    (is_numeric (s_dtype s) = true -> is_numeric (s_dtype o) = true ->
       find_common_type [s_dtype s; s_dtype o] =
         if (width (s_dtype s) <? width (s_dtype o))%nat
         then s_dtype o else s_dtype s) /\
    (s_dtype s <> s_dtype o ->
     is_numeric (s_dtype s) && is_numeric (s_dtype o) = false ->
       find_common_type [s_dtype s; s_dtype o] = Object) /\
    ((ow = false /\ all_true (isna (s_values o)) = true /\
      column_of R col = Some (s_data s)) \/
     ((ow = true \/ all_true (isna (s_values o)) = false) /\
      exists sa oa arr r,
        promote (find_common_type [s_dtype s; s_dtype o]) (s_data s) = Some sa /\
        a_dtype sa = find_common_type [s_dtype s; s_dtype o] /\
        promote (find_common_type [s_dtype s; s_dtype o]) (s_data o) = Some oa /\
        a_dtype oa = find_common_type [s_dtype s; s_dtype o] /\
        func (with_data s sa) (with_data o oa) = Ok arr /\
        column_of R col = Some r /\
        (((width (s_dtype s) < width (a_dtype arr))%nat /\
          astype (s_dtype s) arr = Some r /\
          same_values (a_values r) (a_values arr) = true) \/
         (r = arr /\
          ((width (a_dtype arr) <= width (s_dtype s))%nat \/
           astype (s_dtype s) arr = None \/
           exists r', astype (s_dtype s) arr = Some r' /\
                      same_values (a_values r') (a_values arr) = false))))).
Proof.
  intros Hal He1 He2 HR Hin.
  destruct (combine_result_columns _ _ _ _ _ _ _ _ Hal He1 He2 HR)
    as (_ & HcR & Hall).
  destruct (align_outer_columns _ _ _ _ Hal) as [Hsame Hmem].
  rewrite Hsame, union_self in HcR.
  destruct (Hall col) as (r & Hr & HRcol); [rewrite HcR; apply Hmem; by left|].
  assert (exists s o, getitem_label 2 this col = Ok (SelSeries s) /\
                      getitem_label 2 other col = Ok (SelSeries o))
    as (s & o & Hs & Ho).
  { unfold combine_column in Hr.
    destruct (getitem_label 2 this col) as [[s|t]|];
      cbn [mbind result_bind] in Hr; [| |done].
    - destruct (getitem_label 2 other col) as [[o|t]|];
        cbn [mbind result_bind as_series] in Hr; [| |done].
      + exists s, o. split; reflexivity.
      + by destruct (decide (col = LStr "dtype")).
    - destruct (getitem_label 2 other col) as [sel|];
        cbn [mbind result_bind as_series] in Hr; [|done].
      by destruct (decide (col = LStr "dtype")). }
  exists s, o. split; [done|]. split; [done|]. split; [|split; [|split]].
  - intros ->. apply find_common_type_same.
  - intros Hns Hno. rewrite find_common_type_pair, Hns, Hno. simpl.
    case_decide as Heq; [|done]. by rewrite Heq, Nat.ltb_irrefl.
  - intros Hne Hnum. rewrite find_common_type_pair, Hnum.
    by rewrite decide_False.
  - destruct (negb ow && all_true (isna (s_values o))) eqn:Hshort.
    + left. apply andb_true_iff in Hshort as [How Hna].
      apply negb_true_iff in How. split; [done|]. split; [done|].
      rewrite HRcol. f_equal.
      unfold combine_column in Hr. rewrite Hs, Ho in Hr.
      cbn [mbind result_bind as_series] in Hr.
      rewrite How, Hna in Hr. cbn in Hr. by injection Hr.
    + right. split.
      { apply andb_false_iff in Hshort as [H|H]; [left|by right].
        by apply negb_false_iff in H. }
      rewrite (combine_column_promoted self this other func ow col s o Hin Hs Ho Hshort)
        in Hr.
      destruct (promote _ (s_data s)) as [sa|] eqn:Hsa; [|done].
      destruct (promote _ (s_data o)) as [oa|] eqn:Hoa; [|done].
      destruct (func (with_data s sa) (with_data o oa)) as [arr|] eqn:Harr; [|done].
      cbn [mbind result_bind] in Hr. injection Hr as <-.
      exists sa, oa, arr, (maybe_downcast_to_dtype arr (s_dtype s)).
      split; [done|]. split; [by apply promote_dtype in Hsa|].
      split; [done|]. split; [by apply promote_dtype in Hoa|].
      split; [done|]. split; [done|].
      apply maybe_downcast_cases.
Qed.

Lemma combine_column_promotes_then_downcasts_witness :
  combine frame_int frame_float take_left None true =
    Ok (column_frame Int64 [Some (Num 2)]) /\
  exists s o : series,
    getitem_label 2 frame_int (LStr "col") = Ok (SelSeries s) /\
    getitem_label 2 frame_float (LStr "col") = Ok (SelSeries o) /\
    find_common_type [s_dtype s; s_dtype o] = Float64.
Proof.
  split; [vm_compute; reflexivity|].
  destruct (combine_column_promotes_then_downcasts
              frame_int frame_float frame_int frame_float
              (column_frame Int64 [Some (Num 2)]) take_left true (LStr "col")
              eq_refl eq_refl eq_refl eq_refl ltac:(left))
    as (s & o & Hs & Ho & _).
  exists s, o. split; [exact Hs|]. split; [exact Ho|].
  vm_compute in Hs, Ho. injection Hs as <-. injection Ho as <-. reflexivity.
Defined.

(** C4, against the specification's wording: a float column combined with
    an integer column, the answer being integral, stays float; the narrower
    of the two input types would be the integer type. *)
Lemma combine_downcasts_to_left_type :
  combine frame_float frame_int take_right None true =
    Ok (column_frame Float64 [Some (Num 2)]) /\
  narrower Float64 Int64 = Int64 /\
  maybe_downcast_to_dtype {| a_dtype := Float64; a_values := [Some (Num 2)] |}
    (narrower Float64 Int64) = {| a_dtype := Int64; a_values := [Some (Num 2)] |} /\
  combine frame_float frame_int take_right None true <>
    Ok (column_frame Int64 [Some (Num 2)]).
Proof.
  split; [vm_compute; reflexivity|]. split; [reflexivity|].
  split; [vm_compute; reflexivity|]. vm_compute. intros H. discriminate H.
Qed.

(** *** The short-circuit of [combine] *)

(** C5 (as the code has it). With [overwrite=False], once [combine] has
    reached its loop (neither early return for an empty frame is taken), a
    result column whose right-hand side is entirely missing after alignment
    is the aligned left column as it is, whatever the merge function and
    the fill value: the merge function is not consulted, so one that always
    raises gives the same column.  The early returns come first: an empty
    aligned right frame gives the calling frame back, and an empty calling
    frame gives the aligned right frame back, whose columns are not those
    of the aligned left frame. *)
Theorem combine_keeps_left_when_right_missing
    (self other0 this other : table) (func : merge_function) (fv : option scalar)
    (col : label) (s o : series) :
  align self other0 Outer = Ok (this, other) ->
  getitem_label 2 this col = Ok (SelSeries s) ->
  getitem_label 2 other col = Ok (SelSeries o) ->
  all_true (isna (s_values o)) = true ->
  combine_column self this other func fv false col = Ok (s_data s) /\
  combine_column self this other always_raises fv false col = Ok (s_data s) /\
  (empty other && (length (t_index this) =? length (t_index self))%nat = true ->
   combine self other0 func fv false = Ok self) /\
  (empty other && (length (t_index this) =? length (t_index self))%nat = false ->
   empty self && (length (t_index other) =? length (t_index other0))%nat = true ->
   combine self other0 func fv false = Ok other) /\
  (empty other && (length (t_index this) =? length (t_index self))%nat = false ->
   empty self && (length (t_index other) =? length (t_index other0))%nat = false ->
   forall R, combine self other0 func fv false = Ok R ->
     col ∈ columns R -> column_of R col = Some (s_data s)).
Proof.
  intros Hal Hs Ho Hna.
  assert (forall f, combine_column self this other f fv false col = Ok (s_data s))
    as Hcol.
  { intros f. unfold combine_column. rewrite Hs, Ho.
    cbn [mbind result_bind as_series]. by rewrite Hna. }
  split; [apply Hcol|]. split; [apply Hcol|]. split; [|split].
  - intros He1. unfold combine. rewrite Hal. cbn [mbind result_bind fst snd].
    by rewrite He1.
  - intros He1 He2. unfold combine. rewrite Hal. cbn [mbind result_bind fst snd].
    by rewrite He1, He2.
  - intros He1 He2 R HR Hin.
    destruct (combine_result_columns _ _ _ _ _ _ _ _ Hal He1 He2 HR) as (_ & _ & Hall).
    destruct (Hall col Hin) as (arr & Harr & Hc).
    rewrite Hcol in Harr. by injection Harr as <-.
Qed.

Lemma combine_keeps_left_when_right_missing_witness :
  combine_column frame_x this_xy other_xy always_raises None false (LStr "x") =
    Ok {| a_dtype := Int64; a_values := [Some (Num 1); Some (Num 2)] |} /\
  exists R, combine frame_x frame_y take_right None false = Ok R /\
    column_of R (LStr "x") =
      Some {| a_dtype := Int64; a_values := [Some (Num 1); Some (Num 2)] |}.
Proof.
  pose proof (combine_keeps_left_when_right_missing
                frame_x frame_y this_xy other_xy take_right None (LStr "x")
                {| s_name := LStr "x"; s_index := [LInt 0; LInt 1];
                   s_data := {| a_dtype := Int64;
                                a_values := [Some (Num 1); Some (Num 2)] |} |}
                {| s_name := LStr "x"; s_index := [LInt 0; LInt 1];
                   s_data := all_na 2 |}
                eq_refl eq_refl eq_refl eq_refl) as (_ & Hraise & _ & _ & Htable).
  split; [exact Hraise|].
  eexists. split; [vm_compute; reflexivity|].
  apply Htable; try reflexivity.
  unfold columns. simpl. left.
Defined.

(** C5, against the claim's wording: when the calling frame has no rows,
    [combine] returns the aligned right frame before its loop; the column,
    entirely missing on the right, is then the right column (of object
    type), not the aligned left column (of float type). *)
Lemma combine_empty_left_returns_right :
  align frame_no_rows frame_object_na Outer =
    Ok ({| t_index := [LInt 0; LInt 1]; t_cols := [(LStr "a", all_na 2)] |},
        frame_object_na) /\
  all_true (isna [None; None]) = true /\
  combine frame_no_rows frame_object_na take_right None false =
    Ok frame_object_na /\
  column_of frame_object_na (LStr "a") =
    Some {| a_dtype := Object; a_values := [None; None] |} /\
  column_of frame_object_na (LStr "a") <> Some (all_na 2).
Proof.
  split; [vm_compute; reflexivity|]. split; [reflexivity|].
  split; [vm_compute; reflexivity|]. split; [reflexivity|].
  vm_compute. intros H. discriminate H.
Qed.

(** ** Further properties of selection *)

(** X1. Selecting a single label fails with a key error exactly when no
    column carries the label. *)
Theorem getitem_scalar_key_error
    (where_ : table -> table -> result table) (t : table) (l : label) :
  getitem where_ t (KScalar l) = Err KeyNotFound <-> l ∉ columns t.
Proof.
  cbn [getitem].
  destruct (filter (fun c => c.1 = l) (t_cols t)) as [|c [|c' cs]] eqn:Hf.
  - pose proof (length_positions_from fst 0 (t_cols t) l) as Hpl.
    fold (positions l (t_cols t).*1) in Hpl. rewrite Hf in Hpl.
    destruct (positions l (t_cols t).*1) eqn:Hp; [|done].
    assert (l ∉ columns t) as Hn by (by apply (positions_from_nil 0)).
    split; [done|intros _]. cbn [getitem_label].
    apply (bool_decide_eq_false_2 (l ∈ columns t)) in Hn. unfold mem.
    rewrite Hn, andb_false_r. unfold get_loc, columns. by rewrite Hp.
  - assert (l ∈ columns t) as Hin.
    { assert (c ∈ filter (fun c => c.1 = l) (t_cols t)) as Hc by (rewrite Hf; left).
      apply list_elem_of_filter in Hc as [<- Hc].
      apply list_elem_of_fmap. by exists c. }
    rewrite (getitem_label_one t l c Hf). split; [done | by intros H].
  - assert (l ∈ columns t) as Hin.
    { assert (c ∈ filter (fun c => c.1 = l) (t_cols t)) as Hc by (rewrite Hf; left).
      apply list_elem_of_filter in Hc as [<- Hc].
      apply list_elem_of_fmap. by exists c. }
    rewrite getitem_label_many by (rewrite Hf; simpl; lia).
    split; [done | by intros H].
Qed.

Lemma convert_to_indexer_missing (ax : index) (ls : list label) :
  convert_to_indexer ax ls = Err KeyNotFound <-> exists l, l ∈ ls /\ l ∉ ax.
Proof.
  induction ls as [|l ls IH]; cbn [convert_to_indexer foldr].
  - split; [done | intros (l & H & _); by apply elem_of_nil in H].
  - fold (convert_to_indexer ax ls). unfold mbind, result_bind.
    destruct (convert_to_indexer ax ls) as [rest|e] eqn:Hrest.
    + destruct (positions l ax) as [|i ps] eqn:Hp.
      * split; [intros _|done]. exists l. split; [left|].
        by apply (positions_from_nil 0).
      * split; [done|]. intros (l' & [->|Hin]%elem_of_cons & Hnot).
        -- apply (positions_from_nil 0) in Hnot. unfold positions in Hp. congruence.
        -- assert (Ok rest = Err KeyNotFound) as H; [|done].
           apply IH. by exists l'.
    + assert (e = KeyNotFound) as ->.
      { clear IH. revert e Hrest. induction ls as [|x xs IHx]; intros e; [done|].
        cbn [convert_to_indexer foldr]. fold (convert_to_indexer ax xs).
        unfold mbind, result_bind.
        destruct (convert_to_indexer ax xs); [|intros [= <-]; by apply IHx].
        destruct (positions x ax); [by intros [= <-] | done]. }
      split; [intros _|done].
      destruct (proj1 IH eq_refl) as (l' & Hin & Hnot). exists l'. split; [by right|done].
Qed.

Lemma convert_to_indexer_found (ax : index) (ls : list label) :
  (forall l, l ∈ ls -> l ∈ ax) ->
  convert_to_indexer ax ls = Ok (ls ≫= fun l => positions l ax).
Proof.
  intros Hall. induction ls as [|l ls IH]; [done|].
  cbn [convert_to_indexer foldr]. fold (convert_to_indexer ax ls).
  rewrite IH by (intros; apply Hall; by right). cbn [mbind result_bind].
  destruct (positions l ax) as [|i ps] eqn:Hp.
  - apply (positions_from_nil 0) in Hp. exfalso. apply Hp, Hall. left.
  - by rewrite bind_cons, Hp.
Qed.

Lemma take_list_app {A} (xs : list A) ps qs :
  take_list xs (ps ++ qs) = take_list xs ps ++ take_list xs qs.
Proof. unfold take_list. apply omap_app. Qed.

Lemma take_list_bind_positions (cols : list (label * ndarray)) (ls : list label) :
  take_list cols (ls ≫= fun l => positions l cols.*1) =
  ls ≫= fun l => filter (fun c => c.1 = l) cols.
Proof.
  induction ls as [|l ls IH]; [done|].
  by rewrite !bind_cons, take_list_app, take_list_positions, IH.
Qed.

(** X2. Selecting a list of labels fails with a key error exactly when one
    of them names no column; otherwise the result keeps the row index and
    holds, for each label of the key in turn, every column that carries it. *)
Theorem getitem_label_list
    (where_ : table -> table -> result table) (t : table) (ls : list label) :
  (getitem where_ t (KList ls) = Err KeyNotFound <->
   exists l, l ∈ ls /\ l ∉ columns t) /\
  ((forall l, l ∈ ls -> l ∈ columns t) ->
   getitem where_ t (KList ls) =
     Ok (SelFrame {| t_index := t_index t;
                     t_cols := ls ≫= fun l => filter (fun c => c.1 = l) (t_cols t) |})).
Proof.
  split.
  - cbn [getitem]. rewrite <- convert_to_indexer_missing.
    unfold mbind, result_bind.
    destruct (convert_to_indexer _ _); split; congruence.
  - intros Hall. cbn [getitem]. rewrite convert_to_indexer_found by done.
    cbn [mbind result_bind]. rewrite take_axis_1. unfold take_cols, columns.
    by rewrite take_list_bind_positions.
Qed.

Lemma getitem_label_list_witness :
  getitem (fun s _ => Ok s) frame_xyx (KList [LStr "y"; LStr "x"]) =
    Ok (SelFrame
          {| t_index := t_index frame_xyx;
             t_cols := [LStr "y"; LStr "x"] ≫=
                         fun l => filter (fun c => c.1 = l) (t_cols frame_xyx) |}).
Proof.
  apply (proj2 (getitem_label_list (fun s _ => Ok s) frame_xyx [LStr "y"; LStr "x"])).
  intros l Hl. apply elem_of_cons in Hl as [->|Hl]; [right; left|].
  apply list_elem_of_singleton in Hl as ->. left.
Defined.

Lemma take_list_nonzero_from {A} (pre xs : list A) (mask : list bool) :
  length mask = length xs ->
  take_list (pre ++ xs) (nonzero_from (length pre) mask) =
  (filter (fun p => p.1 = true) (zip mask xs)).*2.
Proof.
  revert pre xs. induction mask as [|b mask IH]; intros pre [|x xs] Hlen; try done.
  injection Hlen as Hlen. specialize (IH (pre ++ [x]) xs Hlen).
  rewrite length_app, <- app_assoc in IH. simpl in IH.
  replace (length pre + 1)%nat with (S (length pre)) in IH by lia.
  cbn [nonzero_from zip zip_with]. rewrite filter_cons. destruct b.
  - rewrite decide_True by done. rewrite fmap_cons.
    unfold take_list in *. cbn [omap list_omap].
    rewrite list_lookup_middle by done. simpl. by rewrite IH.
  - rewrite decide_False by done. apply IH.
Qed.

Lemma take_list_nonzero {A} (xs : list A) (mask : list bool) :
  length mask = length xs ->
  take_list xs (nonzero mask) = (filter (fun p => p.1 = true) (zip mask xs)).*2.
Proof. apply (take_list_nonzero_from [] xs mask). Qed.

(** X3. A boolean array as long as the row index keeps the column labels
    and selects, from the row index and from every column, exactly the
    entries paired with [true], in their order. *)
Theorem getitem_bool_mask_filters (t : table) (mask : list bool) :
  wf t -> length mask = length (t_index t) ->
  exists r, _getitem_bool_array t (BoolArray mask) = Ok r /\
    wf r /\ columns r = columns t /\
    t_index r = (filter (fun p => p.1 = true) (zip mask (t_index t))).*2 /\
    forall i l a, t_cols t !! i = Some (l, a) ->
      exists a', t_cols r !! i = Some (l, a') /\ a_dtype a' = a_dtype a /\
        a_values a' = (filter (fun p => p.1 = true) (zip mask (a_values a))).*2.
Proof.
  intros Hwf Hlen. eexists. split.
  { unfold _getitem_bool_array. cbn [key_len negb andb].
    rewrite Hlen, Nat.eqb_refl. cbn [negb check_bool_indexer mbind result_bind].
    by rewrite take_axis_0. }
  unfold wf in Hwf. rewrite Forall_forall in Hwf.
  assert (forall c, c ∈ t_cols t ->
            take_list (a_values c.2) (nonzero mask) =
            (filter (fun p => p.1 = true) (zip mask (a_values c.2))).*2) as Hcol.
  { intros c Hc. apply take_list_nonzero. rewrite Hlen. symmetry. by apply Hwf. }
  unfold take_rows. cbn [t_index t_cols].
  rewrite (take_list_nonzero (t_index t) mask Hlen).
  split; [|split; [|split; [done|]]].
  - unfold wf. cbn [t_index t_cols]. rewrite Forall_map. apply Forall_forall.
    intros c Hc. cbn [snd a_values]. rewrite (Hcol c Hc).
    rewrite !length_fmap.
    specialize (Hwf c Hc). clear Hcol Hc.
    revert Hwf Hlen. generalize (a_values c.2) (t_index t). clear.
    induction mask as [|b mask IH]; intros [|x xs] [|y ys]; try done.
    intros [= H1] [= H2]. cbn [zip zip_with]. rewrite !filter_cons.
    destruct b; simpl; [f_equal|]; by apply IH.
  - unfold columns. cbn [t_cols]. change (map ?f ?l) with (f <$> l).
    rewrite <- list_fmap_compose. by apply list_fmap_ext.
  - intros i l a Hi. change (map ?f ?l) with (f <$> l).
    rewrite list_lookup_fmap, Hi. cbn [fmap option_fmap option_map fst snd].
    eexists. split; [done|]. split; [done|]. cbn [a_values].
    apply (Hcol (l, a)). apply list_elem_of_lookup. eauto.
Qed.

Lemma getitem_bool_mask_filters_witness :
  exists r, _getitem_bool_array frame_two_rows (BoolArray [false; true]) = Ok r /\
    t_index r = [LInt 1].
Proof.
  destruct (getitem_bool_mask_filters frame_two_rows [false; true]
              ltac:(repeat constructor) eq_refl) as (r & Hr & _ & _ & Hix & _).
  exists r. split; [exact Hr | exact Hix].
Defined.

(** X4. A frame used as selector that has at least one element and is not
    boolean throughout is refused, whatever [where] would do with it. *)
Theorem getitem_frame_non_boolean_refused
    (where_ : table -> table -> result table) (self k : table) :
  values_size k <> 0%nat -> values_dtype k <> Bool ->
  getitem where_ self (KFrame k) = Err InvalidBooleanFrame.
Proof.
  intros Hs Hd. cbn [getitem].
  by rewrite (getitem_frame_rejects_non_boolean where_ self k Hs Hd).
Qed.

Lemma getitem_frame_non_boolean_refused_witness :
  getitem (fun s _ => Ok s) frame_two_rows (KFrame frame_two_rows) =
    Err InvalidBooleanFrame.
Proof.
  apply (getitem_frame_non_boolean_refused (fun s _ => Ok s)
           frame_two_rows frame_two_rows); vm_compute; congruence.
Defined.

(** ** Column assignment: [__setitem__] with a label and an array *)

Lemma filter_absent (cols : list (label * ndarray)) l :
  l ∉ cols.*1 -> filter (fun c => c.1 = l) cols = [].
Proof.
  intros Hn. induction cols as [|c cols IH]; [done|].
  rewrite fmap_cons in Hn. apply not_elem_of_cons in Hn as [Hne Hn].
  rewrite filter_cons, decide_False by congruence. by apply IH.
Qed.

Lemma take_fill_all_na (a : ndarray) (n : nat) :
  a_values (take_fill a (replicate n (-1))) = replicate n None.
Proof.
  unfold take_fill. cbn [a_values].
  generalize (if existsb (fun p => p <? 0) (replicate n (-1))
              then maybe_promote (a_dtype a) else a_dtype a).
  intros d. induction n as [|n IH]; [done|]. cbn [replicate map]. by rewrite IH.
Qed.

Lemma ensure_valid_index_same (t : table) (v : ndarray) :
  wf t -> length (a_values v) = length (t_index t) ->
  _ensure_valid_index t v = t.
Proof.
  intros Hwf Hlen. unfold _ensure_valid_index.
  destruct (length (t_index t) =? 0)%nat eqn:Hz; [|done].
  apply Nat.eqb_eq in Hz. rewrite Hlen, Hz. cbn [seq map replicate].
  destruct t as [ix cols]. cbn [t_index t_cols] in *.
  destruct ix; [|done]. f_equal.
  unfold wf in Hwf. cbn [t_index t_cols] in Hwf.
  induction Hwf as [|[l [d vs]] cols Hc _ IH]; [done|].
  cbn [map]. rewrite IH. unfold take_fill. cbn [existsb map fst snd a_dtype a_values].
  cbn [a_values snd length] in Hc. by destruct vs.
Qed.

(** X5. Assigning an array as long as the row index under a label always
    succeeds; afterwards selecting the label gives the array back, the
    other columns are what they were, and the label keeps its place among
    the columns or, if it is new, comes last. *)
Theorem set_item_then_getitem (t : table) (l : label) (v : ndarray) :
  wf t -> NoDup (columns t) -> length (a_values v) = length (t_index t) ->
  exists t', set_item t l v = Ok t' /\
    t_index t' = t_index t /\ wf t' /\
    columns t' = (if mem l (columns t) then columns t else columns t ++ [l]) /\
    getitem_label 2 t' l =
      Ok (SelSeries {| s_name := l; s_index := t_index t; s_data := v |}) /\
    forall l', l' <> l -> column_of t' l' = column_of t l'.
Proof.
  intros Hwf Hnd Hlen. unfold set_item.
  rewrite (ensure_valid_index_same t v Hwf Hlen).
  rewrite Hlen, Nat.eqb_refl. cbn [negb].
  destruct (mem l (columns t)) eqn:Hmem.
  - apply mem_true in Hmem. destruct (unique_column t l Hnd Hmem) as [a Hf].
    eexists. split; [done|]. cbn [t_index t_cols]. split; [done|].
    split; [|split; [|split]].
    + unfold wf in *. cbn [t_index t_cols]. rewrite Forall_map.
      eapply Forall_impl; [exact Hwf|]. intros c Hc. cbn beta.
      by destruct (decide (c.1 = l)).
    + unfold columns. cbn [t_cols]. apply fst_replace.
    + erewrite (getitem_label_one _ l (l, v)); [done|].
      cbn [t_cols]. by rewrite filter_replace_same, Hf.
    + intros l' Hne. rewrite !column_of_filter. cbn [t_cols].
      by rewrite filter_replace.
  - assert (l ∉ columns t) as Hn.
    { intros Hin. apply mem_true in Hin. congruence. }
    eexists. split; [done|]. cbn [t_index t_cols]. split; [done|].
    split; [|split; [|split]].
    + unfold wf in *. cbn [t_index t_cols]. apply Forall_app. split; [done|].
      by apply Forall_singleton.
    + unfold columns. cbn [t_cols]. by rewrite fmap_app.
    + erewrite (getitem_label_one _ l (l, v)); [done|].
      cbn [t_cols]. rewrite filter_app, (filter_absent _ l Hn).
      by rewrite filter_cons, decide_True.
    + intros l' Hne. rewrite !column_of_filter. cbn [t_cols].
      rewrite filter_app, filter_cons, decide_False by (cbn; congruence).
      by rewrite app_nil_r.
Qed.

Lemma set_item_then_getitem_witness :
  exists t', set_item frame_two_rows (LStr "w")
               {| a_dtype := Bool; a_values := [Some (Boolean true); None] |} = Ok t' /\
    columns t' = [LStr "v"; LStr "w"].
Proof.
  destruct (set_item_then_getitem frame_two_rows (LStr "w")
              {| a_dtype := Bool; a_values := [Some (Boolean true); None] |}
              ltac:(repeat constructor) ltac:(apply NoDup_singleton) eq_refl)
    as (t' & Hset & _ & _ & Hcols & _).
  exists t'. split; [exact Hset | exact Hcols].
Defined.

(** X6. The length of an assigned array is checked against the row index
    only when the frame has rows: then another length is refused; a frame
    without rows instead takes the positions of the array as its row index
    and fills the columns it already has with NA. *)
Theorem set_item_length_check (t : table) (l : label) (v : ndarray) :
  (length (t_index t) <> 0%nat ->
   length (a_values v) <> length (t_index t) ->
   set_item t l v = Err LengthMismatch) /\
  (length (t_index t) = 0%nat ->
   exists t', set_item t l v = Ok t' /\ wf t' /\
     t_index t' = range_index (length (a_values v)) /\
     column_of t' l = Some v /\
     forall l' a, l' <> l -> column_of t' l' = Some a ->
       a_values a = replicate (length (a_values v)) None).
Proof.
  split.
  - intros Hz Hlen. unfold set_item, _ensure_valid_index.
    apply Nat.eqb_neq in Hz. rewrite Hz.
    apply Nat.eqb_neq in Hlen. by rewrite Hlen.
  - intros Hz. unfold set_item, _ensure_valid_index.
    rewrite Hz. cbn [Nat.eqb]. cbn [t_index t_cols].
    fold (range_index (length (a_values v))).
    assert (length (range_index (length (a_values v))) = length (a_values v)) as Hr
      by (unfold range_index; by rewrite length_map, length_seq).
    rewrite Hr, Nat.eqb_refl. cbn [negb].
    set (padded := map (fun c : label * ndarray =>
                          (c.1, take_fill c.2 (replicate (length (a_values v)) (-1))))
                       (t_cols t)).
    assert (forall c, c ∈ padded ->
              a_values c.2 = replicate (length (a_values v)) None) as Hpad.
    { intros c Hc. unfold padded in Hc. change (map ?f ?l) with (f <$> l) in Hc.
      apply list_elem_of_fmap in Hc as [c0 [-> _]]. cbn [snd].
      apply take_fill_all_na. }
    assert (padded.*1 = (t_cols t).*1) as Hfst.
    { unfold padded. change (map ?f ?l) with (f <$> l).
      rewrite <- list_fmap_compose. by apply list_fmap_ext. }
    assert (forall l' a, l' <> l ->
              snd <$> head (filter (fun c => c.1 = l') padded) = Some a ->
              a_values a = replicate (length (a_values v)) None) as Hother.
    { intros l' a _ Hh.
      destruct (filter (fun c => c.1 = l') padded) as [|c cs] eqn:Hf; [done|].
      cbn in Hh. injection Hh as <-. apply Hpad.
      assert (c ∈ filter (fun c => c.1 = l') padded) as Hc by (rewrite Hf; left).
      by apply list_elem_of_filter in Hc as [_ ?]. }
    unfold columns. cbn [t_cols]. rewrite Hfst.
    destruct (mem l (t_cols t).*1) eqn:Hmem.
    + eexists. split; [done|]. cbn [t_index t_cols]. split; [|split; [done|split]].
      * unfold wf. cbn [t_index t_cols]. rewrite Forall_map, Hr.
        apply Forall_forall. intros c Hc. destruct (decide (c.1 = l)); [done|].
        rewrite (Hpad c Hc). apply length_replicate.
      * rewrite column_of_filter. cbn [t_cols]. rewrite filter_replace_same.
        apply mem_true in Hmem. rewrite <- Hfst in Hmem.
        apply list_elem_of_fmap in Hmem as [c [-> Hc]].
        assert (c ∈ filter (fun c' : label * ndarray => c'.1 = c.1) padded) as Hc'
          by (by apply list_elem_of_filter).
        destruct (filter (fun c' : label * ndarray => c'.1 = c.1) padded)
          as [|x xs]; [by apply elem_of_nil in Hc' | done].
      * intros l' a Hne. rewrite column_of_filter. cbn [t_cols].
        rewrite filter_replace by done. by apply Hother.
    + eexists. split; [done|]. cbn [t_index t_cols]. split; [|split; [done|split]].
      * unfold wf. cbn [t_index t_cols]. rewrite Hr. apply Forall_app. split.
        -- apply Forall_forall. intros c Hc. rewrite (Hpad c Hc).
           apply length_replicate.
        -- by apply Forall_singleton.
      * rewrite column_of_filter. cbn [t_cols].
        assert (l ∉ padded.*1) as Hn.
        { rewrite Hfst. intros Hin. apply mem_true in Hin. congruence. }
        rewrite filter_app, (filter_absent _ l Hn).
        by rewrite filter_cons, decide_True.
      * intros l' a Hne. rewrite column_of_filter. cbn [t_cols].
        rewrite filter_app, filter_cons, decide_False by (cbn; congruence).
        rewrite app_nil_r. by apply Hother.
Qed.

Lemma set_item_length_check_witness :
  set_item frame_two_rows (LStr "w") {| a_dtype := Int64; a_values := [Some (Num 1)] |}
    = Err LengthMismatch /\
  exists t', set_item frame_no_rows (LStr "w")
               {| a_dtype := Int64; a_values := [Some (Num 1); Some (Num 2)] |} = Ok t' /\
    t_index t' = [LInt 0; LInt 1].
Proof.
  split.
  - apply (proj1 (set_item_length_check frame_two_rows (LStr "w")
                    {| a_dtype := Int64; a_values := [Some (Num 1)] |}));
      vm_compute; lia.
  - destruct (proj2 (set_item_length_check frame_no_rows (LStr "w")
                       {| a_dtype := Int64; a_values := [Some (Num 1); Some (Num 2)] |})
                eq_refl) as (t' & Hset & _ & Hix & _).
    exists t'. split; [exact Hset | exact Hix].
Defined.

(** ** Further properties of [update] *)

(** The outcome of [update] without filter function and with
    [errors='ignore'] on well-formed frames. *)
Lemma update_ignore_columns (A B B' : table) (ow : bool) :
  wf A -> wf B -> NoDup (columns A) -> reindex_like B A = Ok B' ->
  exists A', update B "left" ow None "ignore" A = (A', Ok tt) /\
    t_index A' = t_index A /\ columns A' = columns A /\ wf A' /\
    forall col a b, col ∈ columns A ->
      column_of A col = Some a -> column_of B' col = Some b ->
      column_of A' col = Some (merged_column ow a b).
Proof.
  intros HwfA HwfB Hnd Hre.
  apply (update_unfiltered_columns A B B' ow "ignore"); try done. by left.
Qed.



Lemma np_result_type_wider (a b : dtype) :
  (width a <= width (np_result_type a b))%nat /\
  (width b <= width (np_result_type a b))%nat.
Proof. destruct a, b; vm_compute; lia. Qed.

(** Seen at a type that is not narrower, a column has its NA where it had
    them. *)
Lemma isna_coerce d a :
  (width (a_dtype a) <= width d)%nat -> isna (coerce d a) = isna (a_values a).
Proof.
  intros Hw. unfold coerce, is_dtype_equal. case_bool_decide as Hd; [done|].
  unfold isna. rewrite map_map. apply map_ext. intros [v|]; simpl.
  - by destruct (cast_scalar d v).
  - destruct d; cbn; try done. destruct (a_dtype a); cbn in *; done || lia.
Qed.

Lemma isna_select_isna (xs ys : list cell) :
  length xs = length ys ->
  isna (select (isna ys) xs ys) = zip_with andb (isna xs) (isna ys).
Proof.
  revert ys. induction xs as [|x xs IH]; intros [|y ys]; try done.
  intros [= H]. cbn [isna map select zip_with]. fold (isna ys) (isna xs).
  f_equal; [|by apply IH]. destruct x, y; done.
Qed.

Lemma isna_select_notna (xs ys : list cell) :
  length xs = length ys ->
  isna (select (notna xs) xs ys) = zip_with andb (isna xs) (isna ys).
Proof.
  revert ys. induction xs as [|x xs IH]; intros [|y ys]; try done.
  intros [= H]. cbn [isna notna map select zip_with]. fold (isna ys) (isna xs) (notna xs).
  f_equal; [|by apply IH]. destruct x, y; done.
Qed.

Lemma all_true_zip_andb_r (ms ns : list bool) :
  length ms = length ns -> all_true ns = true -> zip_with andb ms ns = ms.
Proof.
  revert ns. induction ms as [|m ms IH]; intros [|n ns]; try done.
  intros [= H]. unfold all_true. cbn [forallb id]. intros [-> Hns]%andb_true_iff.
  cbn [zip_with]. rewrite andb_true_r. f_equal. by apply IH.
Qed.

Lemma notna_all_true_isna (xs : list cell) (ns : list bool) :
  length xs = length ns -> all_true (notna xs) = true ->
  zip_with andb (isna xs) ns = isna xs.
Proof.
  revert ns. induction xs as [|x xs IH]; intros [|n ns]; try done.
  intros [= H]. unfold all_true, notna. cbn [map forallb id].
  intros [Hx Hxs]%andb_true_iff. cbn [isna map zip_with]. fold (isna xs).
  destruct x; [|done]. cbn. f_equal. by apply IH.
Qed.

Lemma isna_merged_column (ow : bool) (a b : ndarray) :
  length (a_values a) = length (a_values b) ->
  isna (a_values (merged_column ow a b)) =
  zip_with andb (isna (a_values a)) (isna (a_values b)).
Proof.
  intros Hlen. unfold merged_column.
  destruct ow.
  - destruct (all_true (isna (a_values b))) eqn:Hall.
    + symmetry. apply all_true_zip_andb_r; [|done].
      unfold isna. by rewrite !length_map.
    + cbn [a_values].
      rewrite <- (isna_coerce (np_result_type (a_dtype a) (a_dtype b)) b)
        by apply np_result_type_wider.
      rewrite isna_select_isna by (by rewrite !length_coerce).
      by rewrite !isna_coerce by apply np_result_type_wider.
  - destruct (all_true (notna (a_values a))) eqn:Hall.
    + symmetry. apply notna_all_true_isna; [|done].
      unfold isna. by rewrite length_map.
    + cbn [a_values].
      assert (notna (a_values a) =
              notna (coerce (np_result_type (a_dtype a) (a_dtype b)) a)) as ->.
      { unfold notna. rewrite <- !(map_map isna_cell negb).
        fold (isna (a_values a)).
        fold (isna (coerce (np_result_type (a_dtype a) (a_dtype b)) a)).
        by rewrite isna_coerce by apply np_result_type_wider. }
      rewrite isna_select_notna by (by rewrite !length_coerce).
      by rewrite !isna_coerce by apply np_result_type_wider.
Qed.

(** X8. After such an update a cell is null exactly where it was null in
    the calling frame and is null in the reindexed other frame, for either
    value of [overwrite]: [update] never leaves a null where one of the two
    frames has a value and never introduces one. *)
Theorem update_null_pattern (A B B' A' : table) (ow : bool) col a b a' :
  wf A -> wf B -> NoDup (columns A) -> reindex_like B A = Ok B' ->
  (update B "left" ow None "ignore" A).1 = A' ->
  col ∈ columns A ->
  column_of A col = Some a -> column_of B' col = Some b ->
  column_of A' col = Some a' ->
  isna (a_values a') = zip_with andb (isna (a_values a)) (isna (a_values b)).
Proof.
  intros HwfA HwfB Hnd Hre Hrun Hin Ha Hb Ha'.
  destruct (update_ignore_columns A B B' ow HwfA HwfB Hnd Hre)
    as (A1 & Hrun1 & _ & _ & _ & Hcolumn).
  rewrite Hrun1 in Hrun. cbn in Hrun. subst A1.
  rewrite (Hcolumn col a b Hin Ha Hb) in Ha'. injection Ha' as <-.
  apply isna_merged_column.
  destruct (reindex_like_axes B A B' HwfB Hre) as (HwfB' & Hix & Hcols).
  destruct (unique_column A col Hnd Hin) as [a0 Hfa].
  destruct (unique_column B' col) as [b0 Hfb]; [by rewrite Hcols..|].
  rewrite column_of_filter, Hfa in Ha. rewrite column_of_filter, Hfb in Hb.
  cbn in Ha, Hb. injection Ha as <-. injection Hb as <-.
  rewrite (wf_filter A col a0 HwfA Hfa), (wf_filter B' col b0 HwfB' Hfb).
  by rewrite Hix.
Qed.

Lemma update_null_pattern_witness :
  isna [Some (Num 9); Some (Num 9)] =
  zip_with andb (isna [Some (Num 1); None]) (isna [Some (Num 9); Some (Num 9)]).
Proof.
  apply (update_null_pattern update_A update_B update_B
           (column_frame Float64 [Some (Num 9); Some (Num 9)]) true (LStr "col")
           {| a_dtype := Float64; a_values := [Some (Num 1); None] |}
           {| a_dtype := Int64; a_values := [Some (Num 9); Some (Num 9)] |}
           {| a_dtype := Float64; a_values := [Some (Num 9); Some (Num 9)] |});
    try reflexivity.
  - repeat constructor.
  - repeat constructor.
  - apply NoDup_singleton.
  - left.
Defined.

Lemma update_column_unchecked_no_overlap_error other ow errors col s :
  String.eqb errors "raise" = false ->
  (update_column other ow None errors col s).2 <> Err DataOverlap.
Proof.
  intros Herr.
  unfold update_column, mbind, inplace_bind, get_self, lift, setitem, put_self,
    mret, inplace_ret.
  pose proof (column_values_no_overlap_error s col).
  destruct (column_values s col) as [this|]; [|simpl; congruence].
  pose proof (column_values_no_overlap_error other col).
  destruct (column_values other col) as [that|]; [|simpl; congruence].
  rewrite Herr. cbn beta iota.
  assert (forall mask,
            ((if all_true mask then (fun s0 : table => (s0, Ok tt))
              else fun s0 : table =>
                     match np_where mask this that with
                     | Ok arr => setitem col arr s0
                     | Err e => (s0, Err e)
                     end) s).2 <> Err DataOverlap) as Hmask.
  { intros mask. destruct (all_true mask); [simpl; congruence|].
    pose proof (np_where_no_overlap_error mask this that).
    destruct (np_where mask this that) as [arr|]; [|simpl; congruence].
    unfold setitem, mbind, inplace_bind, get_self, lift, put_self. cbn beta iota.
    pose proof (set_item_no_overlap_error s col arr).
    destruct (set_item s col arr); simpl; congruence. }
  destruct ow; apply Hmask.
Qed.

(** X9. [update] fails with the data-overlap error only when it was asked
    to: with [errors='raise'] and without a filter function. *)
Theorem update_overlap_error_only_on_request
    (A B : table) (join errors : string) (ow : bool)
    (filter_func : option filter_function) :
  (update B join ow filter_func errors A).2 = Err DataOverlap ->
  errors = "raise" /\ filter_func = None.
Proof.
  intros Hfail.
  assert ((errors = "raise" /\ filter_func = None) \/
          forall col B' s,
            (update_column B' ow filter_func errors col s).2 <> Err DataOverlap)
    as [Hreq|Hbody].
  { destruct filter_func as [f|].
    - right. intros col B' s. apply update_column_filtered_no_overlap_error.
    - destruct (String.eqb errors "raise") eqn:Herr.
      + left. split; [by apply String.eqb_eq | done].
      + right. intros col B' s.
        by apply update_column_unchecked_no_overlap_error. }
  { done. }
  exfalso. revert Hfail. unfold update.
  destruct (negb (String.eqb join "left")); [simpl; congruence|].
  destruct (negb (bool_decide _)); [simpl; congruence|].
  unfold mbind, inplace_bind, get_self, lift.
  destruct (reindex_like B A) as [B'|] eqn:HB.
  - apply for_each_no_overlap_error. intros col s. apply Hbody.
  - apply reindex_like_error in HB as ->. simpl. congruence.
Qed.

Lemma update_overlap_error_only_on_request_witness :
  "raise" = "raise" /\ @None filter_function = None.
Proof.
  apply (update_overlap_error_only_on_request
           (column_frame Int64 [Some (Num 1)]) (column_frame Int64 [Some (Num 1)])
           "left" "raise" true None).
  reflexivity.
Defined.

(** ** Counting and dropping missing values *)

Lemma count_true_le (m : list bool) : (count_true m <= length m)%nat.
Proof. unfold count_true. apply length_filter. Qed.

Lemma count_true_cons (b : bool) (m : list bool) :
  count_true (b :: m) = ((if b then 1 else 0) + count_true m)%nat.
Proof.
  unfold count_true. rewrite filter_cons. by destruct b.
Qed.

Lemma count_true_all (m : list bool) :
  (count_true m =? length m)%nat = forallb id m.
Proof.
  induction m as [|b m IH]; [done|].
  rewrite count_true_cons. pose proof (count_true_le m) as Hle.
  destruct b; cbn [forallb id andb length].
  - by rewrite <- IH.
  - apply Nat.eqb_neq. lia.
Qed.

Lemma count_true_notna (vs : list cell) :
  (count_true (notna vs) =? length vs)%nat = complete vs.
Proof.
  rewrite <- (length_map (fun c => negb (isna_cell c)) vs).
  fold (notna vs). rewrite count_true_all.
  unfold complete, notna. induction vs as [|v vs IH]; [done|].
  cbn [map forallb id]. by rewrite IH.
Qed.

(** The count of a column is the number of its cells that are not NA. *)
Lemma count_true_notna_filter (vs : list cell) :
  count_true (notna vs) = length (filter (fun c => isna_cell c = false) vs).
Proof.
  induction vs as [|v vs IH]; [done|].
  unfold notna in *. cbn [map]. rewrite count_true_cons, filter_cons, IH.
  by destruct v.
Qed.

Lemma count_true_positive (vs : list cell) :
  (0 <? count_true (notna vs))%nat = existsb (fun c => negb (isna_cell c)) vs.
Proof.
  induction vs as [|v vs IH]; [done|].
  unfold notna in *. cbn [map]. rewrite count_true_cons. cbn [existsb].
  destruct v; cbn [isna_cell negb orb]; [done | apply IH].
Qed.

Lemma length_row_cells (t : table) i : length (row_cells t i) = length (columns t).
Proof. unfold row_cells, columns. by rewrite length_map, length_fmap. Qed.

Section CountingFacts.

Variable gnd : table -> table.

Lemma count_index (t : table) (a : axis) :
  c_index (count gnd t a false) = _get_agg_axis t a.
Proof.
  unfold count. destruct (_ =? _)%nat; [done|]. by destruct (_is_mixed_type t).
Qed.

Lemma count_values_columns (t : table) :
  c_values (count gnd t Columns false) =
  map (fun i => count_true (notna (row_cells t i))) (seq 0 (length (t_index t))).
Proof.
  unfold count. cbn [_get_axis _get_agg_axis].
  destruct (length (columns t) =? 0)%nat eqn:Hz.
  - apply Nat.eqb_eq in Hz. cbn [c_values].
    assert (t_cols t = []) as Hnil.
    { unfold columns in Hz. rewrite length_fmap in Hz. by destruct (t_cols t). }
    unfold row_cells. rewrite Hnil.
    assert (forall n k, replicate n 0%nat = map (fun _ : nat => 0%nat) (seq k n)) as H.
    { induction n as [|n IH]; intros k; [done|].
      cbn [replicate seq map]. by rewrite (IH (S k)). }
    apply H.
  - by destruct (_is_mixed_type t).
Qed.

Lemma count_values_rows (t : table) :
  wf t ->
  c_values (count gnd t Rows false) =
  map (fun c => count_true (notna (a_values c.2))) (t_cols t).
Proof.
  intros Hwf. unfold count. cbn [_get_axis _get_agg_axis].
  destruct (length (t_index t) =? 0)%nat eqn:Hz.
  - apply Nat.eqb_eq in Hz. cbn [c_values]. unfold columns. rewrite length_fmap.
    unfold wf in Hwf. rewrite Hz in Hwf.
    induction Hwf as [|c cols Hc _ IH]; [done|].
    cbn [length replicate map]. rewrite IH. f_equal.
    by destruct (a_values c.2).
  - by destruct (_is_mixed_type t).
Qed.

(** X10. Along the rows, [count] answers under every column label with the
    number of non-NA cells of that column: never more than there are rows,
    and as many exactly when the column has no NA. *)
Theorem count_per_column (t : table) :
  wf t ->
  c_index (count gnd t Rows false) = columns t /\
  length (c_values (count gnd t Rows false)) = length (columns t) /\
  forall i l a, t_cols t !! i = Some (l, a) ->
    exists n, c_values (count gnd t Rows false) !! i = Some n /\
      n = length (filter (fun c => isna_cell c = false) (a_values a)) /\
      (n <= length (t_index t))%nat /\
      (n = length (t_index t) <-> complete (a_values a) = true).
Proof.
  intros Hwf. rewrite count_index, (count_values_rows t Hwf).
  split; [done|]. split; [unfold columns; by rewrite length_map, length_fmap|].
  intros i l a Hi. change (map ?f ?l) with (f <$> l).
  rewrite list_lookup_fmap, Hi. cbn [fmap option_fmap option_map snd].
  eexists. split; [done|]. split; [apply count_true_notna_filter|].
  assert (length (a_values a) = length (t_index t)) as Hlen.
  { unfold wf in Hwf. rewrite Forall_forall in Hwf. apply (Hwf (l, a)).
    apply list_elem_of_lookup. eauto. }
  rewrite <- Hlen, <- count_true_notna.
  pose proof (count_true_le (notna (a_values a))) as Hle.
  unfold notna in Hle at 2. rewrite length_map in Hle.
  split; [done|]. symmetry. apply Nat.eqb_eq.
Qed.

End CountingFacts.

Lemma count_per_column_witness :
  exists n, c_values (count (fun t => t) frame_gaps Rows false) !! 0%nat = Some n /\
    n = 2%nat.
Proof.
  destruct (count_per_column (fun t => t) frame_gaps ltac:(repeat constructor))
    as (_ & _ & H).
  destruct (H 0%nat (LStr "a")
              {| a_dtype := Float64; a_values := [Some (Num 1); None; Some (Num 3)] |}
              eq_refl) as (n & Hn & Hcount & _).
  exists n. split; [exact Hn | exact Hcount].
Defined.

Lemma lookup_all_from {A} (d : A) (pre vs : list A) :
  map (fun i => default d ((pre ++ vs) !! i)) (seq (length pre) (length vs)) = vs.
Proof.
  revert pre. induction vs as [|v vs IH]; intros pre; [done|].
  cbn [length seq map]. rewrite list_lookup_middle by done. cbn [default].
  f_equal. specialize (IH (pre ++ [v])).
  rewrite length_app, <- app_assoc in IH. cbn in IH.
  by replace (length pre + 1)%nat with (S (length pre)) in IH by lia.
Qed.

Lemma lookup_all {A} (d : A) (vs : list A) :
  map (fun i => default d (vs !! i)) (seq 0 (length vs)) = vs.
Proof. apply (lookup_all_from d [] vs). Qed.

Lemma sum_list_map_add {A} (f g : A -> nat) (l : list A) :
  sum_list (map (fun x => f x + g x)%nat l) =
  (sum_list (map f l) + sum_list (map g l))%nat.
Proof. induction l as [|x l IH]; [done|]. simpl. rewrite IH. lia. Qed.

Lemma sum_list_indicator (vs : list cell) :
  sum_list (map (fun c => if negb (isna_cell c) then 1 else 0)%nat vs) =
  count_true (notna vs).
Proof.
  induction vs as [|v vs IH]; [done|].
  unfold notna in *. cbn [map]. rewrite count_true_cons, <- IH. done.
Qed.

Lemma sum_row_counts (cols : list (label * ndarray)) (n : nat) :
  Forall (fun c => length (a_values c.2) = n) cols ->
  sum_list (map (fun i => count_true
                            (notna (map (fun c => default None (a_values c.2 !! i)) cols)))
                (seq 0 n)) =
  sum_list (map (fun c => count_true (notna (a_values c.2))) cols).
Proof.
  induction 1 as [|c cols Hc _ IH].
  - assert (forall l : list nat, sum_list (map (fun _ => 0%nat) l) = 0%nat) as Hz
      by (induction l as [|x l IHl]; [done | simpl; by rewrite IHl]).
    apply Hz.
  - cbn beta in Hc. cbn [map].
    change (sum_list (?x :: ?l)) with (x + sum_list l)%nat. rewrite <- IH.
    rewrite <- sum_list_indicator.
    rewrite <- (@lookup_all cell None (a_values c.2)) at 1. rewrite Hc, map_map.
    rewrite <- sum_list_map_add. f_equal. apply map_ext. intros i.
    unfold notna. cbn [map]. by rewrite count_true_cons.
Qed.

Lemma take_list_nonzero_compress {A} (xs : list A) (mask : list bool) :
  length mask = length xs -> take_list xs (nonzero mask) = compress mask xs.
Proof. apply take_list_nonzero. Qed.

Lemma take_rows_nonzero (t : table) (mask : list bool) :
  wf t -> length mask = length (t_index t) ->
  take_rows t (nonzero mask) =
  {| t_index := compress mask (t_index t);
     t_cols := map (fun c => (c.1, {| a_dtype := a_dtype c.2;
                                      a_values := compress mask (a_values c.2) |}))
                   (t_cols t) |}.
Proof.
  intros Hwf Hlen. unfold take_rows.
  rewrite take_list_nonzero_compress by done. f_equal.
  unfold wf in Hwf. induction Hwf as [|c cols Hc _ IH]; [done|].
  cbn [map]. rewrite IH. by rewrite take_list_nonzero_compress by congruence.
Qed.

Lemma length_compress {A} (mask : list bool) (xs : list A) :
  length mask = length xs -> length (compress mask xs) = count_true mask.
Proof.
  unfold compress. rewrite length_fmap. revert xs.
  induction mask as [|b mask IH]; intros [|x xs]; try done.
  intros [= H]. cbn [zip zip_with]. rewrite filter_cons, count_true_cons.
  destruct b; cbn [fst].
  - rewrite decide_True by done. cbn [length]. by rewrite IH.
  - rewrite decide_False by done. by rewrite IH.
Qed.

Lemma elem_of_compress {A} (mask : list bool) (xs : list A) x :
  x ∈ compress mask xs -> exists i, mask !! i = Some true /\ xs !! i = Some x.
Proof.
  unfold compress. revert xs. induction mask as [|b mask IH]; intros [|y ys] Hx;
    try (by apply elem_of_nil in Hx).
  cbn [zip zip_with] in Hx. rewrite filter_cons in Hx.
  destruct b; cbn [fst] in Hx.
  - rewrite decide_True in Hx by done. rewrite fmap_cons in Hx.
    apply elem_of_cons in Hx as [->|Hx]; [by exists 0%nat|].
    destruct (IH ys Hx) as (i & Hm & Hi). by exists (S i).
  - rewrite decide_False in Hx by done.
    destruct (IH ys Hx) as (i & Hm & Hi). by exists (S i).
Qed.

Lemma compress_all_true {A} (mask : list bool) (xs : list A) :
  length mask = length xs -> forallb id mask = true -> compress mask xs = xs.
Proof.
  unfold compress. revert xs. induction mask as [|b mask IH]; intros [|x xs]; try done.
  intros [= H]. cbn [forallb id]. intros [-> Hm]%andb_true_iff.
  cbn [zip zip_with]. rewrite filter_cons, decide_True by done.
  rewrite fmap_cons. cbn [snd]. f_equal. by apply IH.
Qed.

Lemma compress_map {A} (f : A -> bool) (xs : list A) :
  compress (map f xs) xs = filter (fun x => f x = true) xs.
Proof.
  unfold compress. induction xs as [|x xs IH]; [done|].
  cbn [map zip zip_with]. rewrite !filter_cons. cbn [fst].
  destruct (decide (f x = true)); [rewrite fmap_cons|]; by rewrite IH.
Qed.

Lemma complete_row_cells (t : table) i l a x :
  complete (row_cells t i) = true -> (l, a) ∈ t_cols t ->
  a_values a !! i = Some x -> isna_cell x = false.
Proof.
  intros Hc Hin Hx. unfold complete in Hc. rewrite forallb_forall in Hc.
  apply negb_true_iff, (Hc x). unfold row_cells. apply in_map_iff.
  exists (l, a). split; [|by apply list_elem_of_In].
  simpl. unfold cell in *. by rewrite Hx.
Qed.

Section DroppingFacts.

Variable gnd : table -> table.

(** X11. The non-NA cells of a well-formed frame are counted once along
    either axis: the counts per column and the counts per row add up to
    the same total. *)
Theorem count_totals_agree (t : table) :
  wf t ->
  sum_list (c_values (count gnd t Rows false)) =
  sum_list (c_values (count gnd t Columns false)).
Proof.
  intros Hwf. rewrite (count_values_rows gnd t Hwf), count_values_columns.
  symmetry. by apply sum_row_counts.
Qed.

(** The rows that [dropna] keeps by default are those without NA. *)
Lemma dropna_rows_any (t : table) :
  dropna gnd t Rows (Some "any") None None =
  inr (take_rows t (nonzero (map (fun i => complete (row_cells t i))
                                 (seq 0 (length (t_index t)))))).
Proof.
  unfold dropna. cbn [other_axis String.eqb Ascii.eqb Bool.eqb andb _get_axis axis_number].
  rewrite count_values_columns, take_axis_0, map_map. do 3 f_equal.
  apply map_ext. intros i. by rewrite <- (length_row_cells t i), count_true_notna.
Qed.

Lemma dropna_rows_any_facts (t r : table) :
  wf t -> dropna gnd t Rows (Some "any") None None = inr r ->
  wf r /\ columns r = columns t /\
  Forall (fun c => complete (a_values c.2) = true) (t_cols r).
Proof.
  intros Hwf. rewrite dropna_rows_any.
  set (mask := map _ _).
  assert (length mask = length (t_index t)) as Hlm
    by (unfold mask; by rewrite length_map, length_seq).
  rewrite take_rows_nonzero by done. intros [= <-].
  unfold wf in Hwf. rewrite Forall_forall in Hwf.
  split; [|split].
  - unfold wf. cbn [t_index t_cols]. rewrite Forall_map. apply Forall_forall.
    intros c Hc. cbn [snd a_values].
    rewrite !length_compress; [done|done|]. rewrite Hlm. symmetry. by apply Hwf.
  - unfold columns. cbn [t_cols]. change (map ?f ?l) with (f <$> l).
    rewrite <- list_fmap_compose. by apply list_fmap_ext.
  - cbn [t_cols]. rewrite Forall_map. apply Forall_forall.
    intros [l a] Hc. cbn [snd a_values]. unfold complete.
    apply forallb_forall. intros x Hx. apply list_elem_of_In in Hx.
    apply elem_of_compress in Hx as (i & Hm & Hi).
    unfold mask in Hm. change (map ?f ?l) with (f <$> l) in Hm.
    rewrite list_lookup_fmap in Hm.
    destruct (seq 0 (length (t_index t)) !! i) as [j|] eqn:Hj; [|done].
    apply lookup_seq in Hj as [-> _]. cbn in Hm. injection Hm as Hm.
    apply negb_true_iff. by apply (complete_row_cells t i l a x).
Qed.

Lemma dropna_rows_any_clean (t : table) :
  wf t -> Forall (fun c => complete (a_values c.2) = true) (t_cols t) ->
  dropna gnd t Rows (Some "any") None None = inr t.
Proof.
  intros Hwf Hclean. rewrite dropna_rows_any.
  set (mask := map _ _).
  assert (length mask = length (t_index t)) as Hlm
    by (unfold mask; by rewrite length_map, length_seq).
  assert (forallb id mask = true) as Hall.
  { apply forallb_forall. intros b Hb. unfold mask in Hb.
    apply in_map_iff in Hb as (i & <- & Hi). apply in_seq in Hi.
    unfold complete, row_cells. apply forallb_forall. intros x Hx.
    apply in_map_iff in Hx as ([l a] & <- & Hc). cbn [snd].
    apply list_elem_of_In in Hc.
    rewrite Forall_forall in Hclean. specialize (Hclean (l, a) Hc). cbn in Hclean.
    unfold wf in Hwf. rewrite Forall_forall in Hwf. specialize (Hwf (l, a) Hc).
    cbn in Hwf.
    destruct (a_values a !! i) as [x|] eqn:Hx.
    - cbn. unfold complete in Hclean. rewrite forallb_forall in Hclean.
      apply Hclean. apply list_elem_of_In, list_elem_of_lookup. eauto.
    - apply lookup_ge_None in Hx. unfold cell in *. lia. }
  clearbody mask. clear Hclean.
  rewrite take_rows_nonzero by done. f_equal. destruct t as [ix cols].
  cbn [t_index t_cols] in *. rewrite compress_all_true by done. f_equal.
  unfold wf in Hwf. cbn [t_index t_cols] in Hwf.
  induction Hwf as [|[l [d vs]] cs Hc _ IH]; [done|].
  cbn [map fst snd a_dtype a_values] in *. rewrite IH.
  by rewrite compress_all_true by congruence.
Qed.

(** X12. With the default arguments, [dropna] keeps all the columns and
    exactly the rows in which no cell is NA, in their order, every kept
    cell and every column type being what it was; the result is
    well-formed and holds no NA at all. *)
Theorem dropna_default_removes_every_na (t : table) :
  wf t ->
  exists r, dropna gnd t Rows (Some "any") None None = inr r /\
    wf r /\ columns r = columns t /\
    t_index r = compress (map (fun i => complete (row_cells t i))
                              (seq 0 (length (t_index t)))) (t_index t) /\
    t_cols r =
      map (fun c => (c.1, {| a_dtype := a_dtype c.2;
                             a_values :=
                               compress (map (fun i => complete (row_cells t i))
                                             (seq 0 (length (t_index t))))
                                        (a_values c.2) |}))
          (t_cols t) /\
    Forall (fun c => complete (a_values c.2) = true) (t_cols r).
Proof.
  intros Hwf. eexists. split; [apply dropna_rows_any|].
  destruct (dropna_rows_any_facts t _ Hwf (dropna_rows_any t)) as (Hw & Hc & Hn).
  split; [done|]. split; [done|]. split; [|split; [|done]].
  - rewrite take_rows_nonzero; [done|done|]. by rewrite length_map, length_seq.
  - rewrite take_rows_nonzero; [done|done|]. by rewrite length_map, length_seq.
Qed.

(** X13. Dropping the rows with NA a second time changes nothing, and a
    well-formed frame without NA is returned as it is. *)
Theorem dropna_idempotent (t r : table) :
  wf t ->
  dropna gnd t Rows (Some "any") None None = inr r ->
  dropna gnd r Rows (Some "any") None None = inr r /\
  (Forall (fun c => complete (a_values c.2) = true) (t_cols t) -> r = t).
Proof.
  intros Hwf Hr.
  destruct (dropna_rows_any_facts t r Hwf Hr) as (Hw & _ & Hn).
  split; [by apply dropna_rows_any_clean|].
  intros Hclean. rewrite (dropna_rows_any_clean t Hwf Hclean) in Hr.
  by injection Hr.
Qed.

(** X14. Along the columns, [dropna] keeps the row index and exactly the
    columns that hold no NA, in their order. *)
Theorem dropna_columns_any (t : table) :
  wf t ->
  dropna gnd t Columns (Some "any") None None =
  inr {| t_index := t_index t;
         t_cols := filter (fun c => complete (a_values c.2) = true) (t_cols t) |}.
Proof.
  intros Hwf. unfold dropna.
  cbn [other_axis String.eqb Ascii.eqb Bool.eqb andb _get_axis axis_number].
  rewrite (count_values_rows gnd t Hwf), take_axis_1, map_map.
  unfold take_cols. do 2 f_equal.
  rewrite take_list_nonzero_compress by (by rewrite length_map).
  rewrite <- compress_map. f_equal.
  unfold wf in Hwf. induction Hwf as [|c cols Hc _ IH]; [done|].
  cbn [map]. rewrite IH. f_equal. by rewrite <- Hc, count_true_notna.
Qed.

End DroppingFacts.

Lemma count_totals_agree_witness :
  sum_list (c_values (count (fun t => t) frame_gaps Rows false)) =
  sum_list (c_values (count (fun t => t) frame_gaps Columns false)).
Proof.
  apply (count_totals_agree (fun t => t) frame_gaps). repeat constructor.
Defined.

Lemma dropna_default_removes_every_na_witness :
  exists r, dropna (fun t => t) frame_gaps Rows (Some "any") None None = inr r /\
    t_index r = [LInt 0].
Proof.
  destruct (dropna_default_removes_every_na (fun t => t) frame_gaps
              ltac:(repeat constructor)) as (r & Hr & _ & _ & Hix & _ & _).
  exists r. split; [exact Hr | exact Hix].
Defined.

Lemma dropna_idempotent_witness :
  dropna (fun t => t)
    (take_rows frame_gaps [0%nat]) Rows (Some "any") None None =
  inr (take_rows frame_gaps [0%nat]).
Proof.
  apply (proj1 (dropna_idempotent (fun t => t) frame_gaps
                  (take_rows frame_gaps [0%nat])
                  ltac:(repeat constructor) eq_refl)).
Defined.

Lemma dropna_columns_any_witness :
  dropna (fun t => t) frame_two_rows Columns (Some "any") None None =
  inr frame_two_rows.
Proof.
  apply (dropna_columns_any (fun t => t) frame_two_rows). repeat constructor.
Defined.

Lemma get_indexer_for_unique (ax : index) (ls : list label) :
  NoDup ax -> get_indexer_for ax ls = get_indexer ax ls.
Proof.
  intros Hnd. unfold get_indexer_for, get_indexer.
  induction ls as [|l ls IH]; [done|].
  rewrite bind_cons, IH. cbn [map].
  pose proof (positions_unique l ax Hnd) as Hle.
  destruct (positions l ax) as [|i [|j ps]]; [done|done|cbn in Hle; lia].
Qed.

Lemma get_indexer_missing_mask (ax : index) (ls : list label) :
  map (fun i => i =? -1) (get_indexer ax ls) =
  map (fun l => bool_decide (l ∉ ax)) ls.
Proof.
  unfold get_indexer. rewrite map_map. apply map_ext. intros l.
  destruct (positions l ax) as [|i ps] eqn:Hp.
  - apply (positions_from_nil 0) in Hp. by rewrite bool_decide_eq_true_2.
  - rewrite bool_decide_eq_false_2.
    + apply Z.eqb_neq. lia.
    + intros Hn. apply (positions_from_nil 0) in Hn. unfold positions in Hp. congruence.
Qed.

Section DroppingErrors.

Variable gnd : table -> table.

(** X15. When [subset] names labels that the other axis does not have,
    [dropna] fails with a key error that lists exactly those labels, in
    the order of [subset], whatever [how] and [thresh] are. *)
Theorem dropna_subset_key_error
    (t : table) (a : axis) (how : option string) (thresh : option Z)
    (ls : list label) (l : label) :
  NoDup (_get_axis t (other_axis a)) ->
  l ∈ ls -> l ∉ _get_axis t (other_axis a) ->
  dropna gnd t a how thresh (Some ls) =
    inl (SubsetNotFound (filter (fun l => l ∉ _get_axis t (other_axis a)) ls)).
Proof.
  intros Hnd Hin Hnot. unfold dropna.
  rewrite (get_indexer_for_unique _ ls Hnd), get_indexer_missing_mask.
  assert (any_true (map (fun l0 => bool_decide (l0 ∉ _get_axis t (other_axis a))) ls)
          = true) as ->.
  { unfold any_true. apply existsb_exists. exists true. split; [|done].
    apply in_map_iff. exists l. split; [by apply bool_decide_eq_true_2|].
    by apply list_elem_of_In. }
  do 2 f_equal. rewrite compress_map. apply list_filter_iff.
  intros x. by rewrite bool_decide_eq_true.
Qed.

(** X16. Without [subset], [dropna] fails exactly when [thresh] is not
    given and [how] is neither 'any' nor 'all': with a value error for an
    unknown [how], with a type error when [how] is missing too. *)
Theorem dropna_argument_errors
    (t : table) (a : axis) (how : option string) (thresh : option Z) :
  match dropna gnd t a how thresh None with
  | inr _ => thresh <> None \/ how = Some "any" \/ how = Some "all"
  | inl (InvalidHow h) =>
      thresh = None /\ how = Some h /\ h <> "any" /\ h <> "all"
  | inl HowOrThreshRequired => thresh = None /\ how = None
  | inl (SubsetNotFound _) => False
  end.
Proof.
  unfold dropna. destruct thresh as [th|]; [by left|].
  destruct how as [h|]; [|done].
  destruct (String.eqb h "any") eqn:Hany.
  { apply String.eqb_eq in Hany as ->. right. by left. }
  destruct (String.eqb h "all") eqn:Hall.
  { apply String.eqb_eq in Hall as ->. right. by right. }
  apply String.eqb_neq in Hany, Hall. done.
Qed.

End DroppingErrors.

Lemma dropna_subset_key_error_witness :
  dropna (fun t => t) frame_gaps Rows (Some "any") None
         (Some [LStr "b"; LStr "z"; LStr "q"]) =
    inl (SubsetNotFound
           (filter (fun l => l ∉ _get_axis frame_gaps (other_axis Rows))
                   [LStr "b"; LStr "z"; LStr "q"])).
Proof.
  apply (dropna_subset_key_error (fun t => t) frame_gaps Rows (Some "any") None
           [LStr "b"; LStr "z"; LStr "q"] (LStr "z")).
  - apply NoDup_cons. split; [|apply NoDup_singleton].
    intros H. apply list_elem_of_singleton in H. discriminate H.
  - right. left.
  - intros H. apply elem_of_cons in H as [H|H]; [discriminate H|].
    apply list_elem_of_singleton in H. discriminate H.
Defined.

(** ** Label-based fancy indexing and iteration *)

Lemma mapM_result_ok {A B} (f : A -> result B) (g : A -> B) (l : list A) :
  Forall (fun x => f x = Ok (g x)) l ->
  mapM (M := result) f l = Ok (map g l).
Proof.
  induction 1 as [|x l Hx _ IH]; [done|].
  cbn [mapM map]. rewrite Hx. cbn [mbind result_bind]. rewrite IH. done.
Qed.

Lemma filter_head_positions (cols : list (label * ndarray)) l j ps :
  positions l cols.*1 = j :: ps ->
  exists c, cols !! j = Some c /\ c.1 = l /\
            head (filter (fun c => c.1 = l) cols) = Some c.
Proof.
  intros Hp. pose proof (take_list_positions cols l) as Htk. rewrite Hp in Htk.
  assert (cols.*1 !! j = Some l) as Hj.
  { apply positions_lookup. rewrite Hp. left. }
  rewrite list_lookup_fmap in Hj.
  destruct (cols !! j) as [c|] eqn:Hc; [|done]. cbn in Hj. injection Hj as Hl.
  exists c. split; [done|]. split; [done|].
  unfold take_list in Htk. cbn [omap list_omap] in Htk. rewrite Hc in Htk.
  by rewrite <- Htk.
Qed.

(** X17. [iteritems] yields one pair per column, in the order of the
    columns, each label with the data of its own column; this holds for
    repeated labels too, where selecting the label would give a frame. *)
Theorem iteritems_lists_columns (t : table) :
  wf t ->
  iteritems t =
    Ok (map (fun c => (c.1, {| s_name := c.1; s_index := t_index t; s_data := c.2 |}))
            (t_cols t)).
Proof.
  intros Hwf. unfold iteritems.
  destruct (is_unique (columns t)) eqn:Hu.
  - apply is_unique_NoDup in Hu. unfold columns at 1.
    change ((t_cols t).*1) with (map fst (t_cols t)).
    assert (Forall (fun c : label * ndarray =>
              (s ← get_item_cache t c.1; Ok (c.1, s)) =
              Ok (c.1, {| s_name := c.1; s_index := t_index t; s_data := c.2 |}))
              (t_cols t)) as Hall.
    { apply Forall_forall. intros [l a0] Hc. cbn [fst snd].
      destruct (unique_column t l Hu) as [a Hf].
      { apply list_elem_of_fmap. by exists (l, a0). }
      assert ((l, a0) ∈ filter (fun c' : label * ndarray => c'.1 = l) (t_cols t))
        as Hin by (by apply list_elem_of_filter).
      rewrite Hf in Hin. apply list_elem_of_singleton in Hin as [= <-].
      by rewrite (get_item_cache_filter t l (l, a0) [] Hf). }
    clear Hu. induction Hall as [|c cols Hc _ IH]; [done|].
    cbn [map mapM]. rewrite Hc. cbn [mbind result_bind]. by rewrite IH.
  - clear Hu. unfold columns. rewrite length_fmap.
    assert (forall pre cols, t_cols t = pre ++ cols ->
              mapM (M := result)
                (fun ik : nat * label =>
                   match _ixs_column t ik.1 with
                   | Some s => Ok (ik.2, s)
                   | None => Err Unmodelled
                   end)
                (zip (seq (length pre) (length cols)) cols.*1) =
              Ok (map (fun c => (c.1, {| s_name := c.1; s_index := t_index t;
                                         s_data := c.2 |})) cols)) as Hgen.
    { intros pre cols. revert pre. induction cols as [|c cols IH]; intros pre Hsplit;
        [done|].
      cbn [length seq fmap list_fmap zip zip_with mapM fst snd].
      assert (_ixs_column t (length pre) =
              Some {| s_name := c.1; s_index := t_index t; s_data := c.2 |}) as ->.
      { unfold _ixs_column. rewrite Hsplit, list_lookup_middle by done.
        cbn [mbind option_bind].
        assert (length (a_values c.2) = length (t_index t)) as Hlen.
        { unfold wf in Hwf. rewrite Forall_forall in Hwf. apply Hwf.
          rewrite Hsplit. apply elem_of_app. right. left. }
        rewrite Hlen. by destruct (length (t_index t)). }
      cbn [mbind result_bind]. specialize (IH (pre ++ [c])).
      rewrite length_app, <- app_assoc in IH. cbn [length app] in IH.
      replace (length pre + 1)%nat with (S (length pre)) in IH by lia.
      by rewrite (IH Hsplit). }
    apply (Hgen [] (t_cols t) eq_refl).
Qed.

Lemma iteritems_lists_columns_witness :
  iteritems frame_xyx =
    Ok (map (fun c => (c.1, {| s_name := c.1; s_index := t_index frame_xyx;
                               s_data := c.2 |})) (t_cols frame_xyx)).
Proof. apply (iteritems_lists_columns frame_xyx). repeat constructor. Defined.

Lemma flat_lookup {A} (rows : list (list A)) (m i j : nat) :
  Forall (fun row => length row = m) rows -> (j < m)%nat ->
  concat rows !! (i * m + j)%nat = rows !! i ≫= fun row => row !! j.
Proof.
  intros Hrows Hj. revert i. induction Hrows as [|row rows Hrow _ IH]; intros i.
  - by destruct i.
  - cbn [concat]. destruct i as [|i].
    + cbn. apply lookup_app_l. lia.
    + rewrite lookup_app_r by (rewrite Hrow; lia).
      replace (S i * m + j - length row)%nat with (i * m + j)%nat
        by (rewrite Hrow; lia).
      cbn. apply IH.
Qed.

Lemma values_rows (t : table) :
  Forall (fun row => length row = length (columns t)) (values t).
Proof.
  unfold values. rewrite Forall_map. apply Forall_forall. intros i _.
  unfold columns. by rewrite length_map, length_fmap.
Qed.

Lemma values_cell (t : table) (i j : nat) r c :
  t_index t !! i = Some r -> t_cols t !! j = Some c ->
  concat (values t) !! (i * length (columns t) + j)%nat =
    Some (default None (coerce (values_dtype t) c.2 !! i)).
Proof.
  intros Hi Hj.
  rewrite (flat_lookup _ (length (columns t))).
  - unfold values. change (map ?f ?l) with (f <$> l).
    rewrite list_lookup_fmap.
    rewrite (proj2 (lookup_seq 0 (length (t_index t)) i i)).
    2:{ split; [done|]. by apply lookup_lt_Some in Hi. }
    cbn [fmap option_fmap option_map mbind option_bind].
    rewrite list_lookup_fmap, Hj. done.
  - apply values_rows.
  - unfold columns. rewrite length_fmap. by apply lookup_lt_Some in Hj.
Qed.

Lemma get_indexer_cons (ax : index) l ls :
  get_indexer ax (l :: ls) =
  match positions l ax with [] => -1 | i :: _ => Z.of_nat i end :: get_indexer ax ls.
Proof. reflexivity. Qed.

Lemma lookup_fast_cells (t : table) (rs cs : list label) :
  length rs = length cs ->
  (forall r, r ∈ rs -> r ∈ t_index t) ->
  (forall c, c ∈ cs -> c ∈ columns t) ->
  mapM (fun z => concat (values t) !! Z.to_nat z)
       (zip_with (fun r c => r * Z.of_nat (length (columns t)) + c)
                 (get_indexer (t_index t) rs) (get_indexer (columns t) cs)) =
  Some (zip_with (cell_at t) rs cs).
Proof.
  revert cs. induction rs as [|r rs IH]; intros [|c cs] Hlen Hr Hc; try done.
  injection Hlen as Hlen.
  rewrite !get_indexer_cons.
  destruct (positions r (t_index t)) as [|i ps] eqn:Hpi.
  { apply (positions_from_nil 0) in Hpi. exfalso. apply Hpi, Hr. left. }
  destruct (positions c (columns t)) as [|j qs] eqn:Hpj.
  { apply (positions_from_nil 0) in Hpj. exfalso. apply Hpj, Hc. left. }
  cbn [zip_with mapM].
  replace (Z.to_nat (Z.of_nat i * Z.of_nat (length (columns t)) + Z.of_nat j))
    with (i * length (columns t) + j)%nat by lia.
  assert (t_index t !! i = Some r) as Hi.
  { apply positions_lookup. rewrite Hpi. left. }
  destruct (filter_head_positions (t_cols t) c j qs Hpj) as (cj & Hj & Hcl & Hhead).
  pose proof (values_cell t i j r cj Hi Hj) as Hv.
  unfold cell in *. rewrite Hv. cbn [mbind option_bind].
  rewrite IH; [|done|intros; apply Hr; by right|intros; apply Hc; by right].
  cbn [mbind option_bind mret option_ret]. do 2 f_equal.
  unfold cell_at. rewrite column_of_filter, Hhead, Hpi. done.
Qed.

(** X18. Given as many row labels as column labels, all of them present,
    [lookup] on its array path (a frame of one element type, or more than
    a thousand pairs) returns for each pair the cell found at the row's
    position in the column, computed through the flat position
    [row * number_of_columns + column]. *)
Theorem lookup_reads_cells (t : table) (rs cs : list label) :
  NoDup (t_index t) -> NoDup (columns t) ->
  length rs = length cs ->
  _is_mixed_type t = false \/ (1000 < length rs)%nat ->
  (forall r, r ∈ rs -> r ∈ t_index t) ->
  (forall c, c ∈ cs -> c ∈ columns t) ->
  lookup t rs cs = inr (zip_with (cell_at t) rs cs).
Proof.
  intros _ _ Hlen Hpath Hr Hc. unfold lookup.
  rewrite Hlen, Nat.eqb_refl. cbn [negb].
  assert (negb (_is_mixed_type t) || (1000 <? length cs)%nat = true) as ->.
  { destruct Hpath as [-> | H]; [done|].
    rewrite Hlen in H. apply Nat.ltb_lt in H. rewrite H. apply orb_true_r. }
  assert (forall ax ls, (forall l, l ∈ ls -> l ∈ ax) ->
            existsb (fun i => i =? -1) (get_indexer ax ls) = false) as Hfound.
  { intros ax ls Hall. unfold get_indexer.
    induction ls as [|l ls IH]; [done|]. cbn [map existsb].
    rewrite IH by (intros; apply Hall; by right).
    destruct (positions l ax) as [|i ps] eqn:Hp.
    - apply (positions_from_nil 0) in Hp. exfalso. apply Hp, Hall. left.
    - rewrite orb_false_r. apply Z.eqb_neq. lia. }
  rewrite !Hfound by done. unfold flat_take.
  by rewrite lookup_fast_cells.
Qed.

Lemma lookup_reads_cells_witness :
  lookup frame_mixed [LInt 20; LInt 10] [LStr "r"; LStr "q"] =
    inr (zip_with (cell_at frame_mixed) [LInt 20; LInt 10] [LStr "r"; LStr "q"]).
Proof.
  apply (lookup_reads_cells frame_mixed [LInt 20; LInt 10] [LStr "r"; LStr "q"]).
  - apply (proj1 (is_unique_NoDup _)). reflexivity.
  - apply (proj1 (is_unique_NoDup _)). reflexivity.
  - reflexivity.
  - left. reflexivity.
  - intros r Hr. apply (proj1 (mem_true _ _)).
    apply elem_of_cons in Hr as [->|Hr]; [reflexivity|].
    apply list_elem_of_singleton in Hr as ->. reflexivity.
  - intros c Hc. apply (proj1 (mem_true _ _)).
    apply elem_of_cons in Hc as [->|Hc]; [reflexivity|].
    apply list_elem_of_singleton in Hc as ->. reflexivity.
Defined.

(** The two-dimensional array of a frame of integers and floats is of
    float type: an integer that no double represents is rounded in it. *)
Example values_round_integers :
  values_dtype frame_int_float = Float64 /\
  values frame_int_float = [[Some (Num 9007199254740992); Some (Num (1 # 2))]].
Proof. split; vm_compute; reflexivity. Qed.

(** X19. [lookup] checks its arguments in a fixed order: label lists of
    different sizes are refused first; on the array path a missing row
    label is reported before a missing column label. *)
Theorem lookup_errors (t : table) (rs cs : list label) :
  NoDup (t_index t) -> NoDup (columns t) ->
  (length rs <> length cs -> lookup t rs cs = inl SizeMismatch) /\
  (length rs = length cs ->
   _is_mixed_type t = false \/ (1000 < length rs)%nat ->
   forall r, r ∈ rs -> r ∉ t_index t -> lookup t rs cs = inl RowNotFound) /\
  (length rs = length cs ->
   _is_mixed_type t = false \/ (1000 < length rs)%nat ->
   (forall r, r ∈ rs -> r ∈ t_index t) ->
   forall c, c ∈ cs -> c ∉ columns t -> lookup t rs cs = inl ColumnNotFound).
Proof.
  intros _ _.
  assert (forall ax ls l, l ∈ ls -> l ∉ ax ->
            existsb (fun i => i =? -1) (get_indexer ax ls) = true) as Hmiss.
  { intros ax ls l Hin Hnot. apply existsb_exists. exists (-1). split; [|done].
    unfold get_indexer. apply in_map_iff. exists l. split; [|by apply list_elem_of_In].
    apply (positions_from_nil 0) in Hnot. unfold positions. by rewrite Hnot. }
  assert (forall ax ls, (forall l, l ∈ ls -> l ∈ ax) ->
            existsb (fun i => i =? -1) (get_indexer ax ls) = false) as Hfound.
  { intros ax ls Hall. unfold get_indexer.
    induction ls as [|l ls IH]; [done|]. cbn [map existsb].
    rewrite IH by (intros; apply Hall; by right).
    destruct (positions l ax) as [|i ps] eqn:Hp.
    - apply (positions_from_nil 0) in Hp. exfalso. apply Hp, Hall. left.
    - rewrite orb_false_r. apply Z.eqb_neq. lia. }
  assert (forall n, _is_mixed_type t = false \/ (1000 < n)%nat ->
            negb (_is_mixed_type t) || (1000 <? n)%nat = true) as Hfast.
  { intros n [-> | H]; [done|]. apply Nat.ltb_lt in H. rewrite H. apply orb_true_r. }
  split; [|split].
  - intros Hne. unfold lookup. apply Nat.eqb_neq in Hne. by rewrite Hne.
  - intros Hlen Hpath r Hin Hnot. unfold lookup.
    rewrite Hlen, Nat.eqb_refl. cbn [negb]. rewrite <- Hlen, (Hfast _ Hpath).
    by rewrite (Hmiss _ _ r Hin Hnot).
  - intros Hlen Hpath Hrows c Hin Hnot. unfold lookup.
    rewrite Hlen, Nat.eqb_refl. cbn [negb]. rewrite <- Hlen, (Hfast _ Hpath).
    by rewrite (Hfound _ _ Hrows), (Hmiss _ _ c Hin Hnot).
Qed.

Lemma lookup_errors_witness :
  lookup frame_mixed [LInt 20] [LStr "r"; LStr "zz"] = inl SizeMismatch /\
  lookup frame_mixed [LInt 11; LInt 20] [LStr "zz"; LStr "r"] = inl RowNotFound /\
  lookup frame_mixed [LInt 10; LInt 20] [LStr "zz"; LStr "r"] = inl ColumnNotFound.
Proof.
  assert (NoDup (t_index frame_mixed)) as Hi
    by (apply (proj1 (is_unique_NoDup _)); reflexivity).
  assert (NoDup (columns frame_mixed)) as Hc
    by (apply (proj1 (is_unique_NoDup _)); reflexivity).
  split; [|split].
  - apply (proj1 (lookup_errors frame_mixed [LInt 20] [LStr "r"; LStr "zz"] Hi Hc)).
    vm_compute. lia.
  - apply (proj1 (proj2 (lookup_errors frame_mixed [LInt 11; LInt 20]
                           [LStr "zz"; LStr "r"] Hi Hc))
             eq_refl (or_introl eq_refl) (LInt 11)).
    + left.
    + intros H. apply (proj2 (mem_true _ _)) in H. discriminate H.
  - apply (proj2 (proj2 (lookup_errors frame_mixed [LInt 10; LInt 20]
                           [LStr "zz"; LStr "r"] Hi Hc))
             eq_refl (or_introl eq_refl)) with (c := LStr "zz").
    + intros r Hr. apply (proj1 (mem_true _ _)).
      apply elem_of_cons in Hr as [->|Hr]; [reflexivity|].
      apply list_elem_of_singleton in Hr as ->. reflexivity.
    + left.
    + intros H. apply (proj2 (mem_true _ _)) in H. discriminate H.
Defined.

Lemma homogeneous_values_dtype (t : table) c :
  _is_mixed_type t = false -> c ∈ t_cols t -> a_dtype c.2 = values_dtype t.
Proof.
  unfold _is_mixed_type, values_dtype.
  destruct (t_cols t) as [|c0 rest]; [intros _ H; by apply elem_of_nil in H|].
  intros Hm Hc. apply negb_false_iff in Hm. rewrite forallb_forall in Hm.
  assert (find_common_type (a_dtype c0.2 :: map (fun c => a_dtype c.2) rest)
          = a_dtype c0.2) as ->.
  { unfold find_common_type.
    assert (forallb (is_dtype_equal (a_dtype c0.2)) (map (fun c => a_dtype c.2) rest)
            = true) as ->; [|done].
    apply forallb_forall. intros d Hd. apply in_map_iff in Hd as (c' & <- & Hc').
    specialize (Hm c' Hc'). unfold is_dtype_equal in *.
    apply bool_decide_eq_true in Hm. by apply bool_decide_eq_true. }
  apply elem_of_cons in Hc as [->|Hc]; [done|].
  apply list_elem_of_In in Hc. specialize (Hm c Hc).
  unfold is_dtype_equal in Hm. by apply bool_decide_eq_true in Hm.
Qed.

Lemma get_value_cell_at (t : table) (r c : label) :
  wf t -> NoDup (t_index t) -> _is_mixed_type t = false ->
  r ∈ t_index t -> c ∈ columns t ->
  _get_value t r c = inr (cell_at t r c).
Proof.
  intros Hwf Hnd Hm Hr Hc.
  destruct (positions r (t_index t)) as [|i ps] eqn:Hpi.
  { apply (positions_from_nil 0) in Hpi. by exfalso. }
  pose proof (positions_unique r _ Hnd) as Hle. rewrite Hpi in Hle.
  destruct ps; [|cbn in Hle; lia].
  destruct (positions c (columns t)) as [|j qs] eqn:Hpj.
  { apply (positions_from_nil 0) in Hpj. by exfalso. }
  destruct (filter_head_positions (t_cols t) c j qs Hpj) as (cj & Hj & Hcl & Hhead).
  destruct (filter (fun c' => c'.1 = c) (t_cols t)) as [|c1 rest] eqn:Hf; [done|].
  cbn in Hhead. injection Hhead as ->.
  assert (cj ∈ t_cols t) as Hin by (apply list_elem_of_lookup; eauto).
  assert (t_index t !! i = Some r) as Hi.
  { apply positions_lookup. rewrite Hpi. left. }
  assert (length (a_values cj.2) = length (t_index t)) as Hlen.
  { unfold wf in Hwf. rewrite Forall_forall in Hwf. by apply Hwf. }
  unfold _get_value. rewrite (get_item_cache_filter t c cj rest Hf).
  unfold get_loc. rewrite Hpi. unfold s_values. cbn [s_data].
  unfold cell_at. rewrite column_of_filter, Hf, Hpi.
  cbn [head fmap option_fmap option_map mbind option_bind].
  unfold coerce, is_dtype_equal.
  rewrite bool_decide_eq_true_2 by (by apply homogeneous_values_dtype).
  apply lookup_lt_Some in Hi.
  destruct (lookup_lt_is_Some_2 (a_values cj.2) i) as [x Hx];
    [unfold cell in *; lia|].
  unfold cell in *. by rewrite !Hx.
Qed.

(** X20. On a well-formed frame of one element type with distinct row
    labels, [lookup] gives what [_get_value] gives for each pair of labels
    in turn, as its documentation says. *)
Theorem lookup_as_get_value (t : table) (rs cs : list label) :
  wf t -> NoDup (t_index t) -> NoDup (columns t) ->
  _is_mixed_type t = false ->
  length rs = length cs ->
  (forall r, r ∈ rs -> r ∈ t_index t) ->
  (forall c, c ∈ cs -> c ∈ columns t) ->
  lookup t rs cs = get_values t (zip rs cs).
Proof.
  intros Hwf Hnd _ Hm Hlen Hr Hc.
  assert (get_values t (zip rs cs) = inr (zip_with (cell_at t) rs cs)) as ->.
  { clear Hlen. revert cs Hc. induction rs as [|r rs IH]; intros [|c cs] Hc; try done.
    cbn [zip zip_with get_values].
    rewrite (get_value_cell_at t r c Hwf Hnd Hm) by (try apply Hr; try apply Hc; left).
    change (zip_with pair rs cs) with (zip rs cs).
    rewrite IH; [done|intros; apply Hr; by right|intros; apply Hc; by right]. }
  unfold lookup. rewrite Hlen, Nat.eqb_refl, Hm. cbn [negb orb].
  assert (forall ax ls, (forall l, l ∈ ls -> l ∈ ax) ->
            existsb (fun i => i =? -1) (get_indexer ax ls) = false) as Hfound.
  { intros ax ls Hall. unfold get_indexer.
    induction ls as [|l ls IH]; [done|]. cbn [map existsb].
    rewrite IH by (intros; apply Hall; by right).
    destruct (positions l ax) as [|i ps] eqn:Hp.
    - apply (positions_from_nil 0) in Hp. exfalso. apply Hp, Hall. left.
    - rewrite orb_false_r. apply Z.eqb_neq. lia. }
  rewrite !Hfound by done. unfold flat_take.
  by rewrite lookup_fast_cells.
Qed.

Lemma lookup_as_get_value_witness :
  lookup frame_mixed [LInt 20; LInt 10] [LStr "r"; LStr "q"] =
  get_values frame_mixed (zip [LInt 20; LInt 10] [LStr "r"; LStr "q"]).
Proof.
  apply (lookup_as_get_value frame_mixed [LInt 20; LInt 10] [LStr "r"; LStr "q"]).
  - repeat constructor.
  - apply (proj1 (is_unique_NoDup _)). reflexivity.
  - apply (proj1 (is_unique_NoDup _)). reflexivity.
  - reflexivity.
  - reflexivity.
  - intros r Hr. apply (proj1 (mem_true _ _)).
    apply elem_of_cons in Hr as [->|Hr]; [reflexivity|].
    apply list_elem_of_singleton in Hr as ->. reflexivity.
  - intros c Hc. apply (proj1 (mem_true _ _)).
    apply elem_of_cons in Hc as [->|Hc]; [reflexivity|].
    apply list_elem_of_singleton in Hc as ->. reflexivity.
Defined.

(** ** Further properties of [combine_first] *)

Lemma same_values_isna (xs ys : list cell) :
  same_values xs ys = true -> isna xs = isna ys.
Proof.
  unfold same_values. intros [Hl Hs]%andb_true_iff.
  apply bool_decide_eq_true in Hl. revert ys Hl Hs.
  induction xs as [|x xs IH]; intros [|y ys] Hl Hs; try done.
  cbn [zip_with forallb id] in Hs. apply andb_true_iff in Hs as [Hxy Hs].
  cbn [isna map]. fold (isna xs) (isna ys). f_equal.
  - by destruct x, y.
  - apply IH; [by injection Hl | done].
Qed.

Lemma isna_mapM_cast d (vs vs' : list cell) :
  d <> Bool -> mapM (cast_cell d) vs = Some vs' -> isna vs' = isna vs.
Proof.
  intros Hd. revert vs'. induction vs as [|v vs IH]; intros vs'.
  - by intros [= <-].
  - cbn [mapM]. destruct (cast_cell d v) as [v'|] eqn:Hv; [|done].
    cbn [mbind option_bind]. destruct (mapM (cast_cell d) vs) as [ws|]; [|done].
    cbn [mbind option_bind mret option_ret]. intros [= <-].
    cbn [isna map]. fold (isna ws) (isna vs). rewrite (IH ws eq_refl). f_equal.
    destruct v as [x|]; cbn in Hv.
    + destruct (cast_scalar d x); [|done]. by injection Hv as <-.
    + destruct d; cbn in Hv; try done; by injection Hv as <-.
Qed.

Lemma isna_astype d a a' :
  d <> Bool -> astype d a = Some a' -> isna (a_values a') = isna (a_values a).
Proof.
  intros Hd. unfold astype.
  destruct (mapM (cast_cell d) (a_values a)) as [vs|] eqn:Hm; [|done].
  cbn. intros [= <-]. by apply (isna_mapM_cast d).
Qed.

(** The common type is boolean only when both types are. *)
Lemma find_common_type_bool (x y : dtype) :
  find_common_type [x; y] = Bool -> x = Bool /\ y = Bool.
Proof. by destruct x, y. Qed.

Lemma isna_promote d a a' :
  (d = Bool -> a_dtype a = Bool) ->
  promote d a = Some a' -> isna (a_values a') = isna (a_values a).
Proof.
  intros Hd. unfold promote, is_dtype_equal. case_bool_decide as He.
  - by intros [= <-].
  - apply isna_astype. intros ->. by rewrite Hd in He.
Qed.

Lemma isna_maybe_downcast r d :
  isna (a_values (maybe_downcast_to_dtype r d)) = isna (a_values r).
Proof.
  destruct (maybe_downcast_cases r d) as [(_ & _ & Hs) | [-> _]]; [|done].
  by apply same_values_isna.
Qed.

Lemma same_values_maybe_downcast r d :
  same_values (a_values (maybe_downcast_to_dtype r d)) (a_values r) = true.
Proof.
  destruct (maybe_downcast_cases r d) as [(_ & _ & Hs) | [-> _]]; [done|].
  apply same_values_refl.
Qed.

(** [np.where] on two arrays of one element type. *)
Lemma np_where_same_dtype mask (x y w : ndarray) :
  a_dtype x = a_dtype y -> np_where mask x y = Ok w ->
  w = {| a_dtype := a_dtype x; a_values := select mask (a_values x) (a_values y) |}.
Proof.
  intros Hd. unfold np_where. destruct (_ && _); [|done]. intros [= <-].
  unfold np_result_type. rewrite <- Hd, Nat.ltb_irrefl.
  unfold coerce, is_dtype_equal.
  by rewrite !bool_decide_eq_true_2 by done.
Qed.

Lemma isna_select_isna_swapped (xs ys : list cell) :
  length xs = length ys ->
  isna (select (isna xs) ys xs) = zip_with andb (isna xs) (isna ys).
Proof.
  revert ys. induction xs as [|x xs IH]; intros [|y ys]; try done.
  intros [= H]. cbn [isna map select zip_with]. fold (isna ys) (isna xs).
  f_equal; [|by apply IH]. destruct x, y; done.
Qed.

(** Filling from cells that are all NA changes nothing. *)
Lemma select_isna_all_na (xs ys : list cell) :
  length xs = length ys -> all_true (isna ys) = true ->
  select (isna xs) ys xs = xs.
Proof.
  revert ys. induction xs as [|x xs IH]; intros [|y ys]; try done.
  intros [= H]. unfold all_true. cbn [isna map forallb id].
  intros [Hy Hys]%andb_true_iff. cbn [select]. fold (isna xs).
  rewrite IH by done. destruct x, y; done.
Qed.

Lemma length_mapM_some {A B} (f : A -> option B) (xs : list A) (ys : list B) :
  mapM f xs = Some ys -> length ys = length xs.
Proof.
  revert ys. induction xs as [|x xs IH]; intros ys.
  - by intros [= <-].
  - cbn [mapM]. destruct (f x); [|done]. cbn [mbind option_bind].
    destruct (mapM f xs) as [zs|]; [|done].
    cbn [mbind option_bind mret option_ret]. intros [= <-]. cbn.
    by rewrite (IH zs).
Qed.

Lemma length_promote d a a' :
  promote d a = Some a' -> length (a_values a') = length (a_values a).
Proof.
  unfold promote. destruct (is_dtype_equal _ _); [by intros [= <-]|].
  unfold astype. destruct (mapM _ _) as [vs|] eqn:Hm; [|done].
  cbn. intros [= <-]. by apply (length_mapM_some _ _ _ Hm).
Qed.

Lemma align_same_axes (A B : table) (how : policy) :
  t_index B = t_index A -> columns B = columns A -> align A B how = Ok (A, B).
Proof.
  intros Hi Hc. unfold align, align_axis, equals. rewrite Hi, Hc.
  rewrite !bool_decide_eq_true_2 by done. reflexivity.
Qed.

(** The loop body of [combine_first] for a column of both frames. *)
Lemma combine_first_column (A B : table) col a b arr :
  wf A -> wf B -> t_index B = t_index A ->
  filter (fun c => c.1 = col) (t_cols A) = [(col, a)] ->
  filter (fun c => c.1 = col) (t_cols B) = [(col, b)] ->
  combine_column A A B (combiner A) None false col = Ok arr ->
  (all_true (isna (a_values b)) = true -> arr = a) /\
  (all_true (isna (a_values b)) = false ->
   exists sa sb,
     promote (find_common_type [a_dtype a; a_dtype b]) a = Some sa /\
     promote (find_common_type [a_dtype a; a_dtype b]) b = Some sb /\
     arr = maybe_downcast_to_dtype
             {| a_dtype := find_common_type [a_dtype a; a_dtype b];
                a_values := select (isna (a_values a)) (a_values sb) (a_values sa) |}
             (a_dtype a)).
Proof.
  intros HwfA HwfB Hi Hfa Hfb.
  assert (col ∈ columns A) as Hin.
  { assert ((col, a) ∈ filter (fun c => c.1 = col) (t_cols A)) as Hc
      by (rewrite Hfa; left).
    apply list_elem_of_filter in Hc as [_ Hc].
    apply list_elem_of_fmap. by exists (col, a). }
  destruct (all_true (isna (a_values b))) eqn:Hall.
  - unfold combine_column.
    rewrite (getitem_label_one A col (col, a) Hfa), (getitem_label_one B col (col, b) Hfb).
    cbn [mbind result_bind as_series]. unfold s_values. cbn [s_data snd negb andb].
    rewrite Hall. intros [= <-]. done.
  - rewrite (combine_column_promoted A A B (combiner A) false col
               {| s_name := col; s_index := t_index A; s_data := a |}
               {| s_name := col; s_index := t_index B; s_data := b |} Hin
               (getitem_label_one A col (col, a) Hfa)
               (getitem_label_one B col (col, b) Hfb)).
    2:{ unfold s_values. cbn [s_data negb andb]. done. }
    unfold s_dtype. cbn [s_data].
    destruct (promote _ a) as [sa|] eqn:Hsa; [|done].
    destruct (promote _ b) as [sb|] eqn:Hsb; [|done].
    unfold combiner, with_data, s_values. cbn [s_data s_name].
    unfold mem. rewrite (bool_decide_eq_true_2 _ Hin). cbn [negb].
    destruct (np_where (isna (a_values sa)) sb sa) as [w|] eqn:Hw; [|done].
    cbn [mbind result_bind]. intros [= <-]. split; [done|]. intros _.
    exists sa, sb. split; [done|]. split; [done|].
    apply np_where_same_dtype in Hw;
      [|by rewrite (promote_dtype _ a sa Hsa), (promote_dtype _ b sb Hsb)].
    rewrite Hw, (promote_dtype _ b sb Hsb). do 3 f_equal.
    apply (fun H => isna_promote _ a sa H Hsa).
    intros Hd. by apply find_common_type_bool in Hd as [? _].
Qed.

(** X21. For two well-formed frames on the same rows and columns,
    [combine_first] keeps these axes, and a cell of the result is null
    exactly where both frames are null.  A column that the other frame
    cannot fill is kept as it is; otherwise, at the common type of the two
    columns, the result holds the cells of the calling frame wherever it
    has one and those of the other frame elsewhere, as they are when the
    two columns have one type. *)
Theorem combine_first_null_pattern (A B R : table) col a b r :
  wf A -> wf B -> NoDup (columns A) ->
  t_index B = t_index A -> columns B = columns A ->
  combine_first A B = Ok R ->
  column_of A col = Some a -> column_of B col = Some b -> column_of R col = Some r ->
  t_index R = t_index A /\ columns R = columns A /\
  isna (a_values r) = zip_with andb (isna (a_values a)) (isna (a_values b)) /\
  (all_true (isna (a_values b)) = true -> r = a) /\
  (all_true (isna (a_values b)) = false ->
   exists sa sb,
     promote (find_common_type [a_dtype a; a_dtype b]) a = Some sa /\
     promote (find_common_type [a_dtype a; a_dtype b]) b = Some sb /\
     same_values (a_values r)
       (select (isna (a_values a)) (a_values sb) (a_values sa)) = true) /\
  (a_dtype a = a_dtype b ->
   r = {| a_dtype := a_dtype a;
          a_values := select (isna (a_values a)) (a_values b) (a_values a) |}).
Proof.
  intros HwfA HwfB Hnd Hi Hc HR Ha Hb Hr.
  assert (col ∈ columns A) as Hin.
  { rewrite column_of_filter in Ha.
    destruct (filter (fun c => c.1 = col) (t_cols A)) as [|c cs] eqn:Hf; [done|].
    assert (c ∈ filter (fun c => c.1 = col) (t_cols A)) as Hc' by (rewrite Hf; left).
    apply list_elem_of_filter in Hc' as [<- Hc'].
    apply list_elem_of_fmap. by exists c. }
  destruct (unique_column A col Hnd Hin) as [a0 Hfa].
  destruct (unique_column B col) as [b0 Hfb]; [by rewrite Hc..|].
  rewrite column_of_filter, Hfa in Ha. rewrite column_of_filter, Hfb in Hb.
  cbn in Ha, Hb. injection Ha as ->. injection Hb as ->.
  pose proof (wf_filter A col a HwfA Hfa) as Hla.
  pose proof (wf_filter B col b HwfB Hfb) as Hlb. rewrite Hi in Hlb.
  assert (length (a_values a) = length (a_values b)) as Hlab by congruence.
  assert (empty B = empty A) as Hempty.
  { unfold empty. rewrite Hi. f_equal.
    assert (length (t_cols B) = length (t_cols A)) as ->; [|done].
    rewrite <- (length_fmap fst (t_cols B)), <- (length_fmap fst (t_cols A)).
    unfold columns in Hc. by rewrite Hc. }
  assert (all_true (isna (a_values b)) = true ->
          a = {| a_dtype := a_dtype a;
                 a_values := select (isna (a_values a)) (a_values b) (a_values a) |})
    as Hkept.
  { intros Hall. rewrite select_isna_all_na by done. by destruct a. }
  destruct (empty A) eqn:HeA.
  - (* nothing to combine: the calling frame is returned *)
    unfold combine_first, combine in HR. rewrite (align_same_axes A B Outer Hi Hc) in HR.
    cbn [mbind result_bind fst snd] in HR.
    rewrite Hempty, Nat.eqb_refl in HR. cbn [andb] in HR. injection HR as <-.
    split; [done|]. split; [done|].
    rewrite column_of_filter, Hfa in Hr. cbn in Hr. injection Hr as <-.
    assert (a_values a = [] /\ a_values b = []) as [Hanil Hbnil].
    { unfold empty in HeA. apply orb_true_iff in HeA as [Hz|Hz].
      - apply Nat.eqb_eq in Hz. rewrite Hz in Hla, Hlb.
        by destruct (a_values a), (a_values b).
      - apply Nat.eqb_eq in Hz. apply list_elem_of_fmap in Hin as (c & _ & Hin).
        destruct (t_cols A); [by apply elem_of_nil in Hin | done]. }
    split; [by rewrite Hanil, Hbnil|]. split; [done|].
    split; [by rewrite Hbnil|]. intros _. apply Hkept. by rewrite Hbnil.
  - destruct (combine_result_columns A B (combiner A) None false A B R
                (align_same_axes A B Outer Hi Hc)) as (HiR & HcR & Hcols);
      [by rewrite Hempty | by rewrite HeA | exact HR |].
    rewrite Hc, union_self in HcR.
    split; [done|]. split; [done|].
    destruct (Hcols col) as (arr & Harr & Harr'); [by rewrite HcR|].
    rewrite Hr in Harr'. injection Harr' as ->.
    destruct (combine_first_column A B col a b arr HwfA HwfB Hi Hfa Hfb Harr)
      as [Hshort Hfill].
    destruct (all_true (isna (a_values b))) eqn:Hall.
    + rewrite (Hshort eq_refl).
      split; [|split; [done|split; [done|intros _; by apply Hkept]]].
      symmetry. apply all_true_zip_andb_r; [|done].
      unfold isna. by rewrite !length_map.
    + destruct (Hfill eq_refl) as (sa & sb & Hsa & Hsb & ->).
      assert (isna (a_values sa) = isna (a_values a)) as Hna.
      { apply (fun H => isna_promote _ a sa H Hsa).
        intros Hd. by apply find_common_type_bool in Hd as [? _]. }
      assert (isna (a_values sb) = isna (a_values b)) as Hnb.
      { apply (fun H => isna_promote _ b sb H Hsb).
        intros Hd. by apply find_common_type_bool in Hd as [_ ?]. }
      split; [|split; [done|split]].
      * rewrite isna_maybe_downcast. cbn [a_values].
        rewrite <- Hna, isna_select_isna_swapped, Hna, Hnb; [done|].
        by rewrite (length_promote _ a sa Hsa), (length_promote _ b sb Hsb).
      * intros _. exists sa, sb. split; [done|]. split; [done|].
        apply same_values_maybe_downcast.
      * intros Hd. rewrite <- Hd, find_common_type_same in *.
        unfold promote, is_dtype_equal in Hsa, Hsb.
        rewrite bool_decide_eq_true_2 in Hsa by done.
        rewrite bool_decide_eq_true_2 in Hsb by done.
        injection Hsa as <-. injection Hsb as <-.
        exact (maybe_downcast_same_dtype
                 {| a_dtype := a_dtype a;
                    a_values := select (isna (a_values a)) (a_values b)
                                  (a_values a) |}).
Qed.

Lemma combine_first_null_pattern_witness :
  isna [Some (Num 1); Some (Num 9)] =
  zip_with andb (isna [Some (Num 1); None]) (isna [Some (Num 9); Some (Num 9)]).
Proof.
  refine (proj1 (proj2 (proj2 (combine_first_null_pattern update_A update_B
           (column_frame Float64 [Some (Num 1); Some (Num 9)]) (LStr "col")
           {| a_dtype := Float64; a_values := [Some (Num 1); None] |}
           {| a_dtype := Int64; a_values := [Some (Num 9); Some (Num 9)] |}
           {| a_dtype := Float64; a_values := [Some (Num 1); Some (Num 9)] |}
           _ _ _ eq_refl eq_refl eq_refl eq_refl eq_refl eq_refl)))).
  - repeat constructor.
  - repeat constructor.
  - apply NoDup_singleton.
Defined.

(** ** Further properties of [dropna] and [update] *)

Section DroppingAll.

Variable gnd : table -> table.

(** X22. With [how='all'], [dropna] keeps all the columns and removes
    exactly the rows in which every cell is NA, every kept cell and every
    column type being what it was; the rows it keeps include all those
    that the default [how='any'] keeps. *)
Theorem dropna_all_rows (t : table) :
  wf t ->
  exists r, dropna gnd t Rows (Some "all") None None = inr r /\
    columns r = columns t /\
    t_index r = compress (map (fun i => negb (forallb isna_cell (row_cells t i)))
                              (seq 0 (length (t_index t)))) (t_index t) /\
    t_cols r =
      map (fun c => (c.1, {| a_dtype := a_dtype c.2;
                             a_values :=
                               compress
                                 (map (fun i => negb (forallb isna_cell (row_cells t i)))
                                      (seq 0 (length (t_index t))))
                                 (a_values c.2) |}))
          (t_cols t) /\
    forall i, columns t <> [] ->
      complete (row_cells t i) = true ->
      negb (forallb isna_cell (row_cells t i)) = true.
Proof.
  intros Hwf.
  assert (dropna gnd t Rows (Some "all") None None =
          inr (take_rows t (nonzero (map (fun i => negb (forallb isna_cell (row_cells t i)))
                                         (seq 0 (length (t_index t))))))) as Hrun.
  { unfold dropna.
    cbn [other_axis String.eqb Ascii.eqb Bool.eqb andb _get_axis axis_number].
    rewrite count_values_columns, take_axis_0, map_map. do 3 f_equal.
    apply map_ext. intros i. rewrite count_true_positive.
    generalize (row_cells t i). intros vs. induction vs as [|v vs IH]; [done|].
    cbn [existsb forallb]. rewrite IH. by destruct (isna_cell v). }
  eexists. split; [exact Hrun|].
  rewrite take_rows_nonzero by (done || by rewrite length_map, length_seq).
  cbn [t_index t_cols]. split; [|split; [done|split; [done|]]].
  - unfold columns. cbn [t_cols]. change (map ?f ?l) with (f <$> l).
    rewrite <- list_fmap_compose. by apply list_fmap_ext.
  - intros i Hne Hcomplete.
    pose proof (length_row_cells t i) as Hlen.
    destruct (row_cells t i) as [|v vs]; [by destruct (columns t)|].
    unfold complete in Hcomplete. cbn [forallb] in *.
    apply andb_true_iff in Hcomplete as [Hv _].
    apply negb_true_iff in Hv. by rewrite Hv.
Qed.

End DroppingAll.

Lemma dropna_all_rows_witness :
  exists r, dropna (fun t => t) frame_gaps Rows (Some "all") None None = inr r /\
    columns r = [LStr "a"; LStr "b"].
Proof.
  destruct (dropna_all_rows (fun t => t) frame_gaps ltac:(repeat constructor))
    as (r & Hr & Hc & _).
  exists r. split; [exact Hr | exact Hc].
Defined.

Lemma np_result_type_absorb (a b : dtype) :
  np_result_type (np_result_type a b) b = np_result_type a b.
Proof. by destruct a, b. Qed.

Lemma coerce_same_dtype d (vs : list cell) :
  coerce d {| a_dtype := d; a_values := vs |} = vs.
Proof. unfold coerce, is_dtype_equal. by rewrite bool_decide_eq_true_2. Qed.

Lemma select_select (mask : list bool) (xs ys : list cell) :
  select mask (select mask xs ys) ys = select mask xs ys.
Proof.
  revert xs ys. induction mask as [|m mask IH]; intros [|x xs] [|y ys]; try done.
  cbn [select]. rewrite IH. by destruct m.
Qed.

Lemma select_notna_again (xs ys zs : list cell) :
  length xs = length ys -> length xs = length zs -> isna xs = isna zs ->
  select (notna (select (notna zs) xs ys)) (select (notna zs) xs ys) ys =
  select (notna zs) xs ys.
Proof.
  revert ys zs. induction xs as [|x xs IH]; intros [|y ys] [|z zs]; try done.
  intros [= Hy] [= Hz]. cbn [isna notna map select]. intros [= Hxz Hrest].
  fold (notna zs) (isna xs) (isna zs) in *.
  fold (notna (select (notna zs) xs ys)).
  rewrite IH by done.
  destruct x, z, y; cbn in *; done.
Qed.

(** Updating twice with the same column changes nothing the second time. *)
Lemma merged_column_idempotent (ow : bool) (a b : ndarray) :
  length (a_values a) = length (a_values b) ->
  merged_column ow (merged_column ow a b) b = merged_column ow a b.
Proof.
  intros Hlen. unfold merged_column at 2.
  destruct ow.
  - destruct (all_true (isna (a_values b))) eqn:Hall.
    + unfold merged_column. by rewrite Hall.
    + unfold merged_column. cbn [a_values a_dtype]. rewrite Hall.
      rewrite np_result_type_absorb, coerce_same_dtype.
      by rewrite select_select.
  - destruct (all_true (notna (a_values a))) eqn:Hall.
    + unfold merged_column. by rewrite Hall.
    + set (d := np_result_type (a_dtype a) (a_dtype b)).
      set (m := select (notna (a_values a)) (coerce d a) (coerce d b)).
      unfold merged_column. cbn [a_values a_dtype]. rewrite Hall. fold d m.
      destruct (all_true (notna m)); [done|].
      assert (np_result_type d (a_dtype b) = d) as ->
        by apply np_result_type_absorb.
      rewrite coerce_same_dtype.
      f_equal. unfold m. apply select_notna_again.
      * by rewrite !length_coerce.
      * by rewrite length_coerce.
      * apply isna_coerce, np_result_type_wider.
Qed.

Lemma reindex_like_same_axes (B A A' : table) :
  t_index A' = t_index A -> columns A' = columns A ->
  reindex_like B A' = reindex_like B A.
Proof. intros Hi Hc. unfold reindex_like. by rewrite Hi, Hc. Qed.

Lemma table_columns_ext (s t : table) :
  NoDup (columns s) -> t_index s = t_index t -> columns s = columns t ->
  (forall col, col ∈ columns s -> column_of s col = column_of t col) ->
  s = t.
Proof.
  intros Hnd Hi Hc Hcol.
  assert (forall u : table, NoDup (columns u) ->
            t_cols u = map (fun l => (l, default (all_na 0) (column_of u l))) (columns u))
    as Hrebuild.
  { intros u Hu. unfold columns. change (map ?f ?l) with (f <$> l).
    rewrite <- list_fmap_compose. rewrite <- (list_fmap_id (t_cols u)) at 1.
    apply Forall_fmap_ext_1, Forall_forall. intros [l a] Hin. cbn.
    destruct (unique_column u l Hu) as [a' Hf].
    { apply list_elem_of_fmap. by exists (l, a). }
    assert ((l, a) ∈ filter (fun c => c.1 = l) (t_cols u)) as Hin'
      by (by apply list_elem_of_filter).
    rewrite Hf in Hin'. apply list_elem_of_singleton in Hin' as [= <-].
    by rewrite column_of_filter, Hf. }
  assert (t_cols s = t_cols t) as Hcols.
  { rewrite (Hrebuild s Hnd), (Hrebuild t) by (by rewrite <- Hc).
    rewrite <- Hc. apply map_ext_in. intros l Hl. apply list_elem_of_In in Hl.
    by rewrite (Hcol l Hl). }
  destruct s as [si sc], t as [ti tc]. cbn [t_index t_cols] in Hi, Hcols.
  by subst.
Qed.

(** X23. Without filter function and with [errors='ignore'], [update] is
    idempotent: updating a second time with the same frame leaves the
    calling frame as the first update made it. *)
Theorem update_idempotent (A B B' A1 : table) (ow : bool) :
  wf A -> wf B -> NoDup (columns A) -> reindex_like B A = Ok B' ->
  update B "left" ow None "ignore" A = (A1, Ok tt) ->
  update B "left" ow None "ignore" A1 = (A1, Ok tt).
Proof.
  intros HwfA HwfB Hnd Hre Hrun.
  destruct (update_ignore_columns A B B' ow HwfA HwfB Hnd Hre)
    as (A1' & Hrun1 & Hi1 & Hc1 & Hwf1 & Hcol1).
  rewrite Hrun1 in Hrun. injection Hrun as ->.
  destruct (update_ignore_columns A1 B B' ow Hwf1 HwfB)
    as (A2 & Hrun2 & Hi2 & Hc2 & Hwf2 & Hcol2).
  { by rewrite Hc1. }
  { by rewrite (reindex_like_same_axes B A A1). }
  rewrite Hrun2. f_equal.
  destruct (reindex_like_axes B A B' HwfB Hre) as (HwfB' & HiB & HcB).
  apply table_columns_ext; [congruence|congruence|congruence|].
  intros col Hcol. rewrite Hc2, Hc1 in Hcol.
  destruct (unique_column A col Hnd Hcol) as [a Hfa].
  destruct (unique_column B' col) as [b Hfb]; [by rewrite HcB..|].
  assert (column_of A col = Some a) as Ha by (by rewrite column_of_filter, Hfa).
  assert (column_of B' col = Some b) as Hb by (by rewrite column_of_filter, Hfb).
  pose proof (Hcol1 col a b Hcol Ha Hb) as H1.
  rewrite (Hcol2 col _ b ltac:(by rewrite Hc1) H1 Hb), H1. f_equal.
  apply merged_column_idempotent.
  rewrite (wf_filter A col a HwfA Hfa), (wf_filter B' col b HwfB' Hfb).
  by rewrite HiB.
Qed.

Lemma update_idempotent_witness :
  update update_B "left" false None "ignore"
         (column_frame Float64 [Some (Num 1); Some (Num 9)]) =
    (column_frame Float64 [Some (Num 1); Some (Num 9)], Ok tt).
Proof.
  apply (update_idempotent update_A update_B update_B
           (column_frame Float64 [Some (Num 1); Some (Num 9)]) false);
    try reflexivity.
  - repeat constructor.
  - repeat constructor.
  - apply NoDup_singleton.
Defined.
